(** * ZmodADC: calibration coefficients of the Zmod ADC 1410

    A shallow embedding of [ZmodADC.c] (dpmutil): the two coefficient
    functions [ComputeMultCoefADC1410] and [ComputeAddCoefADC1410] and the
    report driver [FDisplayZmodADCCal], together with the properties the
    functional specification states about them.

    Floating point is modelled with the IEEE-754 specification of the
    standard library ([SpecFloat]): C [float] is binary32 (precision 24,
    emax 128), C [double] is binary64 (precision 53, emax 1024), every
    operation is evaluated in the precision of its C type and rounded to
    nearest, ties to even (FLT_EVAL_METHOD 0, default rounding mode). *)

From Stdlib Require Import ZArith Lia Bool List String Ascii QArith Qround Lqa.
From Stdlib Require Import Floats.SpecFloat.
Import ListNotations.
Open Scope string_scope.
Open Scope Z_scope.

(* ================================================================== *)
(** ** IEEE-754 layer: the C types [float], [double] and [int32_t]    *)
(* ================================================================== *)

Module FP.

(** An integer as a floating-point number of the given format. *)
Definition SFofZ (prec emax : Z) (z : Z) : spec_float :=
  binary_normalize prec emax z 0 false.

(** [(float) i] for an [int] i. *)
Definition float_of_int (i : Z) : spec_float := SFofZ 24 128 i.

(** The [float] nearest to [m * 2^e]. *)
Definition float_dyadic (m e : Z) : spec_float :=
  binary_normalize 24 128 m e false.

(** A decimal literal [num/den] of type [double]: the binary64 number
    nearest to the quotient (both integers are exact in binary64). *)
Definition double_lit (num den : Z) : spec_float :=
  SFdiv 53 1024 (SFofZ 53 1024 num) (SFofZ 53 1024 den).

(** The implicit conversion [float] -> [double]: exact, the value is
    re-encoded with a 53-bit mantissa. *)
Definition double_of_float (x : spec_float) : spec_float :=
  match x with
  | S754_finite s m e => binary_round 53 1024 s m e
  | _ => x
  end.

(** The conversion [double] -> [float] of an assignment to a [float]
    variable: rounds to the nearest binary32 number. *)
Definition float_of_double (x : spec_float) : spec_float :=
  match x with
  | S754_finite s m e => binary_round 24 128 s m e
  | _ => x
  end.

Definition fadd : spec_float -> spec_float -> spec_float := SFadd 24 128.
Definition dadd : spec_float -> spec_float -> spec_float := SFadd 53 1024.
Definition dmul : spec_float -> spec_float -> spec_float := SFmul 53 1024.
Definition ddiv : spec_float -> spec_float -> spec_float := SFdiv 53 1024.

(** Truncation toward zero of a finite number; no integer for NaN and
    the infinities. *)
Definition SFtrunc (x : spec_float) : option Z :=
  match x with
  | S754_zero _ => Some 0
  | S754_finite s m e =>
      Some (cond_Zopp s (if 0 <=? e then Zpos m * 2 ^ e
                         else Zpos m / 2 ^ (- e)))
  | S754_infinity _ | S754_nan => None
  end.

Definition INT32_MIN : Z := - 2 ^ 31.
Definition INT32_MAX : Z := 2 ^ 31 - 1.

(** A 32-bit pattern read as an [int32_t]. *)
Definition int32_of_bits (z : Z) : Z := (z + 2 ^ 31) mod 2 ^ 32 - 2 ^ 31.

(** [(unsigned int) i] for an [int32_t] i. *)
Definition uint32_of_int32 (z : Z) : Z := z mod 2 ^ 32.

(** [(int32_t) x] for a [double] x.  C (6.3.1.4) defines the conversion
    only when the truncated value is representable.  Otherwise the
    compiled code still executes the conversion instruction of the target
    and keeps the 32 bits it delivers; [cvt_invalid] stands for that
    instruction, and nothing is assumed about it. *)
Definition int32_of_double (cvt_invalid : spec_float -> Z) (x : spec_float) : Z :=
  match SFtrunc x with
  | Some z =>
      if (INT32_MIN <=? z) && (z <=? INT32_MAX) then z
      else int32_of_bits (cvt_invalid x)
  | None => int32_of_bits (cvt_invalid x)
  end.

(** Two targets.  x86 (cvttsd2si) delivers the "integer indefinite"
    0x80000000 for every unrepresentable value; ARM (vcvt.s32.f64)
    saturates and turns NaN into 0. *)
Definition cvt_x86 (_ : spec_float) : Z := INT32_MIN.

Definition cvt_arm (x : spec_float) : Z :=
  match x with
  | S754_nan | S754_zero _ => 0
  | S754_infinity s | S754_finite s _ _ => if s then INT32_MIN else INT32_MAX
  end.

(** The rational number a finite floating-point number denotes. *)
Definition SF2Q (x : spec_float) : option Q :=
  match x with
  | S754_zero _ => Some 0%Q
  | S754_finite s m e =>
      Some (if 0 <=? e then inject_Z (cond_Zopp s (Zpos m * 2 ^ e))
            else Qmake (cond_Zopp s (Zpos m)) (Z.to_pos (2 ^ (- e))))
  | S754_infinity _ | S754_nan => None
  end.

(** Truncation toward zero of a rational number. *)
Definition Qtrunc (q : Q) : Z := Z.quot (Qnum q) (Zpos (Qden q)).

(** What [binary_round_aux] builds from the mantissa and the exponent its
    two shifts leave. *)
Definition SFbuild (prec emax : Z) (s : bool) (m e : Z) : spec_float :=
  match m with
  | Z0 => S754_zero s
  | Zpos p => if e <=? emax - prec then S754_finite s p e else S754_infinity s
  | Zneg _ => S754_nan
  end.

End FP.
Import FP.

(* ================================================================== *)
(** ** The coefficient functions of ZmodADC.c                          *)
(* ================================================================== *)

(** [#define]s, lines 50-53. *)
Definition ADC1410_IDEAL_RANGE_ADC_HIGH : spec_float := double_lit 10 10.
Definition ADC1410_IDEAL_RANGE_ADC_LOW : spec_float := double_lit 250 10.
Definition ADC1410_REAL_RANGE_ADC_HIGH : spec_float := double_lit 1086 1000.
Definition ADC1410_REAL_RANGE_ADC_LOW : spec_float := double_lit 2625 100.

(** The literal [0.5] of lines 199 and 231. *)
Definition double_half : spec_float := double_lit 5 10.

(** Line 198: the value assigned to the [float] variable [fval].  [1 + cg]
    is a [float] addition, the ratio and the two products are [double],
    and the assignment narrows the product to [float]. *)
Definition mult_fval (cg : spec_float) (fHighGain : bool) : spec_float :=
  float_of_double
    (dmul
       (dmul
          (if fHighGain
           then ddiv ADC1410_REAL_RANGE_ADC_HIGH ADC1410_IDEAL_RANGE_ADC_HIGH
           else ddiv ADC1410_REAL_RANGE_ADC_LOW ADC1410_IDEAL_RANGE_ADC_LOW)
          (double_of_float (fadd (float_of_int 1) cg)))
       (double_of_float (float_of_int (Z.shiftl 1 16)))).

(** Line 230: [ca] is widened, divided and multiplied in [double], and
    the assignment narrows the product to [float]. *)
Definition add_fval (ca : spec_float) (fHighGain : bool) : spec_float :=
  float_of_double
    (dmul
       (ddiv (double_of_float ca)
             (if fHighGain then ADC1410_IDEAL_RANGE_ADC_HIGH
              else ADC1410_IDEAL_RANGE_ADC_LOW))
       (double_of_float (float_of_int (Z.shiftl 1 17)))).

(** Lines 199 and 231: [ival = (int32_t)(fval + 0.5)]. *)
Definition round_ival (cvt_invalid : spec_float -> Z) (fval : spec_float) : Z :=
  int32_of_double cvt_invalid (dadd (double_of_float fval) double_half).

(** Lines 200 and 232: [ival &= (1<<18) - 1]. *)
Definition keep18 (ival : Z) : Z := Z.land ival (Z.shiftl 1 18 - 1).

Definition ComputeMultCoefADC1410
    (cvt_invalid : spec_float -> Z) (cg : spec_float) (fHighGain : bool) : Z :=
  let fval := mult_fval cg fHighGain in
  let ival := round_ival cvt_invalid fval in
  keep18 ival.

Definition ComputeAddCoefADC1410
    (cvt_invalid : spec_float -> Z) (ca : spec_float) (fHighGain : bool) : Z :=
  let fval := add_fval ca fHighGain in
  let ival := round_ival cvt_invalid fval in
  keep18 ival.

(* ================================================================== *)
(** ** The coefficient engine as the specification words it            *)
(* ================================================================== *)

Module Spec.

Inductive GainRange := Low | High.

Definition isHigh (r : GainRange) : bool :=
  match r with Low => false | High => true end.

(** GainRangeConstants. *)
Definition idealFullScale (r : GainRange) : spec_float :=
  match r with Low => double_lit 250 10 | High => double_lit 10 10 end.

Definition actualFullScale (r : GainRange) : spec_float :=
  match r with Low => double_lit 2625 100 | High => double_lit 1086 1000 end.

Definition Ratio (r : GainRange) : spec_float :=
  ddiv (actualFullScale r) (idealFullScale r).

(** Scaled = Ratio * (1 + gainError) * 2^16, held in a 32-bit float. *)
Definition multScaled (gainError : spec_float) (r : GainRange) : spec_float :=
  float_of_double
    (dmul (dmul (Ratio r) (double_of_float (fadd (SFofZ 24 128 1) gainError)))
          (SFofZ 53 1024 (2 ^ 16))).

(** Scaled = (offsetError / idealFullScale) * 2^17, held in a 32-bit
    float. *)
Definition addScaled (offsetError : spec_float) (r : GainRange) : spec_float :=
  float_of_double
    (dmul (ddiv (double_of_float offsetError) (idealFullScale r))
          (SFofZ 53 1024 (2 ^ 17))).

(** The multiplicative formula over the rationals, no intermediate
    result rounded. *)
Definition multScaledExact (gainError : Q) (r : GainRange) : Q :=
  ((match r with
    | Low => (2625 # 100) / (250 # 10)
    | High => (1086 # 1000) / (10 # 10)
    end) * (1 + gainError) * inject_Z (2 ^ 16))%Q.

(** Add 0.5, then truncate toward zero: the integer trunc(Scaled + 1/2),
    of any size, computed on the exact value of Scaled. *)
Definition roundHalfUp (scaled : spec_float) : option Z :=
  match SF2Q scaled with
  | Some q => Some (Qtrunc (q + (1 # 2)))
  | None => None
  end.

(** result = roundedValue & 0x3FFFF. *)
Definition mask18 (rounded : Z) : Z := Z.land rounded 0x3FFFF.

Definition computeMultiplicativeCoefficient
    (gainError : spec_float) (r : GainRange) : option Z :=
  option_map mask18 (roundHalfUp (multScaled gainError r)).

Definition computeAdditiveCoefficient
    (offsetError : spec_float) (r : GainRange) : option Z :=
  option_map mask18 (roundHalfUp (addScaled offsetError r)).

End Spec.

(* ================================================================== *)
(** ** Standard output, the I2C bus and the verbosity flag             *)
(* ================================================================== *)

(** The calibration record read from the device ([ZmodADC.h]); the code
    uses the fields [date] and [cal[2][2][2]]. *)
Record ZMOD_ADC_CAL := {
  date : Z;
  cal : nat -> nat -> nat -> spec_float
}.

(** One I2C read transaction: slave address, register address, length. *)
Record i2c_read := {
  read_slave : Z;
  read_addr : Z;
  read_len : Z
}.

(** What the module can observe or change: the global [dpmutilfVerbose]
    (line 64), the text written to stdout, one entry per [printf], and
    the read transactions issued on the bus. *)
Record world := {
  dpmutilfVerbose : bool;
  stdout : list string;
  bus_reads : list i2c_read
}.

Definition set_verbose (b : bool) (w : world) : world :=
  {| dpmutilfVerbose := b; stdout := stdout w; bus_reads := bus_reads w |}.

Definition IO (A : Type) : Type := world -> A * world.

Definition ret {A} (a : A) : IO A := fun w => (a, w).

Definition bind {A B} (c : IO A) (k : A -> IO B) : IO B :=
  fun w => let (a, w') := c w in k a w'.

Notation "x <- c ;; k" := (bind c (fun x => k))
  (at level 61, c at next level, right associativity).
Notation "c ;; k" := (bind c (fun _ => k))
  (at level 61, right associativity).

Definition printf (s : string) : IO unit :=
  fun w => (tt, {| dpmutilfVerbose := dpmutilfVerbose w;
                   stdout := (stdout w ++ [s])%list;
                   bus_reads := bus_reads w |}).

Definition log_read (r : i2c_read) : IO unit :=
  fun w => (tt, {| dpmutilfVerbose := dpmutilfVerbose w;
                   stdout := stdout w;
                   bus_reads := (bus_reads w ++ [r])%list |}).

(** *** printf conversions *)

Definition nl : string := String (ascii_of_nat 10) EmptyString.

Definition digit_char (d : Z) : ascii :=
  match d with
  | 0 => "0" | 1 => "1" | 2 => "2" | 3 => "3" | 4 => "4" | 5 => "5"
  | 6 => "6" | 7 => "7" | 8 => "8" | 9 => "9" | 10 => "A" | 11 => "B"
  | 12 => "C" | 13 => "D" | 14 => "E" | _ => "F"
  end%char.

(** The digits of a non-negative number, most significant first; the
    fuel covers every 64-bit value. *)
Fixpoint digits_of (base : Z) (fuel : nat) (n : Z) (acc : list Z) : list Z :=
  match fuel with
  | O => acc
  | S k => if n <? base then n :: acc
           else digits_of base k (n / base) (n mod base :: acc)
  end.

Definition zero_pad (width : nat) (ds : list Z) : list Z :=
  (repeat 0 (width - List.length ds) ++ ds)%list.

(** [%0<width>X] of an [unsigned int]. *)
Definition fmt_X (width : nat) (n : Z) : string :=
  string_of_list_ascii (map digit_char (zero_pad width (digits_of 16 64 n []))).

(** [%d]. *)
Definition fmt_d (n : Z) : string :=
  if n <? 0
  then String "-"%char (string_of_list_ascii (map digit_char (digits_of 10 64 (- n) [])))
  else string_of_list_ascii (map digit_char (digits_of 10 64 n [])).

(** ["0x%05X"] applied to [(unsigned int) coef], lines 131-138. *)
Definition render_coef (coef : Z) : string :=
  "0x" ++ fmt_X 5 (uint32_of_int32 coef).

(* ================================================================== *)
(** ** FDisplayZmodADCCal                                              *)
(* ================================================================== *)

Section Display.

(** The target's conversion instruction (see [int32_of_double]). *)
Variable cvt_invalid : spec_float -> Z.

(** [SyzygyI2cRead] ([syzygy.c]): for a file descriptor, a slave address,
    a register address and a length, the success flag, the buffer it
    filled and the count it stored in [*pcbRead]. *)
Variable SyzygyI2cRead : Z -> Z -> Z -> Z -> bool * ZMOD_ADC_CAL * Z.

(** [ZmodADC.h]: the two region offsets and [sizeof(ZMOD_ADC_CAL)]. *)
Variable addrAdcFactCalStart : Z.
Variable addrAdcUserCalStart : Z.
Variable sizeof_ZMOD_ADC_CAL : Z.

(** [localtime_r] followed by [strftime] with ["%B %d, %Y at %T"]:
    [None] when [strftime] returns 0. *)
Variable strftime_local : Z -> option string.

(** The [%f] conversion of libc, applied to the promoted [double]. *)
Variable fmt_f : spec_float -> string.

Definition call_SyzygyI2cRead (fd slave addr cb : Z)
    : IO (bool * ZMOD_ADC_CAL * Z) :=
  log_read {| read_slave := slave; read_addr := addr; read_len := cb |} ;;
  ret (SyzygyI2cRead fd slave addr cb).

(** Lines 111-112 and 141-142. *)
Definition error_lines (region : string) (addrI2cSlave cbRead : Z) : list string :=
  [ "Error: failed to read ZmodADC " ++ region ++ " calibration from 0x"
      ++ fmt_X 2 addrI2cSlave ++ nl;
    "Error: received " ++ fmt_d cbRead ++ " of "
      ++ fmt_d sizeof_ZMOD_ADC_CAL ++ " bytes" ++ nl ].

(** Lines 116-120 and 146-150. *)
Definition date_lines (label : string) (adcal : ZMOD_ADC_CAL) : list string :=
  match strftime_local (date adcal) with
  | Some szDate => [ nl ++ label ++ szDate ++ nl ]
  | None => []
  end.

(** Lines 122-129 and 152-159. *)
Definition raw_lines (adcal : ZMOD_ADC_CAL) : list string :=
  let f i j k := fmt_f (double_of_float (cal adcal i j k)) ++ nl in
  [ "    CHAN_1_LG_GAIN:        " ++ f 0 0 0;
    "    CHAN_1_LG_OFFSET:      " ++ f 0 0 1;
    "    CHAN_1_HG_GAIN:        " ++ f 0 1 0;
    "    CHAN_1_HG_OFFSET:      " ++ f 0 1 1;
    "    CHAN_2_LG_GAIN:        " ++ f 1 0 0;
    "    CHAN_2_LG_OFFSET:      " ++ f 1 0 1;
    "    CHAN_2_HG_GAIN:        " ++ f 1 1 0;
    "    CHAN_2_HG_OFFSET:      " ++ f 1 1 1 ]%nat.

(** Lines 131-138 and 161-168. *)
Definition coef_lines (adcal : ZMOD_ADC_CAL) : list string :=
  let mult i j fHighGain :=
    render_coef
      (ComputeMultCoefADC1410 cvt_invalid (cal adcal i j 0%nat) fHighGain) ++ nl in
  let add i j fHighGain :=
    render_coef
      (ComputeAddCoefADC1410 cvt_invalid (cal adcal i j 1%nat) fHighGain) ++ nl in
  [ "    Ch1LgCoefMultStatic:   " ++ mult 0 0 false;
    "    Ch1LgCoefAddStatic:    " ++ add 0 0 false;
    "    Ch1HgCoefMultStatic:   " ++ mult 0 1 true;
    "    Ch1HgCoefAddStatic:    " ++ add 0 1 true;
    "    Ch2LgCoefMultStatic:   " ++ mult 1 0 false;
    "    Ch2LgCoefAddStatic:    " ++ add 1 0 false;
    "    Ch2HgCoefMultStatic:   " ++ mult 1 1 true;
    "    Ch2HgCoefAddStatic:    " ++ add 1 1 true ]%nat.

(** One [printf] per line. *)
Fixpoint print_lines (ls : list string) : IO unit :=
  match ls with
  | [] => ret tt
  | l :: ls' => printf l ;; print_lines ls'
  end.

(** Everything printed for a region that was read: lines 116-138 and
    146-168. *)
Definition region_lines (label : string) (adcal : ZMOD_ADC_CAL) : list string :=
  (date_lines label adcal ++ raw_lines adcal ++ coef_lines adcal)%list.

Definition FDisplayZmodADCCal (fdI2cDev addrI2cSlave : Z) : IO bool :=
  r <- call_SyzygyI2cRead fdI2cDev addrI2cSlave addrAdcFactCalStart
         sizeof_ZMOD_ADC_CAL ;;
  let '(fOk, adcal, cbRead) := r in
  if negb fOk then
    print_lines (error_lines "factory" addrI2cSlave cbRead) ;;
    ret false
  else
    print_lines (region_lines "    Factory Calibration:   " adcal) ;;
    r <- call_SyzygyI2cRead fdI2cDev addrI2cSlave addrAdcUserCalStart
           sizeof_ZMOD_ADC_CAL ;;
    let '(fOk, adcal, cbRead) := r in
    if negb fOk then
      print_lines (error_lines "user" addrI2cSlave cbRead) ;;
      ret false
    else
      print_lines (region_lines "    User Calibration:      " adcal) ;;
      ret true.

End Display.

(* ================================================================== *)
(** ** The bus transport                                               *)
(* ================================================================== *)

Module Transport.

(** What the device and the bus deliver for one read transaction. *)
Record reply := {
  failed : bool;
  transferred : Z;
  data : ZMOD_ADC_CAL
}.

Definition device : Type := Z -> Z -> Z -> reply.

(** Modelled from the spec: [SyzygyI2cRead] of [syzygy.c], which is not
    among the sources.  The transfer primitive reports the number of
    bytes transferred; the read fails when the transport reports failure
    or transfers fewer bytes than were asked for, and the count is
    stored for the caller either way. *)
Definition SyzygyI2cRead (dev : device) (fd slave addr cb : Z)
    : bool * ZMOD_ADC_CAL * Z :=
  let r := dev slave addr cb in
  (negb (failed r) && (cb <=? transferred r), data r, transferred r).

End Transport.

(* ================================================================== *)
(** ** Sample inputs                                                   *)
(* ================================================================== *)

Module Sample.

Definition record (d : Z) (x : spec_float) : ZMOD_ADC_CAL :=
  {| date := d; cal := fun _ _ _ => x |}.

Definition factAddr : Z := 0x8100.
Definition userAddr : Z := 0x7000.
Definition size : Z := 128.

(** A [SyzygyI2cRead] that fails on the factory region after 3 bytes and
    reads the user region in full. *)
Definition read_factory_fails (fd slave addr cb : Z) : bool * ZMOD_ADC_CAL * Z :=
  if addr =? factAddr then (false, record 0 S754_nan, 3)
  else (true, record 1579046400 (S754_zero false), cb).

(** A [SyzygyI2cRead] that reads both regions in full. *)
Definition read_ok (fd slave addr cb : Z) : bool * ZMOD_ADC_CAL * Z :=
  (true, record 1579046400 (S754_zero false), cb).

(** A bus on which the factory region reads in full and the user region
    stops after 64 bytes, the transport reporting no failure of its own. *)
Definition dev_user_short : Transport.device :=
  fun _ addr cb =>
    {| Transport.failed := false;
       Transport.transferred := if addr =? userAddr then 64 else cb;
       Transport.data := record 1579046400 (S754_zero false) |}.

Definition strftime (t : Z) : option string := Some (fmt_d t).

Definition fmt_f (x : spec_float) : string :=
  match x with S754_zero _ => "0.000000" | _ => "?" end.

Definition w0 : world :=
  {| dpmutilfVerbose := false; stdout := []; bus_reads := [] |}.

(** A [SyzygyI2cRead] that reads the factory region in full and fails on
    the user region without transferring anything. *)
Definition read_user_fails (fd slave addr cb : Z) : bool * ZMOD_ADC_CAL * Z :=
  if addr =? userAddr then (false, record 0 S754_nan, 0)
  else (true, record 1579046400 (S754_zero false), cb).

(** A [SyzygyI2cRead] that reads both regions in full, every calibration
    value being [x]. *)
Definition read_const (x : spec_float) (fd slave addr cb : Z)
    : bool * ZMOD_ADC_CAL * Z :=
  (true, record 1579046400 x, cb).

End Sample.

(* ================================================================== *)
(** ** Magnitudes                                                      *)
(* ================================================================== *)

(** [abs_le_pow2 x k]: [x] is zero or finite, and |x| <= 2^k.  (For an
    exponent above [k] the power is 0 and the bound is false.) *)
Definition abs_le_pow2 (x : spec_float) (k : Z) : Prop :=
  match x with
  | S754_zero _ => True
  | S754_finite _ m e => Zpos m <= 2 ^ (k - e)
  | S754_infinity _ | S754_nan => False
  end.

(* ================================================================== *)
(** ** The scaled values before narrowing, and one call on the stack   *)
(* ================================================================== *)

(** Line 198 before the assignment narrows it: the scaled value
    Ratio * (1 + cg) * 2^16 as the expression computes it, of type
    [double]. *)
Definition mult_product (cg : spec_float) (fHighGain : bool) : spec_float :=
  dmul
    (dmul
       (if fHighGain
        then ddiv ADC1410_REAL_RANGE_ADC_HIGH ADC1410_IDEAL_RANGE_ADC_HIGH
        else ddiv ADC1410_REAL_RANGE_ADC_LOW ADC1410_IDEAL_RANGE_ADC_LOW)
       (double_of_float (fadd (float_of_int 1) cg)))
    (double_of_float (float_of_int (Z.shiftl 1 16))).

(** Line 230 before the assignment narrows it: the scaled value
    ca / IdealRange * 2^17, of type [double]. *)
Definition add_product (ca : spec_float) (fHighGain : bool) : spec_float :=
  dmul
    (ddiv (double_of_float ca)
          (if fHighGain then ADC1410_IDEAL_RANGE_ADC_HIGH
           else ADC1410_IDEAL_RANGE_ADC_LOW))
    (double_of_float (float_of_int (Z.shiftl 1 17))).

(** Rounding to the nearest integer, ties away from zero: the rule the
    rounding of the additive path is compared with. *)
Definition roundHalfAwayFromZero (q : Q) : Z :=
  if Qle_bool 0 q then Qfloor (q + (1 # 2)) else Qceiling (q - (1 # 2)).

(** *** One call, statement by statement

    A call of a coefficient function runs in the world and on its own
    stack frame.  The automatic variables [fval] and [ival] (lines
    194-195 and 226-227) have no initialiser: at entry they hold
    whatever the stack holds.  Each statement is a step on the pair of
    the world and the frame. *)
Module Call.

Record frame := { fval : spec_float; ival : Z }.

Definition state : Type := (world * frame)%type.

(** An assignment to [fval], and one to [ival]. *)
Definition set_fval (v : spec_float) (s : state) : state :=
  (fst s, {| fval := v; ival := ival (snd s) |}).

Definition set_ival (v : Z) (s : state) : state :=
  (fst s, {| fval := fval (snd s); ival := v |}).

(** Lines 198-202. *)
Definition ComputeMultCoefADC1410_body
    (cvt_invalid : spec_float -> Z) (cg : spec_float) (fHighGain : bool)
    (s0 : state) : Z * state :=
  let s1 := set_fval (mult_fval cg fHighGain) s0 in
  let s2 := set_ival (round_ival cvt_invalid (fval (snd s1))) s1 in
  let s3 := set_ival (keep18 (ival (snd s2))) s2 in
  (ival (snd s3), s3).

(** Lines 230-234. *)
Definition ComputeAddCoefADC1410_body
    (cvt_invalid : spec_float -> Z) (ca : spec_float) (fHighGain : bool)
    (s0 : state) : Z * state :=
  let s1 := set_fval (add_fval ca fHighGain) s0 in
  let s2 := set_ival (round_ival cvt_invalid (fval (snd s1))) s1 in
  let s3 := set_ival (keep18 (ival (snd s2))) s2 in
  (ival (snd s3), s3).

(** A call from the world [w] on a stack that holds [junk]: the caller
    receives the returned value and the world the body leaves; the frame
    is popped. *)
Definition call {A} (body : state -> A * state) (junk : frame) : IO A :=
  fun w => let r := body (w, junk) in (fst r, fst (snd r)).

End Call.

(* ================================================================== *)
(** ** Rounding to a floating-point format                             *)
(* ================================================================== *)

(** Facts about [SpecFloat]'s rounding ([binary_round]), as far as the
    conversions and the addition of lines 198-199 and 230-231 need them:
    the shifts, exact results, and bounds on rounded ones. *)

Module Rnd.

Lemma pow2_gt0 k : 0 <= k -> 0 < 2 ^ k.
Proof. intros; apply Z.pow_pos_nonneg; lia. Qed.

Lemma pow2_split a b : 0 <= a -> 0 <= b -> 2 ^ (a + b) = 2 ^ a * 2 ^ b.
Proof. intros; apply Z.pow_add_r; lia. Qed.

Lemma pow2_le a b : 0 <= a <= b -> 2 ^ a <= 2 ^ b.
Proof. intros; apply Z.pow_le_mono_r; lia. Qed.

Lemma pow2_lt a b : 0 <= a < b -> 2 ^ a < 2 ^ b.
Proof. intros; apply Z.pow_lt_mono_r; lia. Qed.

Lemma digits2_pos_size p : digits2_pos p = Pos.size p.
Proof. induction p; simpl; congruence. Qed.

Lemma Zdigits2_log2 p : Zdigits2 (Zpos p) = Z.log2 (Zpos p) + 1.
Proof.
  unfold Zdigits2; rewrite digits2_pos_size.
  destruct p; simpl; lia.
Qed.

Lemma Zdigits2_pos p : 0 < Zdigits2 (Zpos p).
Proof. unfold Zdigits2; lia. Qed.

Lemma Zdigits2_nonneg m : 0 <= m -> 0 <= Zdigits2 m.
Proof. destruct m; simpl; lia. Qed.

Lemma Zdigits2_lt m : 0 <= m -> m < 2 ^ Zdigits2 m.
Proof.
  destruct m as [|p|p]; intros H; try lia.
  - simpl; lia.
  - rewrite Zdigits2_log2.
    destruct (Z.log2_spec (Zpos p)) as [_ Hu]; [lia|].
    now rewrite <- Z.add_1_r in Hu.
Qed.

Lemma Zdigits2_ge p : 2 ^ (Zdigits2 (Zpos p) - 1) <= Zpos p.
Proof.
  rewrite Zdigits2_log2.
  replace (Z.log2 (Zpos p) + 1 - 1) with (Z.log2 (Zpos p)) by lia.
  apply Z.log2_spec; lia.
Qed.

Lemma Zdigits2_le_of_lt m k : 0 <= m -> 0 <= k -> m < 2 ^ k -> Zdigits2 m <= k.
Proof.
  destruct m as [|p|p]; intros Hm Hk H; try lia.
  - simpl; lia.
  - pose proof (Zdigits2_ge p) as Hg.
    pose proof (Zdigits2_pos p) as Hp.
    destruct (Z_le_gt_dec (Zdigits2 (Zpos p)) k) as [|Hgt]; [assumption|].
    assert (2 ^ k <= 2 ^ (Zdigits2 (Zpos p) - 1)) by (apply pow2_le; lia).
    lia.
Qed.

Lemma Zdigits2_mul_pow2 p k :
  0 <= k -> Zdigits2 (Zpos p * 2 ^ k) = Zdigits2 (Zpos p) + k.
Proof.
  intros Hk.
  assert (H : 0 < Zpos p * 2 ^ k) by (pose proof (pow2_gt0 k Hk); nia).
  destruct (Zpos p * 2 ^ k) as [|q|q] eqn:E; try lia.
  rewrite !Zdigits2_log2, <- E, Z.log2_mul_pow2 by lia. lia.
Qed.

Lemma div_pow2_lt m a n : 0 <= m < 2 ^ a -> 0 <= n <= a -> m / 2 ^ n < 2 ^ (a - n).
Proof.
  intros Hm Hn.
  apply Z.div_lt_upper_bound; [apply pow2_gt0; lia|].
  rewrite <- pow2_split by lia.
  replace (n + (a - n)) with a by lia. lia.
Qed.

Lemma div_pow2_le m a n : 0 <= m <= 2 ^ a -> 0 <= n <= a -> m / 2 ^ n <= 2 ^ (a - n).
Proof.
  intros Hm Hn.
  pose proof (pow2_gt0 n ltac:(lia)) as Hp.
  replace (2 ^ (a - n)) with (2 ^ a / 2 ^ n).
  - apply Z.div_le_mono; lia.
  - replace a with ((a - n) + n) at 1 by lia.
    rewrite pow2_split by lia. apply Z.div_mul; lia.
Qed.

Lemma div_pow2_small m a n : 0 <= m < 2 ^ a -> 0 <= a <= n -> m / 2 ^ n = 0.
Proof.
  intros Hm Hn. apply Z.div_small.
  pose proof (pow2_le a n ltac:(lia)). lia.
Qed.

(** *** Right shifts *)

Lemma iter_pos_eq {A} (f : A -> A) p : forall x, iter_pos f p x = Pos.iter f x p.
Proof.
  induction p as [p IH|p IH|]; intros x; simpl.
  - rewrite !IH, !Pos.iter_swap. reflexivity.
  - rewrite !IH. reflexivity.
  - reflexivity.
Qed.

Lemma shr_1_nonneg m r s :
  0 <= m ->
  shr_1 (Build_shr_record m r s) = Build_shr_record (m / 2) (Z.odd m) (r || s).
Proof.
  intros Hm. rewrite <- Z.div2_div.
  destruct m as [|[p|p|]|p]; try lia; reflexivity.
Qed.

Lemma iter_shr_1 m r0 s0 (Hm : 0 <= m) n :
  let st := Pos.iter shr_1 (Build_shr_record m r0 s0) n in
  shr_m st = m / 2 ^ Zpos n /\
  (m mod 2 ^ Zpos n = 0 -> r0 = false -> s0 = false ->
   shr_r st = false /\ shr_s st = false).
Proof.
  induction n as [|n IH] using Pos.peano_ind; cbv zeta in *.
  - unfold Pos.iter. rewrite shr_1_nonneg by assumption.
    cbn [shr_m shr_r shr_s]. change (2 ^ 1) with 2.
    split; [reflexivity|]. intros Hmod -> ->.
    split; [|reflexivity].
    rewrite <- Z.bit0_odd.
    pose proof (Z.bit0_mod m) as Hb.
    rewrite Hmod in Hb.
    destruct (Z.testbit m 0); [discriminate|reflexivity].
  - rewrite Pos.iter_succ.
    destruct IH as [IHm IHrs].
    destruct (Pos.iter shr_1 (Build_shr_record m r0 s0) n) as [m1 r1 s1].
    simpl in IHm, IHrs. subst m1.
    assert (Hq : 0 <= m / 2 ^ Zpos n) by (apply Z.div_pos; [lia|apply pow2_gt0; lia]).
    rewrite shr_1_nonneg by assumption. cbn [shr_m shr_r shr_s].
    rewrite Pos2Z.inj_succ, <- Z.add_1_r, pow2_split by lia.
    change (2 ^ 1) with 2.
    split; [rewrite Z.div_div by (try apply pow2_gt0; lia); reflexivity|].
    intros Hmod Hr Hs.
    pose proof (pow2_gt0 (Zpos n) ltac:(lia)) as Hp.
    assert (Hm2 : m = 2 ^ Zpos n * 2 * (m / (2 ^ Zpos n * 2))).
    { apply Z.div_exact; [lia|assumption]. }
    assert (Hmodn : m mod 2 ^ Zpos n = 0).
    { rewrite Hm2. rewrite <- Z.mul_assoc, Z.mul_comm. apply Z.mod_mul; lia. }
    destruct (IHrs Hmodn Hr Hs) as [-> ->]. split; [|reflexivity].
    rewrite Hm2 at 1.
    rewrite <- Z.mul_assoc, Z.mul_comm, Z.div_mul by lia.
    rewrite Z.odd_mul. reflexivity.
Qed.


(** *** Rounding to a format *)

Section Format.

Variables prec emax : Z.
Hypothesis prec_gt_0 : 0 < prec.

Local Abbreviation fexp := (SpecFloat.fexp prec emax).
Local Abbreviation emin := (SpecFloat.emin prec emax).

Lemma fexp_mono a b : a <= b -> fexp a <= fexp b.
Proof. unfold SpecFloat.fexp; lia. Qed.

Lemma fexp_ge_emin e : emin <= fexp e.
Proof. unfold SpecFloat.fexp; lia. Qed.

Lemma fexp_ge e : e - prec <= fexp e.
Proof. unfold SpecFloat.fexp; lia. Qed.

Lemma fexp_le e : emin <= e -> fexp e <= e.
Proof. unfold SpecFloat.fexp; lia. Qed.

Lemma binary_round_aux_eq s mx ex lx :
  binary_round_aux prec emax s mx ex lx =
  SFbuild prec emax s
    (shr_m (fst (shr_fexp prec emax
       (round_nearest_even (shr_m (fst (shr_fexp prec emax mx ex lx)))
          (loc_of_shr_record (fst (shr_fexp prec emax mx ex lx))))
       (snd (shr_fexp prec emax mx ex lx)) loc_Exact)))
    (snd (shr_fexp prec emax
       (round_nearest_even (shr_m (fst (shr_fexp prec emax mx ex lx)))
          (loc_of_shr_record (fst (shr_fexp prec emax mx ex lx))))
       (snd (shr_fexp prec emax mx ex lx)) loc_Exact)).
Proof.
  unfold binary_round_aux.
  destruct (shr_fexp prec emax mx ex lx) as [mrs' e']; cbn [fst snd].
  destruct (shr_fexp prec emax _ e' loc_Exact) as [mrs'' e'']; cbn [fst snd].
  reflexivity.
Qed.

Lemma shr_fexp_noshift m e :
  fexp (Zdigits2 m + e) <= e ->
  shr_fexp prec emax m e loc_Exact = (Build_shr_record m false false, e).
Proof.
  intros H. unfold shr_fexp, shr.
  destruct (fexp (Zdigits2 m + e) - e) eqn:E; try reflexivity; lia.
Qed.

Lemma shr_fexp_shift m e :
  0 <= m -> e < fexp (Zdigits2 m + e) ->
  snd (shr_fexp prec emax m e loc_Exact) = fexp (Zdigits2 m + e) /\
  shr_m (fst (shr_fexp prec emax m e loc_Exact)) =
    m / 2 ^ (fexp (Zdigits2 m + e) - e) /\
  (m mod 2 ^ (fexp (Zdigits2 m + e) - e) = 0 ->
   loc_of_shr_record (fst (shr_fexp prec emax m e loc_Exact)) = loc_Exact).
Proof.
  intros Hm H. unfold shr_fexp, shr.
  destruct (fexp (Zdigits2 m + e) - e) as [|n|n] eqn:E; try lia.
  cbn [fst snd shr_record_of_loc]. rewrite iter_pos_eq.
  destruct (iter_shr_1 m false false Hm n) as [Hq Hex].
  split; [lia|]. split; [exact Hq|].
  intros Hmod. destruct (Hex Hmod eq_refl eq_refl) as [Hr Hs].
  destruct (Pos.iter shr_1 _ n) as [m1 r1 s1]. simpl in Hr, Hs. subst.
  reflexivity.
Qed.

Lemma rne_bounds m l : m <= round_nearest_even m l <= m + 1.
Proof. destruct l as [|[| |]]; simpl; try destruct (Z.even m); lia. Qed.

(** The result of rounding a positive mantissa: a mantissa below
    [2^prec] at an exponent of the format, of magnitude at most the
    power of two above the rounded number. *)
Lemma binary_round_aux_spec s m e :
  exists m3 e3,
    binary_round_aux prec emax s (Zpos m) e loc_Exact = SFbuild prec emax s m3 e3 /\
    0 <= m3 < 2 ^ prec /\ emin <= e3 /\
    (emin <= Zdigits2 (Zpos m) + e ->
     e3 <= Zdigits2 (Zpos m) + e /\ m3 <= 2 ^ (Zdigits2 (Zpos m) + e - e3)) /\
    (e < fexp (Zdigits2 (Zpos m) + e) ->
     fexp (Zdigits2 (Zpos m) + e) <= e3 /\
     m3 * 2 ^ (e3 - fexp (Zdigits2 (Zpos m) + e)) <=
       Zpos m / 2 ^ (fexp (Zdigits2 (Zpos m) + e) - e) + 1).
Proof.
  rewrite binary_round_aux_eq.
  set (dM := Zdigits2 (Zpos m)).
  assert (HdM : 0 < dM) by apply Zdigits2_pos.
  assert (HM : Zpos m < 2 ^ dM) by (apply Zdigits2_lt; lia).
  set (e1 := fexp (dM + e)).
  assert (He1min : emin <= e1) by apply fexp_ge_emin.
  assert (He1ge : dM + e - prec <= e1) by apply fexp_ge.
  destruct (Z_le_gt_dec e1 e) as [Hle|Hgt].
  - (* the mantissa fits: nothing is shifted out *)
    rewrite (shr_fexp_noshift (Zpos m) e Hle);
      cbn [fst snd shr_m loc_of_shr_record round_nearest_even].
    rewrite (shr_fexp_noshift (Zpos m) e Hle); cbn [fst snd shr_m].
    exists (Zpos m), e.
    assert (2 ^ dM <= 2 ^ prec) by (apply pow2_le; lia).
    split; [reflexivity|]. split; [lia|]. split; [lia|]. split; [|lia].
    intros _. split; [lia|].
    replace (dM + e - e) with dM by lia. lia.
  - (* the low bits are shifted out, the mantissa is rounded *)
    destruct (shr_fexp_shift (Zpos m) e ltac:(lia) ltac:(fold dM e1; lia)) as (He1 & Hm1 & _).
    fold dM e1 in He1, Hm1.
    destruct (shr_fexp prec emax (Zpos m) e loc_Exact) as [st1 e1'];
      cbn [fst snd] in *.
    subst e1'.
    set (m2 := round_nearest_even (shr_m st1) (loc_of_shr_record st1)).
    assert (Hm2 : shr_m st1 <= m2 <= shr_m st1 + 1) by apply rne_bounds.
    rewrite Hm1 in Hm2.
    assert (Hp1 : 0 < 2 ^ (e1 - e)) by (apply pow2_gt0; lia).
    assert (Hq0 : 0 <= Zpos m / 2 ^ (e1 - e)) by (apply Z.div_pos; lia).
    assert (Hm2' : 0 <= m2) by lia.
    (* a bound on the rounded mantissa *)
    assert (Hbound : e1 <= dM + e -> m2 <= 2 ^ (dM + e - e1)).
    { intros Hd.
      assert (Zpos m / 2 ^ (e1 - e) < 2 ^ (dM - (e1 - e)))
        by (apply div_pow2_lt; lia).
      replace (dM - (e1 - e)) with (dM + e - e1) in * by lia. lia. }
    assert (Hsmall : dM + e < e1 -> m2 <= 1).
    { intros Hd.
      rewrite (div_pow2_small (Zpos m) dM (e1 - e)) in Hm2 by lia. lia. }
    assert (Hd2 : Zdigits2 m2 + e1 <= Z.max (dM + e + 1) (e1 + 1)).
    { destruct (Z_le_gt_dec e1 (dM + e)) as [Hc|Hc].
      - assert (m2 < 2 ^ (dM + e - e1 + 1)).
        { rewrite pow2_split by lia. change (2 ^ 1) with 2.
          pose proof (pow2_gt0 (dM + e - e1) ltac:(lia)).
          specialize (Hbound Hc). lia. }
        pose proof (Zdigits2_le_of_lt m2 (dM + e - e1 + 1) Hm2'
                      ltac:(lia) ltac:(lia)). lia.
      - assert (m2 < 2 ^ 1)
          by (change (2 ^ 1) with 2; specialize (Hsmall ltac:(lia)); lia).
        pose proof (Zdigits2_le_of_lt m2 1 Hm2' ltac:(lia) ltac:(lia)). lia. }
    pose proof (Zdigits2_lt m2 Hm2') as Hlt2.
    pose proof (Zdigits2_nonneg m2 Hm2') as Hnn2.
    set (e3 := fexp (Zdigits2 m2 + e1)).
    assert (Hge3 : Zdigits2 m2 + e1 - prec <= e3) by apply fexp_ge.
    assert (He3min : emin <= e3) by apply fexp_ge_emin.
    destruct (Z_le_gt_dec e3 e1) as [Hle2|Hgt2].
    + rewrite (shr_fexp_noshift m2 e1 Hle2); cbn [fst snd shr_m].
      exists m2, e1.
      assert (2 ^ Zdigits2 m2 <= 2 ^ prec) by (apply pow2_le; lia).
      split; [reflexivity|]. split; [lia|]. split; [lia|]. split.
      * intros Hmin.
        pose proof (fexp_le (dM + e) Hmin) as Hle1. fold e1 in Hle1.
        split; [lia|]. apply Hbound. lia.
      * intros _. split; [lia|].
        replace (e1 - e1) with 0 by lia. rewrite Z.pow_0_r. lia.
    + destruct (shr_fexp_shift m2 e1 Hm2' ltac:(fold e3; lia)) as (He3 & Hm3 & _).
      fold e3 in He3, Hm3.
      exists (shr_m (fst (shr_fexp prec emax m2 e1 loc_Exact))), e3.
      rewrite He3. split; [reflexivity|]. rewrite Hm3.
      assert (Hp3 : 0 < 2 ^ (e3 - e1)) by (apply pow2_gt0; lia).
      split; [split; [apply Z.div_pos; lia|]|].
      { destruct (Z_le_gt_dec (e3 - e1) (Zdigits2 m2)).
        - assert (m2 / 2 ^ (e3 - e1) < 2 ^ (Zdigits2 m2 - (e3 - e1)))
            by (apply div_pow2_lt; lia).
          assert (2 ^ (Zdigits2 m2 - (e3 - e1)) <= 2 ^ prec)
            by (apply pow2_le; lia).
          lia.
        - rewrite (div_pow2_small m2 (Zdigits2 m2) (e3 - e1)) by lia.
          apply pow2_gt0; lia. }
      split; [assumption|]. split.
      * intros Hmin.
        pose proof (fexp_le (dM + e) Hmin) as Hle1. fold e1 in Hle1.
        assert (He3le : e3 <= dM + e).
        { assert (e3 <= fexp (dM + e + 1)) by (apply fexp_mono; lia).
          pose proof (fexp_le (dM + e + 1) ltac:(lia)).
          unfold SpecFloat.fexp in *. lia. }
        split; [assumption|].
        specialize (Hbound Hle1).
        replace (dM + e - e3) with ((dM + e - e1) - (e3 - e1)) by lia.
        apply div_pow2_le; lia.
      * intros _. split; [lia|].
        pose proof (Z.mul_div_le m2 (2 ^ (e3 - e1)) Hp3). lia.
Qed.

(** A mantissa that already fits is kept as it is. *)
Lemma binary_round_aux_fits s m e :
  fexp (Zdigits2 (Zpos m) + e) <= e ->
  binary_round_aux prec emax s (Zpos m) e loc_Exact = SFbuild prec emax s (Zpos m) e.
Proof.
  intros Hle. rewrite binary_round_aux_eq.
  rewrite (shr_fexp_noshift (Zpos m) e Hle);
    cbn [fst snd shr_m loc_of_shr_record round_nearest_even].
  rewrite (shr_fexp_noshift (Zpos m) e Hle). reflexivity.
Qed.

(** A mantissa whose shifted-out bits are all zero is divided
    exactly. *)
Lemma binary_round_aux_exact s m e a :
  e < fexp (Zdigits2 (Zpos m) + e) -> 0 < a ->
  Zpos m = a * 2 ^ (fexp (Zdigits2 (Zpos m) + e) - e) ->
  binary_round_aux prec emax s (Zpos m) e loc_Exact =
  SFbuild prec emax s a (fexp (Zdigits2 (Zpos m) + e)).
Proof.
  intros Hlt Ha Hm. rewrite binary_round_aux_eq.
  set (fe := fexp (Zdigits2 (Zpos m) + e)) in *.
  assert (Hp : 0 < 2 ^ (fe - e)) by (apply pow2_gt0; lia).
  destruct (shr_fexp_shift (Zpos m) e ltac:(lia) Hlt) as (He1 & Hm1 & Hloc).
  fold fe in He1, Hm1, Hloc.
  assert (Hdiv : Zpos m / 2 ^ (fe - e) = a) by (rewrite Hm; apply Z.div_mul; lia).
  assert (Hmod : Zpos m mod 2 ^ (fe - e) = 0) by (rewrite Hm; apply Z.mod_mul; lia).
  rewrite He1, Hm1, (Hloc Hmod), Hdiv. cbn [round_nearest_even].
  assert (Hd : Zdigits2 a + fe = Zdigits2 (Zpos m) + e).
  { destruct a as [|pa|pa]; try lia.
    rewrite Hm, Zdigits2_mul_pow2 by lia. lia. }
  rewrite shr_fexp_noshift by (rewrite Hd; fold fe; lia).
  reflexivity.
Qed.

(** *** Alignment and [binary_round] *)

Lemma iter_xO m d : Zpos (Pos.iter xO m d) = Zpos m * 2 ^ Zpos d.
Proof.
  induction d as [|d IH] using Pos.peano_ind.
  - change (Pos.iter xO m 1) with (xO m). change (2 ^ 1) with 2. lia.
  - rewrite Pos.iter_succ, Pos2Z.inj_xO, IH, Pos2Z.inj_succ.
    rewrite <- Z.add_1_r, pow2_split by lia. change (2 ^ 1) with 2. lia.
Qed.

Lemma shl_align_le m e e' :
  e' <= e ->
  snd (shl_align m e e') = e' /\
  Zpos (fst (shl_align m e e')) = Zpos m * 2 ^ (e - e').
Proof.
  intros H. unfold shl_align.
  destruct (e' - e) as [|d|d] eqn:E; try lia; cbn [fst snd].
  - replace (e - e') with 0 by lia. rewrite Z.pow_0_r. lia.
  - rewrite iter_xO. replace (e - e') with (Zpos d) by lia. lia.
Qed.

Lemma shl_align_gt m e e' : e < e' -> shl_align m e e' = (m, e).
Proof.
  intros H. unfold shl_align. destruct (e' - e) eqn:E; try lia; reflexivity.
Qed.

(** Exact result, mantissa extended to the format. *)
Lemma binary_round_exact_up s m e :
  fexp (Zdigits2 (Zpos m) + e) <= e ->
  binary_round prec emax s m e =
  SFbuild prec emax s (Zpos m * 2 ^ (e - fexp (Zdigits2 (Zpos m) + e)))
            (fexp (Zdigits2 (Zpos m) + e)).
Proof.
  intros Hle. unfold binary_round.
  change (Zpos (digits2_pos m)) with (Zdigits2 (Zpos m)).
  set (fe := fexp (Zdigits2 (Zpos m) + e)) in *.
  destruct (shl_align_le m e fe Hle) as [He Hm].
  destruct (shl_align m e fe) as [mz ez]; cbn [fst snd] in *. subst ez.
  assert (Hd : Zdigits2 (Zpos mz) + fe = Zdigits2 (Zpos m) + e).
  { rewrite Hm, Zdigits2_mul_pow2 by lia. lia. }
  rewrite binary_round_aux_fits by (rewrite Hd; fold fe; lia).
  rewrite Hm. reflexivity.
Qed.

(** Exact result, trailing zeros of the mantissa dropped. *)
Lemma binary_round_exact_down s m e a :
  e < fexp (Zdigits2 (Zpos m) + e) -> 0 < a ->
  Zpos m = a * 2 ^ (fexp (Zdigits2 (Zpos m) + e) - e) ->
  binary_round prec emax s m e = SFbuild prec emax s a (fexp (Zdigits2 (Zpos m) + e)).
Proof.
  intros Hlt Ha Hm. unfold binary_round.
  change (Zpos (digits2_pos m)) with (Zdigits2 (Zpos m)).
  rewrite shl_align_gt by assumption.
  now apply binary_round_aux_exact.
Qed.

Lemma binary_round_spec s m e :
  exists m3 e3,
    binary_round prec emax s m e = SFbuild prec emax s m3 e3 /\
    0 <= m3 < 2 ^ prec /\ emin <= e3 /\
    (emin <= Zdigits2 (Zpos m) + e ->
     e3 <= Zdigits2 (Zpos m) + e /\ m3 <= 2 ^ (Zdigits2 (Zpos m) + e - e3)) /\
    (e < fexp (Zdigits2 (Zpos m) + e) ->
     fexp (Zdigits2 (Zpos m) + e) <= e3 /\
     m3 * 2 ^ (e3 - fexp (Zdigits2 (Zpos m) + e)) <=
       Zpos m / 2 ^ (fexp (Zdigits2 (Zpos m) + e) - e) + 1).
Proof.
  unfold binary_round.
  change (Zpos (digits2_pos m)) with (Zdigits2 (Zpos m)).
  set (fe := fexp (Zdigits2 (Zpos m) + e)).
  destruct (Z_le_gt_dec fe e) as [Hle|Hgt].
  - destruct (shl_align_le m e fe Hle) as [He Hm].
    destruct (shl_align m e fe) as [mz ez]; cbn [fst snd] in *. subst ez.
    assert (Hd : Zdigits2 (Zpos mz) + fe = Zdigits2 (Zpos m) + e).
    { rewrite Hm, Zdigits2_mul_pow2 by lia. lia. }
    destruct (binary_round_aux_spec s mz fe) as (m3 & e3 & Heq & Hb & Hmin & Hmag & _).
    rewrite Hd in Hmag. exists m3, e3.
    split; [exact Heq|]. split; [exact Hb|]. split; [exact Hmin|].
    split; [exact Hmag|]. intros Hc. exfalso. lia.
  - rewrite shl_align_gt by lia. apply binary_round_aux_spec.
Qed.

End Format.

End Rnd.


Import Rnd.

Lemma emin32 : emin 24 128 = -149.
Proof. reflexivity. Qed.

Lemma emin64 : emin 53 1024 = -1074.
Proof. reflexivity. Qed.

Lemma double_half_eq : double_half = S754_finite false 4503599627370496 (-53).
Proof. reflexivity. Qed.

(** A finite result of the narrowing conversion has a 24-bit mantissa and
    an exponent of binary32. *)
Lemma float_of_double_finite x s m e :
  float_of_double x = S754_finite s m e ->
  Zpos m < 2 ^ 24 /\ -149 <= e <= 104.
Proof.
  destruct x as [s0|s0| |s0 m0 e0]; simpl; try discriminate.
  intros H.
  destruct (binary_round_spec 24 128 ltac:(lia) s0 m0 e0)
    as (m3 & e3 & Heq & Hm3 & He3 & _ & _).
  rewrite Heq in H. unfold SFbuild in H.
  destruct m3 as [|p|p]; try discriminate.
  destruct (e3 <=? 128 - 24) eqn:E; try discriminate.
  inversion H; subst. rewrite emin32 in He3.
  apply Z.leb_le in E. lia.
Qed.

(** The widening conversion is exact and yields a 53-bit mantissa. *)
Lemma double_of_float_finite s m e :
  Zpos m < 2 ^ 24 -> -149 <= e <= 104 ->
  exists mw ew,
    double_of_float (S754_finite s m e) = S754_finite s mw ew /\
    -201 <= ew <= e /\ Zpos mw = Zpos m * 2 ^ (e - ew) /\
    2 ^ 52 <= Zpos mw < 2 ^ 53.
Proof.
  intros Hm He. unfold double_of_float.
  pose proof (Zdigits2_pos m) as Hd0.
  pose proof (Zdigits2_le_of_lt (Zpos m) 24 ltac:(lia) ltac:(lia) Hm) as Hd.
  assert (Hfe : fexp 53 1024 (Zdigits2 (Zpos m) + e) = Zdigits2 (Zpos m) + e - 53).
  { unfold fexp. rewrite emin64. lia. }
  rewrite binary_round_exact_up by (rewrite ?Hfe; lia).
  rewrite Hfe.
  set (ew := Zdigits2 (Zpos m) + e - 53).
  assert (Hpos : 0 < Zpos m * 2 ^ (e - ew))
    by (pose proof (pow2_gt0 (e - ew) ltac:(lia)); nia).
  destruct (Zpos m * 2 ^ (e - ew)) as [|mw|mw] eqn:E; try lia.
  exists mw, ew. unfold SFbuild.
  replace (ew <=? 1024 - 53) with true by (symmetry; apply Z.leb_le; lia).
  split; [reflexivity|]. split; [lia|]. split; [symmetry; exact E|].
  assert (Hdw : Zdigits2 (Zpos mw) = 53)
    by (rewrite <- E, Zdigits2_mul_pow2 by lia; lia).
  pose proof (Zdigits2_ge mw) as Hge. pose proof (Zdigits2_lt (Zpos mw) ltac:(lia)) as Hlt.
  rewrite Hdw in Hge, Hlt. change (53 - 1) with 52 in Hge. lia.
Qed.

(** Adding the literal 0.5 to a finite [double]. *)
Lemma dadd_half s mw ew :
  dadd (S754_finite s mw ew) double_half =
  binary_normalize 53 1024
    (cond_Zopp s (Zpos mw * 2 ^ (ew - Z.min ew (-53)))
     + 2 ^ 52 * 2 ^ (-53 - Z.min ew (-53)))
    (Z.min ew (-53)) false.
Proof.
  rewrite double_half_eq. unfold dadd, SFadd.
  set (ez := Z.min ew (-53)).
  destruct (shl_align_le mw ew ez ltac:(lia)) as [_ ->].
  destruct (shl_align_le 4503599627370496 (-53) ez ltac:(lia)) as [_ ->].
  reflexivity.
Qed.

(** A sum of magnitude below one converts to 0. *)
Lemma normalize_trunc_zero S E :
  -1073 <= E < 0 ->
  Z.abs S < 2 ^ (- E - 1) \/ (Z.abs S < 2 ^ (- E) /\ Z.abs S < 2 ^ 53) ->
  SFtrunc (binary_normalize 53 1024 S E false) = Some 0.
Proof.
  intros HE HS.
  assert (Hgen : forall s m, Zpos m = Z.abs S ->
            SFtrunc (binary_round 53 1024 s m E) = Some 0).
  { intros s m Hm. rewrite <- Hm in HS.
    set (D := Zdigits2 (Zpos m) + E).
    pose proof (Zdigits2_pos m) as Hd0.
    pose proof (Zdigits2_ge m) as Hdge.
    assert (Hlt1 : Zpos m < 2 ^ (- E)).
    { destruct HS as [H|[H _]]; [|assumption].
      pose proof (pow2_lt (- E - 1) (- E) ltac:(lia)). lia. }
    assert (HD : D <= 0).
    { pose proof (Zdigits2_le_of_lt (Zpos m) (- E) ltac:(lia) ltac:(lia) Hlt1). lia. }
    destruct (Z_le_gt_dec (fexp 53 1024 D) E) as [Hle|Hgt].
    - (* exact *)
      rewrite binary_round_exact_up by exact Hle.
      fold D. set (fe := fexp 53 1024 D) in *.
      assert (Hfemin : -1074 <= fe) by (unfold fe, fexp; rewrite emin64; lia).
      pose proof (pow2_gt0 (E - fe) ltac:(lia)) as Hp.
      assert (Hpos : 0 < Zpos m * 2 ^ (E - fe)) by nia.
      destruct (Zpos m * 2 ^ (E - fe)) as [|p|p] eqn:Ep; try lia.
      unfold SFbuild.
      replace (fe <=? 1024 - 53) with true by (symmetry; apply Z.leb_le; lia).
      unfold SFtrunc.
      replace (0 <=? fe) with false by (symmetry; apply Z.leb_gt; lia).
      rewrite <- Ep, Z.div_small; [destruct s; reflexivity|].
      split; [lia|].
      replace (- fe) with (- E + (E - fe)) by lia.
      rewrite pow2_split by lia. nia.
    - (* rounded: more than 53 digits *)
      assert (Hd53 : 53 < Zdigits2 (Zpos m)).
      { unfold D, fexp in Hgt. rewrite emin64 in Hgt. lia. }
      assert (HD1 : D <= -1).
      { destruct HS as [H|[_ H]].
        - pose proof (Zdigits2_le_of_lt (Zpos m) (- E - 1) ltac:(lia) ltac:(lia) H). unfold D; lia.
        - pose proof (Zdigits2_le_of_lt (Zpos m) 53 ltac:(lia) ltac:(lia) H). lia. }
      destruct (binary_round_spec 53 1024 ltac:(lia) s m E)
        as (m3 & e3 & Heq & Hm3 & He3 & Hmag & _).
      fold D in Hmag. rewrite emin64 in *.
      destruct (Hmag ltac:(lia)) as [He3D Hm3D].
      rewrite Heq. unfold SFbuild.
      destruct m3 as [|p|p]; try lia; [reflexivity|].
      replace (e3 <=? 1024 - 53) with true by (symmetry; apply Z.leb_le; lia).
      unfold SFtrunc.
      replace (0 <=? e3) with false by (symmetry; apply Z.leb_gt; lia).
      rewrite Z.div_small; [destruct s; reflexivity|].
      split; [lia|].
      pose proof (pow2_lt (D - e3) (- e3) ltac:(lia)). lia. }
  destruct S as [|p|p]; simpl binary_normalize.
  - reflexivity.
  - apply Hgen; reflexivity.
  - apply Hgen; reflexivity.
Qed.

(** A sum that is an integer below [2^53] converts to that integer. *)
Lemma normalize_trunc_int N :
  Z.abs N < 2 ^ 53 ->
  SFtrunc (binary_normalize 53 1024 (N * 2 ^ 53) (-53) false) = Some N.
Proof.
  intros HN.
  assert (Hgen : forall s m n, Zpos m = Zpos n * 2 ^ 53 -> Zpos n < 2 ^ 53 ->
            SFtrunc (binary_round 53 1024 s m (-53)) = Some (cond_Zopp s (Zpos n))).
  { intros s m n Hm Hn.
    pose proof (Zdigits2_pos n) as Hd0.
    pose proof (Zdigits2_le_of_lt (Zpos n) 53 ltac:(lia) ltac:(lia) Hn) as Hd.
    assert (Hdm : Zdigits2 (Zpos m) = Zdigits2 (Zpos n) + 53)
      by (rewrite Hm; apply Zdigits2_mul_pow2; lia).
    set (dn := Zdigits2 (Zpos n)) in *.
    assert (Hfe : fexp 53 1024 (Zdigits2 (Zpos m) + -53) = dn - 53).
    { rewrite Hdm. unfold fexp. rewrite emin64. lia. }
    pose proof (pow2_gt0 (53 - dn) ltac:(lia)) as Hp.
    rewrite (binary_round_exact_down 53 1024 s m (-53) (Zpos n * 2 ^ (53 - dn))).
    - rewrite Hfe.
      assert (Hpos : 0 < Zpos n * 2 ^ (53 - dn)) by nia.
      destruct (Zpos n * 2 ^ (53 - dn)) as [|p|p] eqn:Ep; try lia.
      unfold SFbuild.
      replace (dn - 53 <=? 1024 - 53) with true by (symmetry; apply Z.leb_le; lia).
      unfold SFtrunc. rewrite <- Ep.
      destruct (Z.eq_dec dn 53) as [E53|].
      + rewrite E53. change (0 <=? 53 - 53) with true. cbv iota.
        change (53 - 53) with 0. rewrite !Z.pow_0_r, !Z.mul_1_r. reflexivity.
      + replace (0 <=? dn - 53) with false by (symmetry; apply Z.leb_gt; lia).
        replace (- (dn - 53)) with (53 - dn) by lia.
        rewrite Z.div_mul by lia. reflexivity.
    - rewrite Hfe; lia.
    - nia.
    - rewrite Hfe, Hm. replace (dn - 53 - -53) with dn by lia.
      rewrite <- Z.mul_assoc, <- pow2_split by lia.
      replace (53 - dn + dn) with 53 by lia. reflexivity. }
  assert (Hmul : forall n, Zpos (n * 2 ^ 53) = Zpos n * 2 ^ 53)
    by (intros n; rewrite Pos2Z.inj_mul, Pos2Z.inj_pow; reflexivity).
  destruct N as [|n|n].
  - reflexivity.
  - rewrite <- Hmul. apply (Hgen false _ n); [apply Hmul|lia].
  - replace (Zneg n * 2 ^ 53) with (Zneg (n * 2 ^ 53)) by (specialize (Hmul n); lia).
    apply (Hgen true _ n); [apply Hmul|lia].
Qed.

Lemma Some_inj {A} (a b : A) : Some a = Some b -> a = b.
Proof. congruence. Qed.

(** [int32_t] conversion of a value whose truncation is representable. *)
Lemma int32_of_double_trunc cvt x z :
  SFtrunc x = Some z -> INT32_MIN <= z <= INT32_MAX ->
  int32_of_double cvt x = z.
Proof.
  intros Hx Hz. unfold int32_of_double. rewrite Hx.
  replace ((INT32_MIN <=? z) && (z <=? INT32_MAX)) with true; [reflexivity|].
  symmetry; apply andb_true_iff; split; apply Z.leb_le; lia.
Qed.

(** The rounding step at a tie: a [float] that is exactly [X + 1/2]. *)
Lemma round_ival_tie cvt x q X :
  SF2Q (float_of_double x) = Some q ->
  0 <= X -> (q == inject_Z X + (1 # 2))%Q ->
  round_ival cvt (float_of_double x) = X + 1.
Proof.
  intros Hq HX Heq.
  destruct (float_of_double x) as [s|s| |s m e] eqn:Hf; try discriminate.
  - (* zero is not X + 1/2 *)
    apply Some_inj in Hq; subst q. unfold Qeq, Qplus, inject_Z in Heq; cbn in Heq. lia.
  - destruct (float_of_double_finite x s m e Hf) as [Hm He].
    destruct (double_of_float_finite s m e Hm He) as (mw & ew & Hw & Hew & Hmw & Hbw).
    unfold round_ival. rewrite Hw, dadd_half.
    (* the value as an equation on integers *)
    assert (Hval : s = false /\ e < 0 /\ 2 * Zpos m = (2 * X + 1) * 2 ^ (- e)).
    { unfold SF2Q in Hq. apply Some_inj in Hq. subst q.
      destruct (0 <=? e) eqn:E0.
      - cbv [Qeq Qplus inject_Z Qnum Qden] in Heq.
        destruct s; unfold cond_Zopp in Heq; lia.
      - apply Z.leb_gt in E0.
        pose proof (pow2_gt0 (- e) ltac:(lia)) as Hp.
        cbv [Qeq Qplus inject_Z Qnum Qden] in Heq.
        rewrite Z2Pos.id in Heq by assumption.
        destruct s; unfold cond_Zopp in Heq; [nia|].
        repeat split; lia. }
    destruct Hval as (-> & He0 & Hval). cbn [cond_Zopp].
    pose proof (pow2_gt0 (- e) ltac:(lia)) as Hpe.
    pose proof (pow2_gt0 (e - ew) ltac:(lia)) as Hpw.
    (* the widened exponent is at least -53 *)
    assert (Hew53 : -53 <= ew).
    { destruct (Z_le_gt_dec (-53) ew) as [|Hlt]; [assumption|exfalso].
      assert (2 ^ (- e) * 2 ^ (e - ew) = 2 ^ (- ew))
        by (rewrite <- pow2_split by lia; f_equal; lia).
      assert (2 ^ 54 <= 2 ^ (- ew)) by (apply pow2_le; lia).
      nia. }
    rewrite Z.min_r by lia. change (-53 - -53) with 0.
    rewrite Z.pow_0_r, Z.mul_1_r.
    assert (HS : Zpos mw * 2 ^ (ew - -53) + 2 ^ 52 = (X + 1) * 2 ^ 53).
    { rewrite Hmw, <- Z.mul_assoc, <- pow2_split by lia.
      replace (e - ew + (ew - -53)) with (e + 53) by lia.
      assert (H2 : 2 ^ (- e) * 2 ^ (e + 53) = 2 ^ 53)
        by (rewrite <- pow2_split by lia; f_equal; lia).
      change (2 ^ 53) with (2 * 2 ^ 52) in *. nia. }
    rewrite HS.
    assert (HX23 : X + 1 < 2 ^ 24).
    { assert (2 <= 2 ^ (- e)) by (change 2 with (2 ^ 1) at 1; apply pow2_le; lia).
      nia. }
    apply int32_of_double_trunc.
    + apply normalize_trunc_int. change (2 ^ 53) with 9007199254740992. 
      change (2 ^ 24) with 16777216 in HX23. lia.
    + unfold INT32_MIN, INT32_MAX. change (2 ^ 24) with 16777216 in HX23. 
      change (2 ^ 31) with 2147483648. lia.
Qed.

(** The rounding step on a negative [float] above -1.5. *)
Lemma round_ival_small_negative cvt x q :
  SF2Q (float_of_double x) = Some q ->
  (- (3 # 2) < q)%Q -> (q < 0)%Q ->
  round_ival cvt (float_of_double x) = 0.
Proof.
  intros Hq Hlo Hhi.
  destruct (float_of_double x) as [s|s| |s m e] eqn:Hf; try discriminate.
  - apply Some_inj in Hq; subst q. unfold Qlt in Hhi; cbn in Hhi. lia.
  - destruct (float_of_double_finite x s m e Hf) as [Hm He].
    destruct (double_of_float_finite s m e Hm He) as (mw & ew & Hw & Hew & Hmw & Hbw).
    unfold round_ival. rewrite Hw, dadd_half.
    pose proof (pow2_gt0 (e - ew) ltac:(lia)) as Hpw.
    (* the value as inequalities on integers *)
    assert (Hval : s = true /\ ew < 0 /\ 2 * Zpos mw < 3 * 2 ^ (- ew)).
    { unfold SF2Q in Hq. apply Some_inj in Hq. subst q.
      destruct (0 <=? e) eqn:E0.
      - apply Z.leb_le in E0.
        pose proof (pow2_gt0 e E0) as Hp.
        cbv [Qlt Qopp inject_Z Qnum Qden] in Hlo, Hhi.
        destruct s; unfold cond_Zopp in Hlo, Hhi; [|nia].
        assert (Hme : Zpos m * 2 ^ e = 1) by nia.
        assert (He0 : e = 0).
        { destruct (Z.eq_dec e 0) as [|]; [assumption|exfalso].
          assert (2 <= 2 ^ e) by (change 2 with (2 ^ 1) at 1; apply pow2_le; lia).
          nia. }
        subst e. rewrite Z.pow_0_r in Hme.
        assert (Hm1 : Zpos m = 1) by lia.
        rewrite Hm1 in Hmw. rewrite Z.sub_0_l, Z.mul_1_l in Hmw.
        assert (ew < 0).
        { destruct (Z_lt_ge_dec ew 0) as [|]; [assumption|exfalso].
          assert (Hz : ew = 0) by lia. rewrite Hz in Hmw. cbn in Hmw. lia. }
        pose proof (pow2_gt0 (- ew) ltac:(lia)). repeat split; lia.
      - apply Z.leb_gt in E0.
        pose proof (pow2_gt0 (- e) ltac:(lia)) as Hp.
        cbv [Qlt Qopp inject_Z Qnum Qden] in Hlo, Hhi.
        rewrite Z2Pos.id in Hlo by assumption.
        destruct s; unfold cond_Zopp in Hlo, Hhi; [|lia].
        assert (H2 : 2 ^ (- e) * 2 ^ (e - ew) = 2 ^ (- ew))
          by (rewrite <- pow2_split by lia; f_equal; lia).
        repeat split; try lia. rewrite Hmw, <- H2. nia. }
    destruct Hval as (-> & Hew0 & Hval). cbn [cond_Zopp].
    pose proof (pow2_gt0 (- ew) ltac:(lia)) as Hpe.
    assert (Hew52 : ew <= -52).
    { destruct (Z_le_gt_dec ew (-52)) as [|Hgt]; [assumption|exfalso].
      assert (2 ^ (- ew) <= 2 ^ 51) by (apply pow2_le; lia).
      change (2 ^ 52) with (2 * 2 ^ 51) in Hbw. lia. }
    apply int32_of_double_trunc; [|unfold INT32_MIN, INT32_MAX; cbn; lia].
    apply normalize_trunc_zero; [lia|].
    destruct (Z_le_gt_dec ew (-54)) as [Hlow|Hhigh].
    + (* |fval| < 1/2: the sum is positive and below 1/2 *)
      left. rewrite Z.min_l by lia.
      replace (ew - ew) with 0 by lia. rewrite Z.pow_0_r, Z.mul_1_r.
      replace (2 ^ 52 * 2 ^ (-53 - ew)) with (2 ^ (- ew - 1))
        by (rewrite <- pow2_split by lia; f_equal; lia).
      assert (2 ^ 53 <= 2 ^ (- ew - 1)) by (apply pow2_le; lia).
      lia.
    + right. rewrite Z.min_r by lia. change (-53 - -53) with 0.
      rewrite Z.pow_0_r, Z.mul_1_r. change (- -53) with 53.
      assert (Hc : ew = -53 \/ ew = -52) by lia.
      destruct Hc as [-> | ->].
      * change (-53 - -53) with 0. rewrite Z.pow_0_r, Z.mul_1_r.
        change (2 ^ 53) with (2 * 2 ^ 52). lia.
      * change (-52 - -53) with 1. change (- -52) with 52 in Hval.
        change (2 ^ 1) with 2. change (2 ^ 53) with (2 * 2 ^ 52). lia.
Qed.

(** A sum whose mantissa has at most 53 significant bits is represented
    exactly, and converts to the truncation of its exact value. *)
Lemma normalize_trunc_exact S K t E :
  S = K * 2 ^ t -> 0 <= t <= 900 -> Z.abs K < 2 ^ 53 -> -1073 <= E < 0 ->
  SFtrunc (binary_normalize 53 1024 S E false) = Some (Z.quot S (2 ^ (- E))).
Proof.
  intros HS Ht HK HE.
  pose proof (pow2_gt0 t ltac:(lia)) as Hpt.
  pose proof (pow2_gt0 (- E) ltac:(lia)) as HpE.
  assert (Hgen : forall s m k, Zpos m = Zpos k * 2 ^ t -> Zpos k < 2 ^ 53 ->
            SFtrunc (binary_round 53 1024 s m E)
            = Some (cond_Zopp s (Zpos m / 2 ^ (- E)))).
  { intros s m k Hm Hk.
    pose proof (Zdigits2_pos k) as Hd0.
    pose proof (Zdigits2_le_of_lt (Zpos k) 53 ltac:(lia) ltac:(lia) Hk) as Hd.
    assert (Hdm : Zdigits2 (Zpos m) = Zdigits2 (Zpos k) + t)
      by (rewrite Hm; apply Zdigits2_mul_pow2; lia).
    set (dk := Zdigits2 (Zpos k)) in *.
    set (fe := fexp 53 1024 (Zdigits2 (Zpos m) + E)).
    assert (Hfe : fe = Z.max (dk + t + E - 53) (-1074)).
    { unfold fe, fexp. rewrite emin64, Hdm. reflexivity. }
    destruct (Z_le_gt_dec fe E) as [Hle|Hgt].
    - rewrite binary_round_exact_up by exact Hle. fold fe.
      pose proof (pow2_gt0 (E - fe) ltac:(lia)) as Hp.
      assert (Hpos : 0 < Zpos m * 2 ^ (E - fe)) by nia.
      destruct (Zpos m * 2 ^ (E - fe)) as [|p|p] eqn:Ep; try lia.
      unfold SFbuild.
      replace (fe <=? 1024 - 53) with true by (symmetry; apply Z.leb_le; lia).
      unfold SFtrunc.
      replace (0 <=? fe) with false by (symmetry; apply Z.leb_gt; lia).
      rewrite <- Ep.
      replace (- fe) with (- E + (E - fe)) by lia.
      rewrite pow2_split by lia.
      rewrite Z.div_mul_cancel_r by lia. reflexivity.
    - set (n := fe - E).
      assert (Hn : n = dk + t - 53) by lia.
      pose proof (pow2_gt0 n ltac:(lia)) as Hpn.
      pose proof (pow2_gt0 (t - n) ltac:(lia)) as Hptn.
      assert (Hma : Zpos m = Zpos k * 2 ^ (t - n) * 2 ^ n).
      { rewrite <- Z.mul_assoc, <- pow2_split by lia.
        replace (t - n + n) with t by lia. exact Hm. }
      rewrite (binary_round_exact_down 53 1024 s m E (Zpos k * 2 ^ (t - n)));
        [|fold fe; lia|nia|fold fe; fold n; exact Hma].
      fold fe.
      assert (Hpos : 0 < Zpos k * 2 ^ (t - n)) by nia.
      destruct (Zpos k * 2 ^ (t - n)) as [|a|a] eqn:Ea; try lia.
      unfold SFbuild.
      replace (fe <=? 1024 - 53) with true by (symmetry; apply Z.leb_le; lia).
      unfold SFtrunc. rewrite Hma.
      destruct (Z_le_gt_dec 0 fe) as [Hfe0|Hfe0].
      + replace (0 <=? fe) with true by (symmetry; apply Z.leb_le; lia).
        replace n with (fe + - E) by lia.
        rewrite pow2_split, Z.mul_assoc, Z.div_mul by lia. reflexivity.
      + replace (0 <=? fe) with false by (symmetry; apply Z.leb_gt; lia).
        replace (- E) with (- fe + n) by lia.
        rewrite pow2_split by lia.
        pose proof (pow2_gt0 (- fe) ltac:(lia)).
        rewrite Z.div_mul_cancel_r by lia. reflexivity. }
  destruct S as [|p|p].
  - reflexivity.
  - assert (HKpos : 0 < K) by nia.
    destruct K as [|k|k]; try lia.
    unfold binary_normalize. rewrite (Hgen false p k HS ltac:(lia)).
    cbn [cond_Zopp]. rewrite Z.quot_div_nonneg by lia. reflexivity.
  - assert (HKneg : K < 0) by nia.
    destruct K as [|k|k]; try lia.
    unfold binary_normalize. rewrite (Hgen true p k ltac:(lia) ltac:(lia)).
    cbn [cond_Zopp].
    change (Zneg p) with (- Zpos p). rewrite Z.quot_opp_l by lia.
    rewrite Z.quot_div_nonneg by lia. reflexivity.
Qed.

(** One half plus a small positive amount stays below one after
    rounding. *)
Lemma normalize_trunc_half_plus M E :
  -1073 <= E <= -54 -> 0 <= M <= 2 ^ 53 - 2 ^ 28 ->
  SFtrunc (binary_normalize 53 1024 (M + 2 ^ (-1 - E)) E false) = Some 0.
Proof.
  intros HE HM.
  pose proof (pow2_gt0 (-1 - E) ltac:(lia)) as Hp1.
  assert (H53 : 2 ^ 53 <= 2 ^ (-1 - E)) by (apply pow2_le; lia).
  assert (Hup : 2 ^ (- E) = 2 * 2 ^ (-1 - E)).
  { replace (- E) with (1 + (-1 - E)) by lia. rewrite pow2_split by lia.
    reflexivity. }
  assert (H28 : 0 < 2 ^ 28) by (apply pow2_gt0; lia).
  destruct (M + 2 ^ (-1 - E)) as [|p|p] eqn:ES; try lia.
  unfold binary_normalize.
  assert (Hd : Zdigits2 (Zpos p) = - E).
  { pose proof (Zdigits2_le_of_lt (Zpos p) (- E) ltac:(lia) ltac:(lia) ltac:(lia)).
    pose proof (Zdigits2_lt (Zpos p) ltac:(lia)) as Hlt.
    pose proof (Zdigits2_pos p).
    destruct (Z_le_gt_dec (- E) (Zdigits2 (Zpos p))) as [|Hc]; [lia|exfalso].
    assert (2 ^ Zdigits2 (Zpos p) <= 2 ^ (-1 - E)) by (apply pow2_le; lia).
    lia. }
  destruct (binary_round_spec 53 1024 ltac:(lia) false p E)
    as (m3 & e3 & Heq & Hm3 & He3 & Hmag & Href).
  rewrite Hd in Hmag, Href. replace (- E + E) with 0 in * by lia.
  change (fexp 53 1024 0) with (-53) in Href.
  rewrite emin64 in *.
  destruct (Hmag ltac:(lia)) as [He30 _].
  destruct (Href ltac:(lia)) as [He353 Hm3r].
  assert (Hq : Zpos p / 2 ^ (-53 - E) <= 2 ^ 53 - 2 ^ 27).
  { pose proof (pow2_gt0 (-53 - E) ltac:(lia)) as Hpn.
    rewrite <- ES.
    replace (2 ^ (-1 - E)) with (2 ^ 52 * 2 ^ (-53 - E))
      by (rewrite <- pow2_split by lia; f_equal; lia).
    rewrite Z.div_add by lia.
    assert (M / 2 ^ (-53 - E) <= M / 2 ^ 1).
    { apply Z.div_le_compat_l; [lia|].
      split; [reflexivity|]. apply pow2_le; lia. }
    assert (M / 2 ^ 1 <= (2 ^ 53 - 2 ^ 28) / 2 ^ 1)
      by (apply Z.div_le_mono; [reflexivity|lia]).
    change ((2 ^ 53 - 2 ^ 28) / 2 ^ 1) with (2 ^ 52 - 2 ^ 27) in *.
    change (2 ^ 53) with (2 ^ 52 + 2 ^ 52). lia. }
  replace (e3 - -53) with (e3 + 53) in Hm3r by lia.
  pose proof (pow2_gt0 (e3 + 53) ltac:(lia)) as Hp3.
  rewrite Heq. unfold SFbuild.
  destruct m3 as [|a|a]; try lia; [reflexivity|].
  replace (e3 <=? 1024 - 53) with true by (symmetry; apply Z.leb_le; lia).
  unfold SFtrunc. cbn [cond_Zopp].
  assert (Hlt : Zpos a * 2 ^ (e3 + 53) < 2 ^ 53)
    by (change (2 ^ 27) with 134217728 in Hq; lia).
  destruct (Z.eq_dec e3 0) as [->|Hne].
  - exfalso. change (2 ^ (0 + 53)) with (2 ^ 53) in Hlt. nia.
  - replace (0 <=? e3) with false by (symmetry; apply Z.leb_gt; lia).
    rewrite Z.div_small; [reflexivity|].
    split; [lia|].
    assert (H2 : 2 ^ 53 = 2 ^ (- e3) * 2 ^ (e3 + 53))
      by (rewrite <- pow2_split by lia; f_equal; lia).
    pose proof (pow2_gt0 (- e3) ltac:(lia)).
    nia.
Qed.

Lemma quot_cross a b c d :
  0 < b -> 0 < d -> a * d = c * b -> Z.quot a b = Z.quot c d.
Proof.
  intros Hb Hd H.
  rewrite <- (Z.quot_mul_cancel_r a b d) by lia.
  rewrite H, (Z.mul_comm b d).
  apply Z.quot_mul_cancel_r; lia.
Qed.

(** The exact value of [fval + 1/2], truncated, in terms of the sum
    aligned at exponent [ez]. *)
Lemma Qtrunc_half_aligned s m e mw ew ez q S :
  SF2Q (S754_finite s m e) = Some q ->
  Zpos mw = Zpos m * 2 ^ (e - ew) -> ew <= e -> ez <= ew -> ez < 0 ->
  2 * S = 2 * cond_Zopp s (Zpos mw * 2 ^ (ew - ez)) + 2 ^ (- ez) ->
  Qtrunc (q + (1 # 2)) = Z.quot S (2 ^ (- ez)).
Proof.
  intros Hq Hmw Hew Hez Hez0 HS.
  pose proof (pow2_gt0 (- ez) ltac:(lia)) as Hpz.
  pose proof (pow2_gt0 (e - ew) ltac:(lia)) as Hpg.
  pose proof (pow2_gt0 (ew - ez) ltac:(lia)) as Hpa.
  unfold SF2Q in Hq. apply Some_inj in Hq. subst q.
  unfold Qtrunc. destruct (0 <=? e) eqn:E0.
  - apply Z.leb_le in E0.
    cbv [Qplus inject_Z Qnum Qden].
    apply quot_cross; [lia|lia|].
    assert (H2 : 2 ^ (e - ew) * 2 ^ (ew - ez) = 2 ^ e * 2 ^ (- ez)).
    { rewrite <- !pow2_split by lia. f_equal; lia. }
    rewrite Hmw in HS.
    set (P := 2 ^ (- ez)) in *. set (A := 2 ^ (e - ew)) in *.
    set (B := 2 ^ (ew - ez)) in *. set (C := 2 ^ e) in *.
    clearbody P A B C.
    assert (H3 : Zpos m * A * B = Zpos m * C * P)
      by (rewrite <- !Z.mul_assoc, H2; reflexivity).
    destruct s; unfold cond_Zopp in *;
      rewrite ?Pos2Z.inj_mul; change (Zpos 2) with 2; change (Zpos 1) with 1; lia.
  - apply Z.leb_gt in E0.
    pose proof (pow2_gt0 (- e) ltac:(lia)) as Hpe.
    cbv [Qplus Qnum Qden].
    rewrite Pos2Z.inj_mul, Z2Pos.id by assumption.
    apply quot_cross; [lia|lia|].
    assert (H2 : 2 ^ (e - ew) * 2 ^ (ew - ez) * 2 ^ (- e) = 2 ^ (- ez)).
    { rewrite <- !pow2_split by lia. f_equal; lia. }
    rewrite Hmw in HS.
    set (P := 2 ^ (- ez)) in *. set (A := 2 ^ (e - ew)) in *.
    set (B := 2 ^ (ew - ez)) in *. set (C := 2 ^ (- e)) in *.
    clearbody P A B C.
    assert (H3 : Zpos m * A * B * C = Zpos m * P)
      by (rewrite <- H2, !Z.mul_assoc; reflexivity).
    assert (H4 : 2 * S * C = 2 * cond_Zopp s (Zpos m * A * B) * C + P * C)
      by (rewrite HS; ring).
    destruct s; unfold cond_Zopp in *;
      change (Zpos 2) with 2; change (Zpos 1) with 1; lia.
Qed.

(** The rounding step of both functions, lines 199 and 231: whenever
    the result fits [int32_t], [(int32_t)(fval + 0.5)] is the exact
    value of [fval] plus one half, truncated toward zero.  The [double]
    addition is either exact or too small to reach the next integer. *)
Lemma round_ival_exact cvt x q :
  SF2Q (float_of_double x) = Some q ->
  INT32_MIN <= Qtrunc (q + (1 # 2)) <= INT32_MAX ->
  round_ival cvt (float_of_double x) = Qtrunc (q + (1 # 2)).
Proof.
  intros Hq Hrange.
  destruct (float_of_double x) as [s|s| |s m e] eqn:Hf; try discriminate.
  - apply Some_inj in Hq; subst q. destruct s; reflexivity.
  - destruct (float_of_double_finite x s m e Hf) as [Hm He].
    destruct (double_of_float_finite s m e Hm He)
      as (mw & ew & Hw & Hew & Hmw & Hbw).
    unfold round_ival. rewrite Hw, dadd_half.
    pose proof (pow2_gt0 (e - ew) ltac:(lia)) as Hpg.
    (* at least 29 low bits of the widened mantissa are zero *)
    assert (Hg : 29 <= e - ew < 53).
    { split.
      - destruct (Z_le_gt_dec 29 (e - ew)) as [|Hc]; [assumption|exfalso].
        assert (2 ^ (e - ew) <= 2 ^ 28) by (apply pow2_le; lia).
        assert (Zpos m * 2 ^ (e - ew) <= (2 ^ 24 - 1) * 2 ^ 28)
          by (apply Z.mul_le_mono_nonneg; lia).
        change ((2 ^ 24 - 1) * 2 ^ 28) with (2 ^ 52 - 2 ^ 28) in *.
        change (2 ^ 28) with 268435456 in *. lia.
      - destruct (Z_lt_ge_dec (e - ew) 53) as [|Hc]; [assumption|exfalso].
        assert (2 ^ 53 <= 2 ^ (e - ew)) by (apply pow2_le; lia).
        assert (1 * 2 ^ (e - ew) <= Zpos m * 2 ^ (e - ew))
          by (apply Z.mul_le_mono_nonneg_r; lia).
        lia. }
    destruct (Z_le_gt_dec (-53) ew) as [Hbig|Htiny].
    + (* |fval| >= 1/2: the sum is exact *)
      rewrite Z.min_r by lia.
      change (-53 - -53) with 0. rewrite Z.pow_0_r, Z.mul_1_r.
      replace (ew - -53) with (ew + 53) by lia.
      set (S := cond_Zopp s (Zpos mw * 2 ^ (ew + 53)) + 2 ^ 52).
      assert (HT : Qtrunc (q + (1 # 2)) = Z.quot S (2 ^ 53)).
      { apply (Qtrunc_half_aligned s m e mw ew (-53) q S Hq Hmw); try lia.
        replace (ew - -53) with (ew + 53) by lia. unfold S.
        change (2 ^ (- -53)) with (2 * 2 ^ 52). lia. }
      rewrite HT in *.
      apply int32_of_double_trunc; [|exact Hrange].
      assert (HmS : Zpos mw * 2 ^ (ew + 53) = Zpos m * 2 ^ (e + 53)).
      { rewrite Hmw, <- Z.mul_assoc, <- pow2_split by lia. do 2 f_equal. lia. }
      pose proof (pow2_gt0 (ew + 53) ltac:(lia)) as Hpw.
      (* the result fits 32 bits, so the exponent is small *)
      assert (Hew21 : ew + 53 <= 32).
      { destruct (Z_le_gt_dec (ew + 53) 32) as [|Hc]; [assumption|exfalso].
        assert (H33 : 2 ^ 33 <= 2 ^ (ew + 53)) by (apply pow2_le; lia).
        assert (HX : 2 ^ 52 * 2 ^ 33 <= Zpos mw * 2 ^ (ew + 53))
          by (apply Z.mul_le_mono_nonneg; lia).
        pose proof (Z.quot_rem' S (2 ^ 53)) as Hqr.
        pose proof (Z.rem_bound_abs S (2 ^ 53) ltac:(lia)) as Hr.
        unfold INT32_MIN, INT32_MAX in Hrange.
        unfold S in Hqr, Hr, Hrange.
        set (X := Zpos mw * 2 ^ (ew + 53)) in *.
        set (T := Z.quot (cond_Zopp s X + 2 ^ 52) (2 ^ 53)) in *.
        set (r := Z.rem (cond_Zopp s X + 2 ^ 52) (2 ^ 53)) in *.
        clearbody T r X.
        change (2 ^ 31) with 2147483648 in Hrange.
        change (2 ^ 53) with 9007199254740992 in Hqr, Hr.
        change (2 ^ 52) with 4503599627370496 in Hqr, Hr, HX.
        change (2 ^ 33) with 8589934592 in HX.
        clear - Hrange Hqr Hr HX.
        destruct s; unfold cond_Zopp in *; lia. }
      replace (- -53) with 53 by lia.
      destruct (Z_le_gt_dec (e + 53) 52) as [Hsmall|Hlarge].
      * replace (2 ^ 53) with (2 ^ (- -53)) by reflexivity.
        apply (normalize_trunc_exact S
                 (cond_Zopp s (Zpos m) + 2 ^ (52 - (e + 53))) (e + 53)); try lia.
        -- unfold S. rewrite HmS, Z.mul_add_distr_r, <- pow2_split by lia.
           replace (52 - (e + 53) + (e + 53)) with 52 by lia.
           destruct s; unfold cond_Zopp; lia.
        -- assert (2 ^ (52 - (e + 53)) <= 2 ^ 52) by (apply pow2_le; lia).
           pose proof (pow2_gt0 (52 - (e + 53)) ltac:(lia)).
           change (2 ^ 24) with 16777216 in Hm.
           change (2 ^ 52) with 4503599627370496 in *.
           change (2 ^ 53) with 9007199254740992.
           destruct s; unfold cond_Zopp; lia.
      * replace (2 ^ 53) with (2 ^ (- -53)) by reflexivity.
        apply (normalize_trunc_exact S
                 (cond_Zopp s (Zpos m * 2 ^ (e + 53 - 52)) + 1) 52); try lia.
        -- unfold S. rewrite HmS, Z.mul_add_distr_r.
           replace (2 ^ (e + 53)) with (2 ^ (e + 53 - 52) * 2 ^ 52)
             by (rewrite <- pow2_split by lia; f_equal; lia).
           destruct s; unfold cond_Zopp; lia.
        -- assert (H85 : Zpos m * 2 ^ (e + 53) < 2 ^ 53 * 2 ^ 32).
           { rewrite <- HmS.
             assert (2 ^ (ew + 53) <= 2 ^ 32) by (apply pow2_le; lia).
             apply Z.le_lt_trans with (Zpos mw * 2 ^ 32).
             - apply Z.mul_le_mono_nonneg_l; lia.
             - apply Z.mul_lt_mono_pos_r; lia. }
           replace (2 ^ (e + 53)) with (2 ^ (e + 53 - 52) * 2 ^ 52) in H85
             by (rewrite <- pow2_split by lia; f_equal; lia).
           pose proof (pow2_gt0 (e + 53 - 52) ltac:(lia)).
           set (Y := Zpos m * 2 ^ (e + 53 - 52)) in *.
           rewrite Z.mul_assoc in H85. fold Y in H85.
           assert (HY : 0 < Y) by (unfold Y; apply Z.mul_pos_pos; lia).
           clearbody Y.
           change (2 ^ 53) with 9007199254740992 in *.
           change (2 ^ 52) with 4503599627370496 in *.
           change (2 ^ 32) with 4294967296 in *.
           clear - H85 HY.
           destruct s; unfold cond_Zopp; lia.
    + (* |fval| < 1/2: the result is 0 *)
      rewrite Z.min_l by lia.
      replace (ew - ew) with 0 by lia. rewrite Z.pow_0_r, Z.mul_1_r.
      assert (Hh : 2 ^ 52 * 2 ^ (-53 - ew) = 2 ^ (-1 - ew))
        by (rewrite <- pow2_split by lia; f_equal; lia).
      rewrite Hh.
      pose proof (pow2_gt0 (-1 - ew) ltac:(lia)) as Hp1.
      assert (H53 : 2 ^ 53 <= 2 ^ (-1 - ew)) by (apply pow2_le; lia).
      assert (Hup : 2 ^ (- ew) = 2 * 2 ^ (-1 - ew)).
      { replace (- ew) with (1 + (-1 - ew)) by lia.
        rewrite pow2_split by lia. reflexivity. }
      set (S := cond_Zopp s (Zpos mw) + 2 ^ (-1 - ew)).
      assert (HT : Qtrunc (q + (1 # 2)) = Z.quot S (2 ^ (- ew))).
      { apply (Qtrunc_half_aligned s m e mw ew ew q S Hq Hmw); try lia.
        replace (ew - ew) with 0 by lia. rewrite Z.pow_0_r, Z.mul_1_r.
        unfold S. lia. }
      assert (HS0 : Z.quot S (2 ^ (- ew)) = 0).
      { apply Z.quot_small. unfold S. destruct s; unfold cond_Zopp; lia. }
      rewrite HT, HS0 in *.
      apply int32_of_double_trunc; [|exact Hrange].
      unfold S. destruct s; unfold cond_Zopp.
      * apply normalize_trunc_zero; [lia|]. left.
        replace (- ew - 1) with (-1 - ew) by lia. lia.
      * apply normalize_trunc_half_plus; [lia|].
        split; [lia|].
        (* the mantissa is a multiple of 2^(e - ew) below 2^53 *)
        assert (H2 : 2 ^ 53 = 2 ^ (53 - (e - ew)) * 2 ^ (e - ew))
          by (rewrite <- pow2_split by lia; f_equal; lia).
        assert (Hmul : Zpos m < 2 ^ (53 - (e - ew))).
        { apply Z.mul_lt_mono_pos_r with (2 ^ (e - ew)); lia. }
        assert (H29 : 2 ^ 28 <= 2 ^ (e - ew)) by (apply pow2_le; lia).
        assert (Hle : (Zpos m + 1) * 2 ^ (e - ew) <= 2 ^ (53 - (e - ew)) * 2 ^ (e - ew))
          by (apply Z.mul_le_mono_nonneg_r; lia).
        lia.
Qed.

(* ================================================================== *)
(** ** The 18-bit mask                                                 *)
(* ================================================================== *)

Lemma keep18_mod z : keep18 z = z mod 2 ^ 18.
Proof.
  unfold keep18. change (Z.shiftl 1 18 - 1) with (Z.ones 18).
  apply Z.land_ones. lia.
Qed.

Lemma mask18_keep18 z : Spec.mask18 z = keep18 z.
Proof. reflexivity. Qed.

Lemma keep18_range z : 0 <= keep18 z <= 0x3FFFF.
Proof.
  rewrite keep18_mod.
  pose proof (Z.mod_pos_bound z (2 ^ 18) ltac:(lia)) as H.
  change (2 ^ 18) with 262144 in *. lia.
Qed.

Lemma keep18_high_bits z i : 18 <= i -> Z.testbit (keep18 z) i = false.
Proof.
  intros Hi. unfold keep18. change (Z.shiftl 1 18 - 1) with (Z.ones 18).
  rewrite Z.land_spec, Z.ones_spec_high by lia. apply andb_false_r.
Qed.

(* ================================================================== *)
(** ** The coefficient functions against the specification             *)
(* ================================================================== *)

Lemma multScaled_fval g r : Spec.multScaled g r = mult_fval g (Spec.isHigh r).
Proof. destruct r; reflexivity. Qed.

Lemma addScaled_fval o r : Spec.addScaled o r = add_fval o (Spec.isHigh r).
Proof. destruct r; reflexivity. Qed.

(** The constants as binary64 numbers: 1.086 is 0x3FF1604189374BC7 and
    26.25/25.0 is 0x3FF0CCCCCCCCCCCD. *)
Example range_constants :
  ADC1410_REAL_RANGE_ADC_HIGH = S754_finite false 0x11604189374BC7 (-52) /\
  ddiv ADC1410_REAL_RANGE_ADC_LOW ADC1410_IDEAL_RANGE_ADC_LOW
    = S754_finite false 0x10CCCCCCCCCCCD (-52) /\
  ADC1410_IDEAL_RANGE_ADC_HIGH = S754_finite false 0x10000000000000 (-52).
Proof. repeat split; reflexivity. Qed.

(** A negative rounded value keeps its low 18 bits in two's complement:
    gain error -3.0 at low gain rounds to -137625, that is 0x1E667. *)
Example negative_value_keeps_low_bits cvt :
  round_ival cvt (mult_fval (float_of_int (-3)) false) = -137625 /\
  ComputeMultCoefADC1410 cvt (float_of_int (-3)) false = 0x1E667.
Proof. vm_compute. split; reflexivity. Qed.

(** The precision of the intermediate results matters: at gain error
    95 * 2^-24 and high gain the formula over the rationals gives 71172,
    the code, which rounds [1 + cg] to single precision, gives 71173. *)
Remark intermediate_rounding_matters cvt :
  SF2Q (float_dyadic 95 (-24)) = Some (12451840 # 2199023255552) /\
  (12451840 # 2199023255552 == 95 # 16777216)%Q /\
  Qtrunc (Spec.multScaledExact (95 # 16777216) Spec.High + (1 # 2)) = 71172 /\
  ComputeMultCoefADC1410 cvt (float_dyadic 95 (-24)) true = 71173.
Proof. vm_compute. repeat split; reflexivity. Qed.

(** Both functions end in the same two steps; whenever the rounded value
    fits [int32_t] they yield it modulo [2^18]. *)
Lemma rounded_coef cvt x z :
  Spec.roundHalfUp (float_of_double x) = Some z ->
  INT32_MIN <= z <= INT32_MAX ->
  keep18 (round_ival cvt (float_of_double x)) = Spec.mask18 z.
Proof.
  unfold Spec.roundHalfUp. intros Hz Hr.
  destruct (SF2Q (float_of_double x)) as [q|] eqn:Hq; [|discriminate].
  apply Some_inj in Hz. subst z.
  rewrite (round_ival_exact cvt x q Hq Hr). reflexivity.
Qed.

(** C1 (amended).  For every gain error and gain range for which the
    rounded value trunc(Scaled + 1/2) is a finite number that fits a
    signed 32-bit integer, [ComputeMultCoefADC1410] returns that value
    masked with 0x3FFFF, that is, its residue modulo 2^18 (bit retention,
    not saturation).  Scaled is Ratio * (1 + gainError) * 2^16 with
    Ratio = 26.25/25.0 (low gain) or 1.086/1.0 (high gain), evaluated as
    the C expression is: [1 + gainError] in single precision, the
    products in double precision, the result narrowed to single
    precision.  The rounding step itself is exact. *)
Theorem mult_coef_matches_formula cvt gainError r z :
  Spec.roundHalfUp (Spec.multScaled gainError r) = Some z ->
  INT32_MIN <= z <= INT32_MAX ->
  Spec.computeMultiplicativeCoefficient gainError r
    = Some (ComputeMultCoefADC1410 cvt gainError (Spec.isHigh r)) /\
  ComputeMultCoefADC1410 cvt gainError (Spec.isHigh r) = z mod 2 ^ 18.
Proof.
  intros Hz Hr.
  unfold Spec.computeMultiplicativeCoefficient, ComputeMultCoefADC1410.
  rewrite Hz. cbn [option_map]. cbv zeta.
  rewrite multScaled_fval in Hz. unfold mult_fval in *.
  rewrite (rounded_coef cvt _ z Hz Hr).
  split; [reflexivity|]. rewrite mask18_keep18. apply keep18_mod.
Qed.

Lemma mult_coef_matches_formula_witness :
  Spec.computeMultiplicativeCoefficient (S754_zero false) Spec.Low
    = Some (ComputeMultCoefADC1410 cvt_arm (S754_zero false) false) /\
  ComputeMultCoefADC1410 cvt_arm (S754_zero false) false = 68813 mod 2 ^ 18.
Proof.
  apply (mult_coef_matches_formula cvt_arm (S754_zero false) Spec.Low 68813).
  - vm_compute. reflexivity.
  - unfold INT32_MIN, INT32_MAX. lia.
Defined.

(** C1 as stated fails outside the range of [int32_t]: at gain error
    40000.0 and low gain the rounded value is 2752580864, above 2^31 - 1;
    the formula gives its low 18 bits, 0x10D00, the code gives 0 on x86
    and 0x3FFFF on ARM. *)
Lemma mult_coef_out_of_range_counterexample :
  Spec.roundHalfUp (Spec.multScaled (float_of_int 40000) Spec.Low)
    = Some 2752580864 /\
  Spec.computeMultiplicativeCoefficient (float_of_int 40000) Spec.Low
    = Some 0x10D00 /\
  ComputeMultCoefADC1410 cvt_x86 (float_of_int 40000) false = 0 /\
  ComputeMultCoefADC1410 cvt_arm (float_of_int 40000) false = 0x3FFFF.
Proof. vm_compute. repeat split; reflexivity. Qed.

(** C2 (amended).  For every offset error and gain range for which the
    rounded value trunc(Scaled + 1/2) is a finite number that fits a
    signed 32-bit integer, [ComputeAddCoefADC1410] returns that value
    masked with 0x3FFFF (its residue modulo 2^18).  Scaled is
    (offsetError / idealFullScale) * 2^17 with idealFullScale 25.0 (low
    gain) or 1.0 (high gain) and no trim ratio, evaluated in double
    precision and narrowed to single precision; rounding and mask are
    those of the multiplicative path. *)
Theorem add_coef_matches_formula cvt offsetError r z :
  Spec.roundHalfUp (Spec.addScaled offsetError r) = Some z ->
  INT32_MIN <= z <= INT32_MAX ->
  Spec.computeAdditiveCoefficient offsetError r
    = Some (ComputeAddCoefADC1410 cvt offsetError (Spec.isHigh r)) /\
  ComputeAddCoefADC1410 cvt offsetError (Spec.isHigh r) = z mod 2 ^ 18.
Proof.
  intros Hz Hr.
  unfold Spec.computeAdditiveCoefficient, ComputeAddCoefADC1410.
  rewrite Hz. cbn [option_map]. cbv zeta.
  rewrite addScaled_fval in Hz. unfold add_fval in *.
  rewrite (rounded_coef cvt _ z Hz Hr).
  split; [reflexivity|]. rewrite mask18_keep18. apply keep18_mod.
Qed.

Lemma add_coef_matches_formula_witness :
  Spec.computeAdditiveCoefficient (float_of_int (-1)) Spec.Low
    = Some (ComputeAddCoefADC1410 cvt_arm (float_of_int (-1)) false) /\
  ComputeAddCoefADC1410 cvt_arm (float_of_int (-1)) false = (-5242) mod 2 ^ 18.
Proof.
  apply (add_coef_matches_formula cvt_arm (float_of_int (-1)) Spec.Low (-5242)).
  - vm_compute. reflexivity.
  - unfold INT32_MIN, INT32_MAX. lia.
Defined.

(** C2 as stated fails outside the range of [int32_t]: at offset error
    20000.5 and high gain the rounded value is 2621505536, above
    2^31 - 1; the formula gives its low 18 bits, 0x10000, the code gives
    0 on x86 and 0x3FFFF on ARM. *)
Lemma add_coef_out_of_range_counterexample :
  Spec.roundHalfUp (Spec.addScaled (float_dyadic 40001 (-1)) Spec.High)
    = Some 2621505536 /\
  Spec.computeAdditiveCoefficient (float_dyadic 40001 (-1)) Spec.High
    = Some 0x10000 /\
  ComputeAddCoefADC1410 cvt_x86 (float_dyadic 40001 (-1)) true = 0 /\
  ComputeAddCoefADC1410 cvt_arm (float_dyadic 40001 (-1)) true = 0x3FFFF.
Proof. vm_compute. repeat split; reflexivity. Qed.

(** C3 (amended).  At gain error 0.0 (of either sign) the multiplicative
    coefficient is 68813, printed 0x10CCD, for low gain and 71172,
    printed 0x11604, for high gain; at offset error 0.0 the additive
    coefficient is 0, printed 0x00000, for both gain ranges. *)
Theorem known_values_at_zero cvt s :
  ComputeMultCoefADC1410 cvt (S754_zero s) false = 68813 /\
  render_coef (ComputeMultCoefADC1410 cvt (S754_zero s) false) = "0x10CCD" /\
  ComputeMultCoefADC1410 cvt (S754_zero s) true = 71172 /\
  render_coef (ComputeMultCoefADC1410 cvt (S754_zero s) true) = "0x11604" /\
  (forall fHighGain,
     ComputeAddCoefADC1410 cvt (S754_zero s) fHighGain = 0 /\
     render_coef (ComputeAddCoefADC1410 cvt (S754_zero s) fHighGain) = "0x00000").
Proof.
  split; [destruct s; vm_compute; reflexivity|].
  split; [destruct s; vm_compute; reflexivity|].
  split; [destruct s; vm_compute; reflexivity|].
  split; [destruct s; vm_compute; reflexivity|].
  intros fHighGain.
  split; destruct s, fHighGain; vm_compute; reflexivity.
Qed.

(** C3 as stated fails: 68813 is printed 0x10CCD, not 0x10C8D, and the
    high-gain value is 71172 (0x11604), not 71197 (0x115DD). *)
Lemma known_values_counterexample :
  render_coef (ComputeMultCoefADC1410 cvt_arm (S754_zero false) false)
    <> "0x10C8D" /\
  ComputeMultCoefADC1410 cvt_arm (S754_zero false) true <> 71197 /\
  render_coef (ComputeMultCoefADC1410 cvt_arm (S754_zero false) true)
    <> "0x115DD".
Proof. vm_compute. repeat split; discriminate. Qed.

(** C4.  Both functions are total, and for every input, NaN, infinities
    and out-of-range values included, and either gain range, whatever
    the target delivers for an unrepresentable conversion, they return a
    value in [0, 0x3FFFF]: no bit at position 18 or above is set. *)
Theorem coef_results_fit_18_bits cvt x fHighGain :
  (0 <= ComputeMultCoefADC1410 cvt x fHighGain <= 0x3FFFF /\
   forall i, 18 <= i ->
     Z.testbit (ComputeMultCoefADC1410 cvt x fHighGain) i = false) /\
  (0 <= ComputeAddCoefADC1410 cvt x fHighGain <= 0x3FFFF /\
   forall i, 18 <= i ->
     Z.testbit (ComputeAddCoefADC1410 cvt x fHighGain) i = false).
Proof.
  unfold ComputeMultCoefADC1410, ComputeAddCoefADC1410. cbv zeta.
  repeat split; try apply keep18_range; intros i Hi; now apply keep18_high_bits.
Qed.

(* ================================================================== *)
(** ** The report                                                      *)
(* ================================================================== *)

(** The world after printing [ls] and issuing the reads [rs]. *)
Lemma print_lines_eq ls : forall w,
  print_lines ls w =
  (tt, {| dpmutilfVerbose := dpmutilfVerbose w;
          stdout := (stdout w ++ ls)%list;
          bus_reads := bus_reads w |}).
Proof.
  induction ls as [|l ls IH]; intros w.
  - destruct w; cbn. rewrite app_nil_r. reflexivity.
  - cbn [print_lines]. unfold bind, printf. rewrite IH. cbn.
    rewrite <- app_assoc. reflexivity.
Qed.

Section Report.

Variable cvt : spec_float -> Z.
Variable SyzygyI2cRead : Z -> Z -> Z -> Z -> bool * ZMOD_ADC_CAL * Z.
Variables addrAdcFactCalStart addrAdcUserCalStart sizeof_ZMOD_ADC_CAL : Z.
Variable strftime_local : Z -> option string.
Variable fmt_f : spec_float -> string.
Variables fdI2cDev addrI2cSlave : Z.

Local Abbreviation run :=
  (FDisplayZmodADCCal cvt SyzygyI2cRead addrAdcFactCalStart addrAdcUserCalStart
     sizeof_ZMOD_ADC_CAL strftime_local fmt_f fdI2cDev addrI2cSlave).
Local Abbreviation readFact :=
  {| read_slave := addrI2cSlave; read_addr := addrAdcFactCalStart;
     read_len := sizeof_ZMOD_ADC_CAL |}.
Local Abbreviation readUser :=
  {| read_slave := addrI2cSlave; read_addr := addrAdcUserCalStart;
     read_len := sizeof_ZMOD_ADC_CAL |}.
Local Abbreviation errors := (error_lines sizeof_ZMOD_ADC_CAL).
Local Abbreviation region := (region_lines cvt strftime_local fmt_f).

(** The factory read fails: the notice, and nothing else. *)
Lemma run_factory_fails w adcal cbRead :
  SyzygyI2cRead fdI2cDev addrI2cSlave addrAdcFactCalStart sizeof_ZMOD_ADC_CAL
    = (false, adcal, cbRead) ->
  run w =
  (false, {| dpmutilfVerbose := dpmutilfVerbose w;
             stdout := (stdout w ++ errors "factory" addrI2cSlave cbRead)%list;
             bus_reads := (bus_reads w ++ [readFact])%list |}).
Proof.
  intros H. unfold FDisplayZmodADCCal, call_SyzygyI2cRead, bind, log_read, ret.
  rewrite H. cbn [negb]. rewrite print_lines_eq. reflexivity.
Qed.

(** The factory read succeeds and the user read fails. *)
Lemma run_user_fails w adcal1 cb1 adcal2 cb2 :
  SyzygyI2cRead fdI2cDev addrI2cSlave addrAdcFactCalStart sizeof_ZMOD_ADC_CAL
    = (true, adcal1, cb1) ->
  SyzygyI2cRead fdI2cDev addrI2cSlave addrAdcUserCalStart sizeof_ZMOD_ADC_CAL
    = (false, adcal2, cb2) ->
  run w =
  (false, {| dpmutilfVerbose := dpmutilfVerbose w;
             stdout := (stdout w
                        ++ region "    Factory Calibration:   " adcal1
                        ++ errors "user" addrI2cSlave cb2)%list;
             bus_reads := (bus_reads w ++ [readFact; readUser])%list |}).
Proof.
  intros H1 H2. unfold FDisplayZmodADCCal, call_SyzygyI2cRead, bind, log_read, ret.
  rewrite H1. cbn [negb]. rewrite print_lines_eq. cbn [stdout bus_reads dpmutilfVerbose].
  rewrite H2. cbn [negb]. rewrite print_lines_eq. cbn [stdout bus_reads dpmutilfVerbose].
  rewrite <- !app_assoc. reflexivity.
Qed.

(** Both reads succeed. *)
Lemma run_succeeds w adcal1 cb1 adcal2 cb2 :
  SyzygyI2cRead fdI2cDev addrI2cSlave addrAdcFactCalStart sizeof_ZMOD_ADC_CAL
    = (true, adcal1, cb1) ->
  SyzygyI2cRead fdI2cDev addrI2cSlave addrAdcUserCalStart sizeof_ZMOD_ADC_CAL
    = (true, adcal2, cb2) ->
  run w =
  (true, {| dpmutilfVerbose := dpmutilfVerbose w;
            stdout := (stdout w
                       ++ region "    Factory Calibration:   " adcal1
                       ++ region "    User Calibration:      " adcal2)%list;
            bus_reads := (bus_reads w ++ [readFact; readUser])%list |}).
Proof.
  intros H1 H2. unfold FDisplayZmodADCCal, call_SyzygyI2cRead, bind, log_read, ret.
  rewrite H1. cbn [negb]. rewrite print_lines_eq. cbn [stdout bus_reads dpmutilfVerbose].
  rewrite H2. cbn [negb]. rewrite print_lines_eq. cbn [stdout bus_reads dpmutilfVerbose].
  rewrite <- !app_assoc. reflexivity.
Qed.

End Report.

(** C7 (amended).  The user region is read and reported only after the
    factory region was read and reported.  When the factory read fails
    the report is the failure notice alone: no line of either region is
    printed, the user region is not read, and the function returns
    fFalse.  When both reads succeed the user region contributes its 8
    raw and 8 coefficient lines after those of the factory region. *)
Theorem regions_read_in_sequence cvt read fact user size strf fmtf fd slave w :
  (forall adcal cbRead,
     read fd slave fact size = (false, adcal, cbRead) ->
     FDisplayZmodADCCal cvt read fact user size strf fmtf fd slave w =
     (false, {| dpmutilfVerbose := dpmutilfVerbose w;
                stdout := (stdout w
                  ++ error_lines size "factory" slave cbRead)%list;
                bus_reads := (bus_reads w ++
                  [{| read_slave := slave; read_addr := fact;
                      read_len := size |}])%list |}))
  /\
  (forall adcal1 cb1 adcal2 cb2,
     read fd slave fact size = (true, adcal1, cb1) ->
     read fd slave user size = (true, adcal2, cb2) ->
     FDisplayZmodADCCal cvt read fact user size strf fmtf fd slave w =
     (true, {| dpmutilfVerbose := dpmutilfVerbose w;
               stdout := (stdout w
                 ++ region_lines cvt strf fmtf "    Factory Calibration:   " adcal1
                 ++ date_lines strf "    User Calibration:      " adcal2
                 ++ raw_lines fmtf adcal2 ++ coef_lines cvt adcal2)%list;
               bus_reads := (bus_reads w ++
                 [{| read_slave := slave; read_addr := fact; read_len := size |};
                  {| read_slave := slave; read_addr := user;
                     read_len := size |}])%list |})
     /\ List.length (raw_lines fmtf adcal2) = 8%nat
     /\ List.length (coef_lines cvt adcal2) = 8%nat).
Proof.
  split.
  - intros adcal cbRead H. now apply run_factory_fails with (adcal := adcal).
  - intros adcal1 cb1 adcal2 cb2 H1 H2.
    split; [|split; reflexivity].
    now apply run_succeeds with (cb1 := cb1) (cb2 := cb2).
Qed.

Lemma regions_read_in_sequence_witness :
  FDisplayZmodADCCal cvt_arm Sample.read_factory_fails
    Sample.factAddr Sample.userAddr Sample.size Sample.strftime Sample.fmt_f
    3 0x30 Sample.w0 =
  (false, {| dpmutilfVerbose := false;
             stdout := error_lines Sample.size "factory" 0x30 3;
             bus_reads := [{| read_slave := 0x30; read_addr := Sample.factAddr;
                              read_len := Sample.size |}] |}).
Proof.
  apply (proj1 (regions_read_in_sequence cvt_arm
           Sample.read_factory_fails
           Sample.factAddr Sample.userAddr Sample.size Sample.strftime
           Sample.fmt_f 3 0x30 Sample.w0) (Sample.record 0 S754_nan) 3).
  reflexivity.
Defined.

(** C7 as stated fails: on a bus where the factory read fails and the
    user read would succeed, the report is the two lines of the failure
    notice; the user region is never read and none of its lines is
    printed. *)
Lemma factory_failure_blocks_user_region :
  fst (fst (Sample.read_factory_fails 3 0x30 Sample.userAddr Sample.size))
    = true /\
  FDisplayZmodADCCal cvt_arm Sample.read_factory_fails
    Sample.factAddr Sample.userAddr Sample.size Sample.strftime Sample.fmt_f
    3 0x30 Sample.w0 =
  (false, {| dpmutilfVerbose := false;
             stdout :=
               [ "Error: failed to read ZmodADC factory calibration from 0x30" ++ nl;
                 "Error: received 3 of 128 bytes" ++ nl ];
             bus_reads := [{| read_slave := 0x30; read_addr := Sample.factAddr;
                              read_len := Sample.size |}] |}).
Proof. vm_compute. split; reflexivity. Qed.

(** A run in which both regions read in full: 17 lines per region (the
    date, 8 raw values, 8 coefficients), two bus reads, fTrue. *)
Example full_report_on_success :
  fst (FDisplayZmodADCCal cvt_arm Sample.read_ok
         Sample.factAddr Sample.userAddr Sample.size Sample.strftime
         Sample.fmt_f 3 0x30 Sample.w0) = true /\
  List.length
    (stdout (snd (FDisplayZmodADCCal cvt_arm
                    Sample.read_ok
                    Sample.factAddr Sample.userAddr Sample.size Sample.strftime
                    Sample.fmt_f 3 0x30 Sample.w0))) = 34%nat /\
  bus_reads (snd (FDisplayZmodADCCal cvt_arm
                    Sample.read_ok
                    Sample.factAddr Sample.userAddr Sample.size Sample.strftime
                    Sample.fmt_f 3 0x30 Sample.w0))
  = [ {| read_slave := 0x30; read_addr := Sample.factAddr;
         read_len := Sample.size |};
      {| read_slave := 0x30; read_addr := Sample.userAddr;
         read_len := Sample.size |} ].
Proof. vm_compute. repeat split; reflexivity. Qed.

(** C8.  Whenever the transport reports failure or transfers fewer bytes
    than the record size, for the factory region or, after a successful
    factory read, for the user region, the function returns fFalse after
    printing the notice with the received and the expected byte counts;
    nothing of the failed region's buffer is printed and no coefficient
    of it is computed. *)
Theorem short_read_reports_counts cvt dev fact user size strf fmtf fd slave w :
  (Transport.failed (dev slave fact size) = true
   \/ Transport.transferred (dev slave fact size) < size ->
   FDisplayZmodADCCal cvt (Transport.SyzygyI2cRead dev) fact user size
     strf fmtf fd slave w =
   (false, {| dpmutilfVerbose := dpmutilfVerbose w;
              stdout := (stdout w ++
                [ ("Error: failed to read ZmodADC factory calibration from 0x"
                     ++ fmt_X 2 slave ++ nl)%string;
                  ("Error: received "
                     ++ fmt_d (Transport.transferred (dev slave fact size))
                     ++ " of " ++ fmt_d size ++ " bytes" ++ nl)%string ])%list;
              bus_reads := (bus_reads w ++
                [{| read_slave := slave; read_addr := fact;
                    read_len := size |}])%list |}))
  /\
  (Transport.failed (dev slave fact size) = false ->
   size <= Transport.transferred (dev slave fact size) ->
   Transport.failed (dev slave user size) = true
   \/ Transport.transferred (dev slave user size) < size ->
   FDisplayZmodADCCal cvt (Transport.SyzygyI2cRead dev) fact user size
     strf fmtf fd slave w =
   (false, {| dpmutilfVerbose := dpmutilfVerbose w;
              stdout := (stdout w
                ++ region_lines cvt strf fmtf "    Factory Calibration:   "
                     (Transport.data (dev slave fact size))
                ++ [ ("Error: failed to read ZmodADC user calibration from 0x"
                        ++ fmt_X 2 slave ++ nl)%string;
                     ("Error: received "
                        ++ fmt_d (Transport.transferred (dev slave user size))
                        ++ " of " ++ fmt_d size ++ " bytes" ++ nl)%string ])%list;
              bus_reads := (bus_reads w ++
                [{| read_slave := slave; read_addr := fact; read_len := size |};
                 {| read_slave := slave; read_addr := user;
                    read_len := size |}])%list |})).
Proof.
  assert (Hfail : forall addr,
    Transport.failed (dev slave addr size) = true
    \/ Transport.transferred (dev slave addr size) < size ->
    Transport.SyzygyI2cRead dev fd slave addr size =
    (false, Transport.data (dev slave addr size),
     Transport.transferred (dev slave addr size))).
  { intros addr H. unfold Transport.SyzygyI2cRead. cbv zeta.
    replace (negb (Transport.failed (dev slave addr size))
             && (size <=? Transport.transferred (dev slave addr size)))
      with false; [reflexivity|].
    symmetry. apply andb_false_iff. destruct H as [H|H].
    - left. rewrite H. reflexivity.
    - right. apply Z.leb_gt. exact H. }
  split.
  - intros H.
    apply run_factory_fails with (adcal := Transport.data (dev slave fact size)).
    now apply Hfail.
  - intros Hok Hlen H.
    apply run_user_fails with (cb1 := Transport.transferred (dev slave fact size))
                              (adcal2 := Transport.data (dev slave user size)).
    + unfold Transport.SyzygyI2cRead. cbv zeta. rewrite Hok.
      replace (size <=? Transport.transferred (dev slave fact size)) with true
        by (symmetry; apply Z.leb_le; exact Hlen).
      reflexivity.
    + now apply Hfail.
Qed.

Lemma short_read_reports_counts_witness :
  FDisplayZmodADCCal cvt_arm (Transport.SyzygyI2cRead Sample.dev_user_short)
    Sample.factAddr Sample.userAddr Sample.size Sample.strftime Sample.fmt_f
    3 0x30 Sample.w0 =
  (false, {| dpmutilfVerbose := false;
             stdout := (region_lines cvt_arm Sample.strftime Sample.fmt_f
                          "    Factory Calibration:   "
                          (Sample.record 1579046400 (S754_zero false))
                ++ [ ("Error: failed to read ZmodADC user calibration from 0x30"
                        ++ nl)%string;
                     ("Error: received 64 of 128 bytes" ++ nl)%string ])%list;
             bus_reads := [{| read_slave := 0x30; read_addr := Sample.factAddr;
                              read_len := Sample.size |};
                           {| read_slave := 0x30; read_addr := Sample.userAddr;
                              read_len := Sample.size |}] |}).
Proof.
  apply (proj2 (short_read_reports_counts cvt_arm Sample.dev_user_short
           Sample.factAddr Sample.userAddr Sample.size Sample.strftime
           Sample.fmt_f 3 0x30 Sample.w0)).
  - reflexivity.
  - simpl. unfold Sample.size. lia.
  - right. simpl. unfold Sample.size. lia.
Defined.

(** C10.  The verbosity flag is never read and never written: starting
    [FDisplayZmodADCCal] with the flag set to any value changes neither
    the result, nor the report, nor the bus reads, and the coefficient
    functions do not see the world at all. *)
Theorem verbose_flag_noninterference
    cvt read fact user size strf fmtf fd slave b w x fHighGain :
  FDisplayZmodADCCal cvt read fact user size strf fmtf fd slave (set_verbose b w)
  = (fst (FDisplayZmodADCCal cvt read fact user size strf fmtf fd slave w),
     set_verbose b
       (snd (FDisplayZmodADCCal cvt read fact user size strf fmtf fd slave w)))
  /\ ret (ComputeMultCoefADC1410 cvt x fHighGain) (set_verbose b w)
     = (ComputeMultCoefADC1410 cvt x fHighGain, set_verbose b w)
  /\ ret (ComputeAddCoefADC1410 cvt x fHighGain) (set_verbose b w)
     = (ComputeAddCoefADC1410 cvt x fHighGain, set_verbose b w).
Proof.
  split; [|split; reflexivity].
  destruct (read fd slave fact size) as [[ok1 adcal1] cb1] eqn:H1.
  destruct ok1.
  - destruct (read fd slave user size) as [[ok2 adcal2] cb2] eqn:H2.
    destruct ok2.
    + rewrite !(run_succeeds cvt read fact user size strf fmtf fd slave _ _ _ _ _ H1 H2).
      reflexivity.
    + rewrite !(run_user_fails cvt read fact user size strf fmtf fd slave _ _ _ _ _ H1 H2).
      reflexivity.
  - rewrite !(run_factory_fails cvt read fact user size strf fmtf fd slave _ _ _ H1).
    reflexivity.
Qed.

(* ================================================================== *)
(** ** Further properties of the report                                *)
(* ================================================================== *)


Section ReportFacts.

Variable cvt : spec_float -> Z.
Variable read : Z -> Z -> Z -> Z -> bool * ZMOD_ADC_CAL * Z.
Variables fact user size : Z.
Variable strf : Z -> option string.
Variable fmtf : spec_float -> string.
Variables fd slave : Z.

Lemma raw_lines_length adcal : List.length (raw_lines fmtf adcal) = 8%nat.
Proof. reflexivity. Qed.

Lemma coef_lines_length adcal : List.length (coef_lines cvt adcal) = 8%nat.
Proof. reflexivity. Qed.

Lemma region_lines_length label adcal :
  List.length (region_lines cvt strf fmtf label adcal) =
  (match strf (date adcal) with Some _ => 17 | None => 16 end)%nat.
Proof.
  unfold region_lines, date_lines.
  destruct (strf (date adcal)); rewrite !length_app; reflexivity.
Qed.

End ReportFacts.

(** X1.  [FDisplayZmodADCCal] issues one read transaction for the
    factory region, and one for the user region exactly when the factory
    read succeeded: each for the same slave and for
    [sizeof(ZMOD_ADC_CAL)] bytes, in this order, none repeated. *)
Theorem bus_reads_protocol cvt read fact user size strf fmtf fd slave w :
  bus_reads
    (snd (FDisplayZmodADCCal cvt read fact user size strf fmtf fd slave w)) =
  (bus_reads w ++
   {| read_slave := slave; read_addr := fact; read_len := size |} ::
   (if fst (fst (read fd slave fact size))
    then [{| read_slave := slave; read_addr := user; read_len := size |}]
    else []))%list.
Proof.
  destruct (read fd slave fact size) as [[ok1 a1] c1] eqn:E1.
  destruct ok1; cbn [fst].
  - destruct (read fd slave user size) as [[ok2 a2] c2] eqn:E2.
    destruct ok2.
    + erewrite run_succeeds by eassumption. reflexivity.
    + erewrite run_user_fails by eassumption. reflexivity.
  - erewrite run_factory_fails by eassumption. reflexivity.
Qed.

(** X2.  [FDisplayZmodADCCal] returns [fTrue] exactly when both reads
    succeed. *)
Theorem success_iff_both_reads cvt read fact user size strf fmtf fd slave w :
  fst (FDisplayZmodADCCal cvt read fact user size strf fmtf fd slave w) =
  fst (fst (read fd slave fact size)) && fst (fst (read fd slave user size)).
Proof.
  destruct (read fd slave fact size) as [[ok1 a1] c1] eqn:E1.
  destruct ok1; cbn [fst].
  - destruct (read fd slave user size) as [[ok2 a2] c2] eqn:E2.
    destruct ok2.
    + erewrite run_succeeds by eassumption. reflexivity.
    + erewrite run_user_fails by eassumption. reflexivity.
  - erewrite run_factory_fails by eassumption. reflexivity.
Qed.

(** X3.  [FDisplayZmodADCCal] only appends to the output, and the
    number of its [printf] calls (the entries of [stdout], one per
    call) is fixed by the two reads: 2 calls when the factory read
    fails; 16 calls for a region that was read, and one more, for the
    date, unless [strftime] returns 0; and 2 calls more when the user
    read fails.  The count is of calls, not of lines: the date [printf]
    writes an empty line before the date line. *)
Theorem report_printf_count cvt read fact user size strf fmtf fd slave w :
  let d (r : bool * ZMOD_ADC_CAL * Z) : nat :=
    match strf (date (snd (fst r))) with Some _ => 1%nat | None => 0%nat end in
  let rf := read fd slave fact size in
  let ru := read fd slave user size in
  exists out,
    stdout (snd (FDisplayZmodADCCal cvt read fact user size strf fmtf fd slave w))
      = (stdout w ++ out)%list /\
    List.length out =
      (if fst (fst rf)
       then if fst (fst ru) then 32 + d rf + d ru else 18 + d rf
       else 2)%nat.
Proof.
  cbv zeta.
  destruct (read fd slave fact size) as [[ok1 a1] c1] eqn:E1.
  destruct ok1; cbn [fst snd].
  - destruct (read fd slave user size) as [[ok2 a2] c2] eqn:E2.
    destruct ok2; cbn [fst snd].
    + erewrite run_succeeds by eassumption. cbn [snd stdout].
      eexists; split; [reflexivity|].
      rewrite length_app, !region_lines_length.
      destruct (strf (date a1)), (strf (date a2)); reflexivity.
    + erewrite run_user_fails by eassumption. cbn [snd stdout].
      eexists; split; [reflexivity|].
      rewrite length_app, !region_lines_length.
      destruct (strf (date a1)); reflexivity.
  - erewrite run_factory_fails by eassumption. cbn [snd stdout].
    eexists; split; [reflexivity|]. reflexivity.
Qed.

(** X4.  When the factory region is read and the user read fails, the
    factory report is printed in full (date, 8 raw values, 8
    coefficients), followed by the user failure notice with the count
    the failed read stored; nothing of the user record is printed and
    the result is [fFalse]. *)
Theorem user_failure_keeps_factory_report
    cvt read fact user size strf fmtf fd slave w a1 c1 a2 c2 :
  read fd slave fact size = (true, a1, c1) ->
  read fd slave user size = (false, a2, c2) ->
  FDisplayZmodADCCal cvt read fact user size strf fmtf fd slave w =
  (false, {| dpmutilfVerbose := dpmutilfVerbose w;
             stdout := (stdout w
               ++ date_lines strf "    Factory Calibration:   " a1
               ++ raw_lines fmtf a1 ++ coef_lines cvt a1
               ++ error_lines size "user" slave c2)%list;
             bus_reads := (bus_reads w ++
               [{| read_slave := slave; read_addr := fact; read_len := size |};
                {| read_slave := slave; read_addr := user;
                   read_len := size |}])%list |}).
Proof.
  intros H1 H2. erewrite run_user_fails by eassumption.
  unfold region_lines. rewrite <- !app_assoc. reflexivity.
Qed.

Lemma user_failure_keeps_factory_report_witness :
  FDisplayZmodADCCal cvt_x86 Sample.read_user_fails
    Sample.factAddr Sample.userAddr Sample.size Sample.strftime Sample.fmt_f
    3 0x30 Sample.w0 =
  (false, {| dpmutilfVerbose := false;
             stdout := (date_lines Sample.strftime "    Factory Calibration:   "
                          (Sample.record 1579046400 (S754_zero false))
               ++ raw_lines Sample.fmt_f (Sample.record 1579046400 (S754_zero false))
               ++ coef_lines cvt_x86 (Sample.record 1579046400 (S754_zero false))
               ++ error_lines Sample.size "user" 0x30 0)%list;
             bus_reads := [{| read_slave := 0x30; read_addr := Sample.factAddr;
                              read_len := Sample.size |};
                           {| read_slave := 0x30; read_addr := Sample.userAddr;
                              read_len := Sample.size |}] |}).
Proof.
  exact (user_failure_keeps_factory_report cvt_x86 Sample.read_user_fails
           Sample.factAddr Sample.userAddr Sample.size Sample.strftime
           Sample.fmt_f 3 0x30 Sample.w0
           (Sample.record 1579046400 (S754_zero false)) Sample.size
           (Sample.record 0 S754_nan) 0 eq_refl eq_refl).
Defined.

(** *** The coefficient lines *)

Lemma digits_of_step base k n acc :
  digits_of base (S k) n acc =
  if n <? base then n :: acc
  else digits_of base k (n / base) (n mod base :: acc).
Proof. reflexivity. Qed.

(** [%05X] of a number below 16^5: its five base-16 digits. *)
Lemma fmt_X_5 n :
  0 <= n < 16 ^ 5 ->
  fmt_X 5 n =
  string_of_list_ascii
    (map digit_char
       [n / 65536; n / 4096 mod 16; n / 256 mod 16; n / 16 mod 16; n mod 16]).
Proof.
  intros Hn. change (16 ^ 5) with 1048576 in Hn.
  replace (n / 65536) with (n / 16 / 16 / 16 / 16)
    by (rewrite !Z.div_div by lia; reflexivity).
  replace (n / 4096) with (n / 16 / 16 / 16)
    by (rewrite !Z.div_div by lia; reflexivity).
  replace (n / 256) with (n / 16 / 16)
    by (rewrite !Z.div_div by lia; reflexivity).
  assert (H1 : 0 <= n / 16) by (apply Z.div_pos; lia).
  assert (H2 : 0 <= n / 16 / 16) by (apply Z.div_pos; lia).
  assert (H3 : 0 <= n / 16 / 16 / 16) by (apply Z.div_pos; lia).
  assert (H4 : n / 16 / 16 / 16 / 16 < 16).
  { rewrite !Z.div_div by lia. apply Z.div_lt_upper_bound; lia. }
  assert (H4' : 0 <= n / 16 / 16 / 16 / 16) by (apply Z.div_pos; lia).
  unfold fmt_X. do 2 f_equal.
  change 64%nat with (S (S (S (S (S 59))))).
  rewrite digits_of_step.
  destruct (n <? 16) eqn:E0.
  { apply Z.ltb_lt in E0. cbn [zero_pad List.length Nat.sub repeat app].
    rewrite (Z.mod_small n 16), (Z.div_small n 16) by lia. reflexivity. }
  apply Z.ltb_ge in E0. rewrite digits_of_step.
  destruct (n / 16 <? 16) eqn:E1.
  { apply Z.ltb_lt in E1. cbn [zero_pad List.length Nat.sub repeat app].
    rewrite (Z.mod_small (n / 16) 16), (Z.div_small (n / 16) 16) by lia.
    reflexivity. }
  apply Z.ltb_ge in E1. rewrite digits_of_step.
  destruct (n / 16 / 16 <? 16) eqn:E2.
  { apply Z.ltb_lt in E2. cbn [zero_pad List.length Nat.sub repeat app].
    rewrite (Z.mod_small (n / 16 / 16) 16), (Z.div_small (n / 16 / 16) 16) by lia.
    reflexivity. }
  apply Z.ltb_ge in E2. rewrite digits_of_step.
  destruct (n / 16 / 16 / 16 <? 16) eqn:E3.
  { apply Z.ltb_lt in E3. cbn [zero_pad List.length Nat.sub repeat app].
    rewrite (Z.mod_small (n / 16 / 16 / 16) 16),
      (Z.div_small (n / 16 / 16 / 16) 16) by lia.
    reflexivity. }
  apply Z.ltb_ge in E3. rewrite digits_of_step.
  replace (n / 16 / 16 / 16 / 16 <? 16) with true
    by (symmetry; apply Z.ltb_lt; exact H4).
  reflexivity.
Qed.

Lemma render_coef_18 c :
  0 <= c <= 0x3FFFF ->
  render_coef c =
  "0x" ++ string_of_list_ascii
    (map digit_char
       [c / 65536; c / 4096 mod 16; c / 256 mod 16; c / 16 mod 16; c mod 16])
  /\ 0 <= c / 65536 <= 3
  /\ String.length (render_coef c) = 7%nat.
Proof.
  intros Hc. unfold render_coef, uint32_of_int32.
  rewrite Z.mod_small by (change (2 ^ 32) with 4294967296; lia).
  rewrite fmt_X_5 by (change (16 ^ 5) with 1048576; lia).
  split; [reflexivity|]. split; [|reflexivity].
  Z.div_mod_to_equations. lia.
Qed.

(** X5.  Whatever the calibration value and the target, a coefficient
    is printed as [0x] followed by exactly five hexadecimal digits, the
    base-16 digits of the value, the first of them at most 3. *)
Theorem coef_rendered_as_5_hex_digits cvt x fHighGain :
  let digits c :=
    [c / 65536; c / 4096 mod 16; c / 256 mod 16; c / 16 mod 16; c mod 16] in
  let m := ComputeMultCoefADC1410 cvt x fHighGain in
  let a := ComputeAddCoefADC1410 cvt x fHighGain in
  (render_coef m = "0x" ++ string_of_list_ascii (map digit_char (digits m))
   /\ 0 <= m / 65536 <= 3 /\ String.length (render_coef m) = 7%nat) /\
  (render_coef a = "0x" ++ string_of_list_ascii (map digit_char (digits a))
   /\ 0 <= a / 65536 <= 3 /\ String.length (render_coef a) = 7%nat).
Proof.
  cbv zeta. split; apply render_coef_18; apply keep18_range.
Qed.


(* ================================================================== *)
(** ** Further properties of the rounding and of the 18-bit encoding  *)
(* ================================================================== *)


(** An 18-bit two's complement number is recovered from its
    encoding. *)
Lemma keep18_signed v :
  - 2 ^ 17 <= v < 2 ^ 17 ->
  Z.testbit (keep18 v) 17 = (v <? 0) /\
  keep18 v - (if Z.testbit (keep18 v) 17 then 2 ^ 18 else 0) = v.
Proof.
  intros Hv. rewrite keep18_mod.
  change (2 ^ 17) with 131072 in Hv.
  assert (Hb : forall a, Z.b2z (Z.testbit a 17) = (a / 131072) mod 2)
    by (intros a; apply (Z.testbit_spec' a 17); lia).
  destruct (v <? 0) eqn:E.
  - apply Z.ltb_lt in E.
    assert (Hm : v mod 2 ^ 18 = v + 262144)
      by (change (2 ^ 18) with 262144; Z.div_mod_to_equations; lia).
    rewrite Hm. specialize (Hb (v + 262144)).
    assert (Hd : (v + 262144) / 131072 = 1) by (Z.div_mod_to_equations; lia).
    rewrite Hd in Hb. change (1 mod 2) with 1 in Hb.
    destruct (Z.testbit (v + 262144) 17); [|discriminate].
    split; [reflexivity|]. change (2 ^ 18) with 262144. lia.
  - apply Z.ltb_ge in E.
    rewrite Z.mod_small by (change (2 ^ 18) with 262144; lia).
    specialize (Hb v).
    rewrite Z.div_small in Hb by lia. change (0 mod 2) with 0 in Hb.
    destruct (Z.testbit v 17); [discriminate|].
    split; [reflexivity|lia].
Qed.

(** X6.  When the rounded value lies in [-2^17, 2^17), the 18 bits
    returned are its two's complement encoding: bit 17 is set exactly
    when the value is negative, and sign-extending the result from bit
    17 gives the rounded value back. *)
Theorem coef_sign_extension cvt x fHighGain :
  (forall q,
     SF2Q (mult_fval x fHighGain) = Some q ->
     - 2 ^ 17 <= Qtrunc (q + (1 # 2)) < 2 ^ 17 ->
     let c := ComputeMultCoefADC1410 cvt x fHighGain in
     Z.testbit c 17 = (Qtrunc (q + (1 # 2)) <? 0) /\
     c - (if Z.testbit c 17 then 2 ^ 18 else 0) = Qtrunc (q + (1 # 2))) /\
  (forall q,
     SF2Q (add_fval x fHighGain) = Some q ->
     - 2 ^ 17 <= Qtrunc (q + (1 # 2)) < 2 ^ 17 ->
     let c := ComputeAddCoefADC1410 cvt x fHighGain in
     Z.testbit c 17 = (Qtrunc (q + (1 # 2)) <? 0) /\
     c - (if Z.testbit c 17 then 2 ^ 18 else 0) = Qtrunc (q + (1 # 2))).
Proof.
  split; intros q Hq Hr; cbv zeta.
  - unfold ComputeMultCoefADC1410; cbv zeta. unfold mult_fval in *.
    rewrite (round_ival_exact cvt _ q Hq)
      by (unfold INT32_MIN, INT32_MAX;
          change (2 ^ 17) with 131072 in Hr; change (2 ^ 31) with 2147483648; lia).
    now apply keep18_signed.
  - unfold ComputeAddCoefADC1410; cbv zeta. unfold add_fval in *.
    rewrite (round_ival_exact cvt _ q Hq)
      by (unfold INT32_MIN, INT32_MAX;
          change (2 ^ 17) with 131072 in Hr; change (2 ^ 31) with 2147483648; lia).
    now apply keep18_signed.
Qed.

Lemma coef_sign_extension_witness :
  Z.testbit (ComputeAddCoefADC1410 cvt_x86 (float_of_int (-1)) false) 17
    = (-5242 <? 0) /\
  ComputeAddCoefADC1410 cvt_x86 (float_of_int (-1)) false
    - (if Z.testbit (ComputeAddCoefADC1410 cvt_x86 (float_of_int (-1)) false) 17
       then 2 ^ 18 else 0) = -5242.
Proof.
  apply (proj2 (coef_sign_extension cvt_x86 (float_of_int (-1)) false)
           (-10737418 # 2048)%Q).
  - vm_compute. reflexivity.
  - vm_compute. split; [discriminate|reflexivity].
Defined.

(** *** Truncation against floor and ceiling *)

Lemma Qtrunc_nonneg x : (0 <= x)%Q -> Qtrunc x = Qfloor x.
Proof.
  destruct x as [n d]. unfold Qle, Qtrunc, Qfloor. cbn [Qnum Qden].
  intros H. apply Z.quot_div_nonneg; lia.
Qed.

Lemma Qtrunc_neg x : (x < 0)%Q -> Qtrunc x = Qceiling x.
Proof.
  destruct x as [n d]. unfold Qlt, Qtrunc, Qceiling, Qfloor, Qopp.
  cbn [Qnum Qden]. intros H.
  rewrite <- (Z.opp_involutive n) at 1. rewrite Z.quot_opp_l by lia.
  f_equal. apply Z.quot_div_nonneg; lia.
Qed.

(** Truncation toward zero is monotone. *)
Lemma Qtrunc_le x y : (x <= y)%Q -> Qtrunc x <= Qtrunc y.
Proof.
  intros H.
  destruct (Qlt_le_dec x 0) as [Hx|Hx], (Qlt_le_dec y 0) as [Hy|Hy].
  - rewrite !Qtrunc_neg by assumption. now apply Qceiling_resp_le.
  - rewrite Qtrunc_neg, Qtrunc_nonneg by assumption.
    assert (Qceiling x <= Qceiling 0) by (apply Qceiling_resp_le; lra).
    assert (Qfloor 0 <= Qfloor y) by (apply Qfloor_resp_le; lra).
    change (Qceiling 0) with 0 in *. change (Qfloor 0) with 0 in *. lia.
  - exfalso. lra.
  - rewrite !Qtrunc_nonneg by assumption. now apply Qfloor_resp_le.
Qed.

(** X7.  The rounding of line 231 on the additive path: for
    [fval + 1/2 >= 0] the result is floor(fval + 1/2), the nearest
    integer, ties upward; for [fval + 1/2 < 0] it is
    ceiling(fval + 1/2), one above the nearest integer unless
    [fval + 1/2] is itself an integer. *)
Theorem add_rounding_of_negative_values cvt ca fHighGain q :
  SF2Q (add_fval ca fHighGain) = Some q ->
  INT32_MIN <= Qtrunc (q + (1 # 2)) <= INT32_MAX ->
  ((0 <= q + (1 # 2))%Q ->
   round_ival cvt (add_fval ca fHighGain) = Qfloor (q + (1 # 2)) /\
   ComputeAddCoefADC1410 cvt ca fHighGain = Qfloor (q + (1 # 2)) mod 2 ^ 18) /\
  ((q + (1 # 2) < 0)%Q ->
   round_ival cvt (add_fval ca fHighGain) = Qceiling (q + (1 # 2)) /\
   ComputeAddCoefADC1410 cvt ca fHighGain = Qceiling (q + (1 # 2)) mod 2 ^ 18).
Proof.
  intros Hq Hr.
  assert (H : round_ival cvt (add_fval ca fHighGain) = Qtrunc (q + (1 # 2)))
    by (unfold add_fval in *; exact (round_ival_exact cvt _ q Hq Hr)).
  unfold ComputeAddCoefADC1410; cbv zeta. rewrite H, keep18_mod.
  split; intros Hs.
  - rewrite Qtrunc_nonneg by assumption. split; reflexivity.
  - rewrite Qtrunc_neg by assumption. split; reflexivity.
Qed.

Lemma add_rounding_of_negative_values_witness :
  Qfloor ((-10737418 # 2048) + (1 # 2)) = -5243 /\
  round_ival cvt_x86 (add_fval (float_of_int (-1)) false) = -5242 /\
  ComputeAddCoefADC1410 cvt_x86 (float_of_int (-1)) false = (-5242) mod 2 ^ 18.
Proof.
  split; [reflexivity|].
  apply (add_rounding_of_negative_values cvt_x86 (float_of_int (-1)) false
           (-10737418 # 2048)%Q).
  - vm_compute. reflexivity.
  - vm_compute. split; discriminate.
  - reflexivity.
Defined.


(* ================================================================== *)
(** ** Magnitude bounds through the floating-point operations         *)
(* ================================================================== *)


Module Bnd.

Lemma pow2_nonneg k : 0 <= 2 ^ k.
Proof. apply Z.pow_nonneg; lia. Qed.

Lemma pow2_neg k : k < 0 -> 2 ^ k = 0.
Proof. intros H. apply Z.pow_neg_r; assumption. Qed.

(** A positive number below [2^k] forces [0 <= k]. *)
Lemma pow2_pos_exp m k : 0 < m -> m <= 2 ^ k -> 0 <= k.
Proof.
  intros Hm Hk. destruct (Z_lt_ge_dec k 0) as [Hn|]; [|lia].
  rewrite pow2_neg in Hk by assumption. lia.
Qed.

Lemma Zdigits2_le_pow2 m k : 0 < m -> m <= 2 ^ k -> Zdigits2 m <= k + 1.
Proof.
  intros Hm Hk. pose proof (pow2_pos_exp m k Hm Hk) as Hk0.
  apply Zdigits2_le_of_lt; try lia.
  rewrite pow2_split by lia. change (2 ^ 1) with 2.
  pose proof (pow2_gt0 k Hk0). lia.
Qed.

Lemma loc_roundtrip m l :
  shr_m (shr_record_of_loc m l) = m /\
  loc_of_shr_record (shr_record_of_loc m l) = l.
Proof. destruct l as [|[| |]]; split; reflexivity. Qed.

Lemma rne_exact m : round_nearest_even m loc_Exact = m.
Proof. reflexivity. Qed.

Section Format.

Variables prec emax : Z.
Hypothesis prec_gt_0 : 0 < prec.

Local Abbreviation fexp := (SpecFloat.fexp prec emax).
Local Abbreviation emin := (SpecFloat.emin prec emax).

(** The first shift of [binary_round_aux], for any location. *)
Lemma shr_fexp_any m e l :
  0 <= m ->
  (fexp (Zdigits2 m + e) <= e ->
   shr_fexp prec emax m e l = (shr_record_of_loc m l, e)) /\
  (e < fexp (Zdigits2 m + e) ->
   snd (shr_fexp prec emax m e l) = fexp (Zdigits2 m + e) /\
   shr_m (fst (shr_fexp prec emax m e l)) = m / 2 ^ (fexp (Zdigits2 m + e) - e) /\
   (l = loc_Exact -> m mod 2 ^ (fexp (Zdigits2 m + e) - e) = 0 ->
    loc_of_shr_record (fst (shr_fexp prec emax m e l)) = loc_Exact)).
Proof.
  intros Hm. split; intros H; unfold shr_fexp, shr.
  - destruct (fexp (Zdigits2 m + e) - e) eqn:E; try reflexivity; lia.
  - destruct (fexp (Zdigits2 m + e) - e) as [|n|n] eqn:E; try lia.
    cbn [fst snd]. rewrite iter_pos_eq.
    assert (Hrec : exists r0 s0, shr_record_of_loc m l = Build_shr_record m r0 s0
                     /\ (l = loc_Exact -> r0 = false /\ s0 = false)).
    { destruct l as [|[| |]]; simpl; eexists _, _; split; try reflexivity;
        intros; try discriminate; split; reflexivity. }
    destruct Hrec as (r0 & s0 & -> & Hex).
    destruct (iter_shr_1 m r0 s0 Hm n) as [Hq Hloc].
    split; [lia|]. split; [exact Hq|].
    intros Hl Hmod. destruct (Hex Hl) as [-> ->].
    destruct (Hloc Hmod eq_refl eq_refl) as [Hr Hs].
    destruct (Pos.iter shr_1 _ n) as [m1 r1 s1]. simpl in Hr, Hs. subst.
    reflexivity.
Qed.

(** A number of magnitude at most [2^k] lies at or below exponent [k]
    once it is aligned to the format. *)
Lemma fexp_le_of_bound m e k :
  0 < m -> m <= 2 ^ (k - e) -> emin <= k -> fexp (Zdigits2 m + e) <= k.
Proof.
  intros Hm Hb Hk. pose proof (Zdigits2_le_pow2 m (k - e) Hm Hb).
  unfold SpecFloat.fexp. fold emin. lia.
Qed.

(** Dividing a bounded mantissa by the shift keeps the bound. *)
Lemma shift_le m e e1 k :
  0 <= m -> e <= e1 -> m <= 2 ^ (k - e) -> (0 < m -> e1 <= k) ->
  m / 2 ^ (e1 - e) <= 2 ^ (k - e1).
Proof.
  intros Hm He Hb Hk.
  pose proof (pow2_gt0 (e1 - e) ltac:(lia)) as Hp.
  destruct (Z.eq_dec m 0) as [->|Hnz].
  - rewrite Z.div_0_l by lia. apply pow2_nonneg.
  - specialize (Hk ltac:(lia)).
    replace (k - e) with ((k - e1) + (e1 - e)) in Hb by lia.
    rewrite pow2_split in Hb by lia.
    apply Z.div_le_upper_bound; [assumption|]. lia.
Qed.

Lemma shift_lt m e e1 k :
  0 <= m -> e <= e1 -> e1 <= k -> m < 2 ^ (k - e) ->
  m / 2 ^ (e1 - e) < 2 ^ (k - e1).
Proof.
  intros Hm He Hk Hb.
  pose proof (pow2_gt0 (e1 - e) ltac:(lia)) as Hp.
  replace (k - e) with ((k - e1) + (e1 - e)) in Hb by lia.
  rewrite pow2_split in Hb by lia.
  apply Z.div_lt_upper_bound; [assumption|]. lia.
Qed.

(** Rounding keeps a bound by a power of two of the format, whatever
    the location of the number above its mantissa. *)
Lemma binary_round_aux_le s m e l k :
  0 <= m -> emin <= k ->
  (match l with loc_Exact => m | loc_Inexact _ => m + 1 end) <= 2 ^ (k - e) ->
  exists m3 e3,
    binary_round_aux prec emax s m e l = SFbuild prec emax s m3 e3 /\
    0 <= m3 <= 2 ^ (k - e3) /\ emin <= e3.
Proof.
  intros Hm Hk Hu. rewrite binary_round_aux_eq.
  assert (HmU : m <= 2 ^ (k - e)) by (destruct l; lia).
  set (e1f := fexp (Zdigits2 m + e)).
  assert (He1min : emin <= e1f) by apply fexp_ge_emin.
  destruct (shr_fexp_any m e l Hm) as [Hno Hsh]. fold e1f in Hno, Hsh.
  (* the first shift and the rounding: a mantissa [m2] at exponent [e1] *)
  assert (Hstep1 : exists m2 e1,
    round_nearest_even (shr_m (fst (shr_fexp prec emax m e l)))
      (loc_of_shr_record (fst (shr_fexp prec emax m e l))) = m2 /\
    snd (shr_fexp prec emax m e l) = e1 /\
    0 <= m2 <= 2 ^ (k - e1) /\ emin <= e1).
  { destruct (Z_le_gt_dec e1f e) as [Hle|Hgt].
    - rewrite (Hno Hle). cbn [fst snd].
      destruct (loc_roundtrip m l) as [-> ->].
      eexists _, e. split; [reflexivity|]. split; [reflexivity|].
      pose proof (rne_bounds m l). split; [|lia].
      split; [lia|]. destruct l; [rewrite rne_exact; lia|lia].
    - destruct (Hsh ltac:(lia)) as (He1 & Hm1 & Hex).
      eexists _, e1f. split; [reflexivity|]. split; [exact He1|].
      split; [|assumption].
      pose proof (rne_bounds (shr_m (fst (shr_fexp prec emax m e l)))
                    (loc_of_shr_record (fst (shr_fexp prec emax m e l)))) as Hr.
      rewrite Hm1 in Hr |- *.
      pose proof (pow2_gt0 (e1f - e) ltac:(lia)) as Hp.
      assert (Hq0 : 0 <= m / 2 ^ (e1f - e)) by (apply Z.div_pos; lia).
      split; [lia|].
      assert (He1k : 0 < m -> e1f <= k).
      { intros Hpos. apply fexp_le_of_bound; assumption. }
      destruct (Z.eq_dec (m mod 2 ^ (e1f - e)) 0) as [Hmod|Hmod].
      + destruct l as [|c].
        * rewrite (Hex eq_refl Hmod), rne_exact.
          apply shift_le; try lia.
        * (* inexact: m + 1 <= U *)
          assert (e1f <= k).
          { destruct (Z.eq_dec m 0) as [->|]; [|apply He1k; lia].
            assert (0 <= k - e) by (apply (pow2_pos_exp 1); lia).
            unfold e1f, SpecFloat.fexp. fold emin. cbn [Zdigits2]. lia. }
          pose proof (shift_lt m e e1f k Hm ltac:(lia) ltac:(lia) ltac:(lia)).
          lia.
      + assert (Hpos : 0 < m).
        { destruct (Z.eq_dec m 0) as [->|]; [|lia].
          rewrite Z.mod_0_l in Hmod by lia. congruence. }
        specialize (He1k Hpos).
        assert (m < 2 ^ (k - e)).
        { destruct (Z.eq_dec m (2 ^ (k - e))) as [Heq|]; [|lia].
          exfalso. apply Hmod. rewrite Heq.
          replace (k - e) with ((k - e1f) + (e1f - e)) by lia.
          rewrite pow2_split by lia. apply Z.mod_mul. lia. }
        pose proof (shift_lt m e e1f k Hm ltac:(lia) ltac:(lia) ltac:(lia)).
        lia. }
  destruct Hstep1 as (m2 & e1 & -> & -> & Hm2 & He1).
  (* the second shift *)
  set (e3f := fexp (Zdigits2 m2 + e1)).
  destruct (shr_fexp_any m2 e1 loc_Exact ltac:(lia)) as [Hno2 Hsh2].
  fold e3f in Hno2, Hsh2.
  destruct (Z_le_gt_dec e3f e1) as [Hle|Hgt].
  - rewrite (Hno2 Hle). cbn [fst snd shr_record_of_loc shr_m].
    exists m2, e1. split; [reflexivity|]. split; assumption.
  - destruct (Hsh2 ltac:(lia)) as (He3 & Hm3 & _).
    rewrite He3, Hm3. exists (m2 / 2 ^ (e3f - e1)), e3f.
    split; [reflexivity|].
    pose proof (pow2_gt0 (e3f - e1) ltac:(lia)) as Hp.
    split; [|apply fexp_ge_emin].
    split; [apply Z.div_pos; lia|].
    apply shift_le; try lia.
    intros Hpos. apply fexp_le_of_bound; try assumption; lia.
Qed.

Lemma SFbuild_le s m3 e3 k :
  0 <= m3 <= 2 ^ (k - e3) -> k <= emax - prec ->
  abs_le_pow2 (SFbuild prec emax s m3 e3) k.
Proof.
  intros Hm Hk. unfold SFbuild. destruct m3 as [|p|p]; try lia.
  - exact I.
  - assert (0 <= k - e3) by (apply (pow2_pos_exp (Zpos p)); lia).
    replace (e3 <=? emax - prec) with true by (symmetry; apply Z.leb_le; lia).
    simpl. lia.
Qed.

Lemma binary_round_aux_abs_le s m e l k :
  0 <= m -> emin <= k <= emax - prec ->
  (match l with loc_Exact => m | loc_Inexact _ => m + 1 end) <= 2 ^ (k - e) ->
  abs_le_pow2 (binary_round_aux prec emax s m e l) k.
Proof.
  intros Hm Hk Hu.
  destruct (binary_round_aux_le s m e l k Hm ltac:(lia) Hu)
    as (m3 & e3 & -> & Hm3 & _).
  apply SFbuild_le; [assumption|lia].
Qed.

Lemma binary_round_abs_le s m e k :
  emin <= k <= emax - prec -> Zpos m <= 2 ^ (k - e) ->
  abs_le_pow2 (binary_round prec emax s m e) k.
Proof.
  intros Hk Hm. unfold binary_round.
  change (Zpos (digits2_pos m)) with (Zdigits2 (Zpos m)).
  set (fe := SpecFloat.fexp prec emax (Zdigits2 (Zpos m) + e)).
  assert (Hke : 0 <= k - e) by (apply (pow2_pos_exp (Zpos m)); lia).
  destruct (Z_le_gt_dec fe e) as [Hle|Hgt].
  - destruct (shl_align_le m e fe Hle) as [He Hz].
    destruct (shl_align m e fe) as [mz ez]; cbn [fst snd] in *. subst ez.
    apply binary_round_aux_abs_le; try lia.
    rewrite Hz.
    assert (Hfk : fe <= k)
      by (apply (fexp_le_of_bound (Zpos m) e k); lia).
    replace (k - fe) with ((k - e) + (e - fe)) by lia.
    rewrite pow2_split by lia.
    pose proof (pow2_gt0 (e - fe) ltac:(lia)). nia.
  - rewrite shl_align_gt by lia.
    apply binary_round_aux_abs_le; lia.
Qed.

Lemma binary_normalize_abs_le m e k szero :
  emin <= k <= emax - prec -> Z.abs m <= 2 ^ (k - e) ->
  abs_le_pow2 (binary_normalize prec emax m e szero) k.
Proof.
  intros Hk Hm. unfold binary_normalize.
  destruct m as [|p|p]; [exact I| |]; apply binary_round_abs_le; lia.
Qed.

(** |x * y| <= 2^(kx + ky). *)
Lemma SFmul_abs_le x y kx ky :
  abs_le_pow2 x kx -> abs_le_pow2 y ky ->
  emin <= kx + ky <= emax - prec ->
  abs_le_pow2 (SFmul prec emax x y) (kx + ky).
Proof.
  intros Hx Hy Hk.
  destruct x as [sx|sx| |sx mx ex], y as [sy|sy| |sy my ey];
    simpl in Hx, Hy; try contradiction; try exact I.
  unfold SFmul.
  apply binary_round_aux_abs_le; try lia.
  assert (0 <= kx - ex) by (apply (pow2_pos_exp (Zpos mx)); lia).
  assert (0 <= ky - ey) by (apply (pow2_pos_exp (Zpos my)); lia).
  replace (kx + ky - (ex + ey)) with ((kx - ex) + (ky - ey)) by lia.
  rewrite pow2_split by lia. rewrite Pos2Z.inj_mul.
  apply Z.mul_le_mono_nonneg; lia.
Qed.

Lemma abs_le_pow2_mono x k k' : k <= k' -> abs_le_pow2 x k -> abs_le_pow2 x k'.
Proof.
  intros Hk. destruct x as [s|s| |s m e]; simpl; try tauto.
  intros Hm.
  assert (0 <= k - e) by (apply (pow2_pos_exp (Zpos m)); lia).
  assert (2 ^ (k - e) <= 2 ^ (k' - e)) by (apply pow2_le; lia). lia.
Qed.

(** |x + y| <= 2^(k + 1) for |x|, |y| <= 2^k. *)
Lemma SFadd_abs_le x y k :
  abs_le_pow2 x k -> abs_le_pow2 y k ->
  emin <= k + 1 <= emax - prec ->
  abs_le_pow2 (SFadd prec emax x y) (k + 1).
Proof.
  intros Hx Hy Hk.
  destruct x as [sx|sx| |sx mx ex], y as [sy|sy| |sy my ey];
    simpl in Hx, Hy; try contradiction.
  - destruct sx, sy; exact I.
  - simpl. apply (abs_le_pow2_mono (S754_finite sy my ey) k); [lia|exact Hy].
  - simpl. apply (abs_le_pow2_mono (S754_finite sx mx ex) k); [lia|exact Hx].
  - unfold SFadd.
    set (ez := Z.min ex ey).
    destruct (shl_align_le mx ex ez ltac:(lia)) as [_ ->].
    destruct (shl_align_le my ey ez ltac:(lia)) as [_ ->].
    apply binary_normalize_abs_le; [lia|].
    assert (0 <= k - ex) by (apply (pow2_pos_exp (Zpos mx)); lia).
    assert (0 <= k - ey) by (apply (pow2_pos_exp (Zpos my)); lia).
    assert (Hx' : Zpos mx * 2 ^ (ex - ez) <= 2 ^ (k - ez)).
    { replace (k - ez) with ((k - ex) + (ex - ez)) by lia.
      rewrite pow2_split by lia.
      pose proof (pow2_gt0 (ex - ez) ltac:(lia)). nia. }
    assert (Hy' : Zpos my * 2 ^ (ey - ez) <= 2 ^ (k - ez)).
    { replace (k - ez) with ((k - ey) + (ey - ez)) by lia.
      rewrite pow2_split by lia.
      pose proof (pow2_gt0 (ey - ez) ltac:(lia)). nia. }
    pose proof (pow2_gt0 (ex - ez) ltac:(lia)).
    pose proof (pow2_gt0 (ey - ez) ltac:(lia)).
    replace (k + 1 - ez) with ((k - ez) + 1) by lia.
    rewrite pow2_split by lia. change (2 ^ 1) with 2.
    destruct sx, sy; unfold cond_Zopp; nia.
Qed.

Lemma new_location_0 n : new_location n 0 = loc_Exact.
Proof. unfold new_location. destruct (Z.even n); reflexivity. Qed.

(** |x / y| <= 2^(k - c) for |x| <= 2^k and 2^c <= |y|. *)
Lemma SFdiv_abs_le x sy my ey k c :
  abs_le_pow2 x k -> 0 <= c - ey -> 2 ^ (c - ey) <= Zpos my ->
  emin <= k - c <= emax - prec ->
  abs_le_pow2 (SFdiv prec emax x (S754_finite sy my ey)) (k - c).
Proof.
  intros Hx Hc Hy Hk.
  destruct x as [sx|sx| |sx mx ex]; simpl in Hx; try contradiction;
    [exact I|].
  unfold SFdiv, SFdiv_core_binary.
  set (d1 := Zdigits2 (Zpos mx)). set (d2 := Zdigits2 (Zpos my)).
  set (e' := Z.min (SpecFloat.fexp prec emax (d1 + ex - (d2 + ey))) (ex - ey)).
  set (s := ex - ey - e').
  assert (Hs : 0 <= s) by (unfold s, e'; lia).
  assert (Hsdef : s = ex - ey - e') by reflexivity.
  clearbody s.
  assert (Hkx : 0 <= k - ex) by (apply (pow2_pos_exp (Zpos mx)); lia).
  assert (Hd1 : d1 <= k - ex + 1) by (apply Zdigits2_le_pow2; lia).
  assert (Hd2 : c - ey < d2).
  { pose proof (Zdigits2_lt (Zpos my) ltac:(lia)) as Hlt. fold d2 in Hlt.
    pose proof (Zdigits2_pos my). fold d2 in H.
    apply (Z.pow_lt_mono_r_iff 2); lia. }
  assert (He' : e' <= k - c).
  { unfold e', SpecFloat.fexp. fold emin. lia. }
  set (m' := match s with Z0 => Zpos mx | Zpos _ => Z.shiftl (Zpos mx) s
                        | Zneg _ => 0 end).
  assert (Hm' : m' = Zpos mx * 2 ^ s).
  { unfold m'. destruct s as [|p|p]; try lia.
    apply Z.shiftl_mul_pow2. lia. }
  pose proof (Z_div_mod m' (Zpos my) ltac:(lia)) as Hdm.
  destruct (Z.div_eucl m' (Zpos my)) as [q r]. destruct Hdm as [Heq Hr].
  pose proof (pow2_gt0 s Hs) as Hps.
  assert (Hq0 : 0 <= q) by nia.
  assert (Hbound : m' <= 2 ^ (k - c - e') * 2 ^ (c - ey)).
  { rewrite <- pow2_split by lia. rewrite Hm'.
    replace (k - c - e' + (c - ey)) with ((k - ex) + s) by lia.
    rewrite pow2_split by lia. nia. }
  pose proof (pow2_gt0 (k - c - e') ltac:(lia)) as HpB.
  pose proof (pow2_gt0 (c - ey) Hc) as HpA.
  apply binary_round_aux_abs_le; try lia.
  destruct (Z.eq_dec r 0) as [->|Hr0].
  - rewrite new_location_0. nia.
  - assert (q < 2 ^ (k - c - e')) by nia.
    destruct (new_location (Zpos my) r); lia.
Qed.

End Format.

End Bnd.

(** *** The two formats and the constants of lines 198 and 230 *)

Import Bnd.

Lemma float_of_double_abs_le x k :
  -149 <= k <= 104 -> abs_le_pow2 x k -> abs_le_pow2 (float_of_double x) k.
Proof.
  intros Hk Hx. destruct x as [s|s| |s m e]; simpl in Hx |- *; try tauto.
  apply binary_round_abs_le; [lia|rewrite emin32; lia|assumption].
Qed.

Lemma double_of_float_abs_le x k :
  -1074 <= k <= 971 -> abs_le_pow2 x k -> abs_le_pow2 (double_of_float x) k.
Proof.
  intros Hk Hx. destruct x as [s|s| |s m e]; simpl in Hx |- *; try tauto.
  apply binary_round_abs_le; [lia|rewrite emin64; lia|assumption].
Qed.

(** A bound on the value as a rational number is a bound on the
    mantissa. *)
Lemma abs_le_pow2_of_Q x q k :
  SF2Q x = Some q -> 0 <= k ->
  (- inject_Z (2 ^ k) <= q)%Q -> (q <= inject_Z (2 ^ k))%Q ->
  abs_le_pow2 x k.
Proof.
  intros Hq Hk Hlo Hhi.
  destruct x as [s|s| |s m e]; try discriminate; [exact I|].
  unfold SF2Q in Hq. apply Some_inj in Hq. subst q. simpl.
  pose proof (pow2_gt0 k Hk) as Hpk.
  destruct (0 <=? e) eqn:E.
  - apply Z.leb_le in E. pose proof (pow2_gt0 e E) as Hpe.
    cbv [Qle Qopp inject_Z Qnum Qden] in Hlo, Hhi.
    assert (Hm : Zpos m * 2 ^ e <= 2 ^ k)
      by (destruct s; unfold cond_Zopp in *; lia).
    destruct (Z_le_gt_dec e k) as [Hek|Hek].
    + replace k with ((k - e) + e) in Hm by lia.
      rewrite pow2_split in Hm by lia. nia.
    + exfalso. assert (2 ^ k < 2 ^ e) by (apply pow2_lt; lia). nia.
  - apply Z.leb_gt in E. pose proof (pow2_gt0 (- e) ltac:(lia)) as Hpe.
    cbv [Qle Qopp inject_Z Qnum Qden] in Hlo, Hhi.
    rewrite Z2Pos.id in Hlo, Hhi by assumption.
    replace (k - e) with (k + - e) by lia. rewrite pow2_split by lia.
    destruct s; unfold cond_Zopp in *; lia.
Qed.

(** A bounded number has a rational value, and adding one half and
    truncating stays within the bound. *)
Lemma abs_le_pow2_trunc x k :
  abs_le_pow2 x k -> 0 <= k ->
  exists q, SF2Q x = Some q /\ - 2 ^ k <= Qtrunc (q + (1 # 2)) <= 2 ^ k.
Proof.
  intros Hx Hk. pose proof (pow2_gt0 k Hk) as Hpk.
  destruct x as [s|s| |s m e]; simpl in Hx; try contradiction.
  - exists 0%Q. split; [reflexivity|]. cbn. lia.
  - unfold SF2Q. eexists; split; [reflexivity|].
    assert (Hke : 0 <= k - e) by (apply (pow2_pos_exp (Zpos m)); lia).
    destruct (0 <=? e) eqn:E.
    + apply Z.leb_le in E. pose proof (pow2_gt0 e E) as Hpe.
      assert (Hm : Zpos m * 2 ^ e <= 2 ^ k).
      { replace k with ((k - e) + e) by lia. rewrite pow2_split by lia. nia. }
      unfold Qtrunc, Qplus, inject_Z. cbn [Qnum Qden].
      change (Zpos (1 * 2)) with 2.
      set (N := cond_Zopp s (Zpos m * 2 ^ e)).
      assert (HN : - 2 ^ k <= N <= 2 ^ k)
        by (unfold N; destruct s; unfold cond_Zopp; lia).
      clearbody N. Z.quot_rem_to_equations. lia.
    + apply Z.leb_gt in E. pose proof (pow2_gt0 (- e) ltac:(lia)) as Hpe.
      unfold Qtrunc, Qplus. cbn [Qnum Qden].
      rewrite Pos2Z.inj_mul, Z2Pos.id by assumption.
      assert (Hm : Zpos m <= 2 ^ k * 2 ^ (- e)).
      { rewrite <- pow2_split by lia. replace (k + - e) with (k - e) by lia.
        assumption. }
      set (N := cond_Zopp s (Zpos m)).
      assert (HN : - (2 ^ k * 2 ^ (- e)) <= N <= 2 ^ k * 2 ^ (- e))
        by (unfold N; destruct s; unfold cond_Zopp; lia).
      clearbody N. set (d := 2 ^ (- e)) in *. clearbody d.
      set (K := 2 ^ k) in *. clearbody K.
      Z.quot_rem_to_equations. nia.
Qed.

Lemma one_abs_le : abs_le_pow2 (float_of_int 1) 12.
Proof. vm_compute; intro H; discriminate H. Qed.

Lemma ratio_abs_le (fHighGain : bool) :
  abs_le_pow2
    (if fHighGain
     then ddiv ADC1410_REAL_RANGE_ADC_HIGH ADC1410_IDEAL_RANGE_ADC_HIGH
     else ddiv ADC1410_REAL_RANGE_ADC_LOW ADC1410_IDEAL_RANGE_ADC_LOW) 1.
Proof. destruct fHighGain; vm_compute; intro H; discriminate H. Qed.

Lemma scale16_abs_le :
  abs_le_pow2 (double_of_float (float_of_int (Z.shiftl 1 16))) 16.
Proof. vm_compute; intro H; discriminate H. Qed.

Lemma scale17_abs_le :
  abs_le_pow2 (double_of_float (float_of_int (Z.shiftl 1 17))) 17.
Proof. vm_compute; intro H; discriminate H. Qed.

(** |fval| <= 2^30 on line 198 for |cg| <= 2^12. *)
Lemma mult_fval_abs_le cg fHighGain :
  abs_le_pow2 cg 12 -> abs_le_pow2 (mult_fval cg fHighGain) 30.
Proof.
  intros Hcg. unfold mult_fval.
  apply float_of_double_abs_le; [lia|].
  change 30 with (14 + 16).
  apply SFmul_abs_le; [lia| |exact scale16_abs_le|rewrite emin64; lia].
  change 14 with (1 + 13).
  apply SFmul_abs_le; [lia|apply ratio_abs_le| |rewrite emin64; lia].
  apply double_of_float_abs_le; [lia|].
  change 13 with (12 + 1).
  apply SFadd_abs_le; [lia|exact one_abs_le|exact Hcg|rewrite emin32; lia].
Qed.

(** |fval| <= 2^30 on line 230 for |ca| <= 2^13. *)
Lemma add_fval_abs_le ca fHighGain :
  abs_le_pow2 ca 13 -> abs_le_pow2 (add_fval ca fHighGain) 30.
Proof.
  intros Hca. unfold add_fval.
  apply float_of_double_abs_le; [lia|].
  change 30 with (13 + 17).
  apply SFmul_abs_le; [lia| |exact scale17_abs_le|rewrite emin64; lia].
  assert (Hw : abs_le_pow2 (double_of_float ca) 13)
    by (apply double_of_float_abs_le; [lia|assumption]).
  destruct fHighGain.
  - change (abs_le_pow2
              (SFdiv 53 1024 (double_of_float ca)
                 (S754_finite false 4503599627370496 (-52))) (13 - 0)).
    apply SFdiv_abs_le; try assumption; try lia.
    rewrite emin64. lia.
  - apply (abs_le_pow2_mono _ (13 - 4)); [lia|].
    change (abs_le_pow2
              (SFdiv 53 1024 (double_of_float ca)
                 (S754_finite false 7036874417766400 (-48))) (13 - 4)).
    apply SFdiv_abs_le; try assumption; try lia.
    rewrite emin64. lia.
Qed.

(** On a bounded [fval] the conversion of lines 199 and 231 is defined:
    the rounded value does not depend on the target. *)
Lemma round_ival_bounded x :
  abs_le_pow2 (float_of_double x) 30 ->
  exists q,
    SF2Q (float_of_double x) = Some q /\
    - 2 ^ 30 <= Qtrunc (q + (1 # 2)) <= 2 ^ 30 /\
    forall cvt, round_ival cvt (float_of_double x) = Qtrunc (q + (1 # 2)).
Proof.
  intros Hx.
  destruct (abs_le_pow2_trunc _ 30 Hx ltac:(lia)) as (q & Hq & Hr).
  exists q. split; [exact Hq|]. split; [exact Hr|].
  intros cvt. apply round_ival_exact; [exact Hq|].
  unfold INT32_MIN, INT32_MAX.
  change (2 ^ 30) with 1073741824 in Hr. change (2 ^ 31) with 2147483648. lia.
Qed.

Lemma mult_coef_bounded cg fHighGain :
  abs_le_pow2 cg 12 ->
  exists q,
    SF2Q (mult_fval cg fHighGain) = Some q /\
    - 2 ^ 30 <= Qtrunc (q + (1 # 2)) <= 2 ^ 30 /\
    forall cvt,
      ComputeMultCoefADC1410 cvt cg fHighGain = Qtrunc (q + (1 # 2)) mod 2 ^ 18.
Proof.
  intros Hcg. pose proof (mult_fval_abs_le cg fHighGain Hcg) as Hf.
  unfold ComputeMultCoefADC1410; cbv zeta. unfold mult_fval in *.
  destruct (round_ival_bounded _ Hf) as (q & Hq & Hr & Hc).
  exists q. split; [exact Hq|]. split; [exact Hr|].
  intros cvt. rewrite Hc. apply keep18_mod.
Qed.

Lemma add_coef_bounded ca fHighGain :
  abs_le_pow2 ca 13 ->
  exists q,
    SF2Q (add_fval ca fHighGain) = Some q /\
    - 2 ^ 30 <= Qtrunc (q + (1 # 2)) <= 2 ^ 30 /\
    forall cvt,
      ComputeAddCoefADC1410 cvt ca fHighGain = Qtrunc (q + (1 # 2)) mod 2 ^ 18.
Proof.
  intros Hca. pose proof (add_fval_abs_le ca fHighGain Hca) as Hf.
  unfold ComputeAddCoefADC1410; cbv zeta. unfold add_fval in *.
  destruct (round_ival_bounded _ Hf) as (q & Hq & Hr & Hc).
  exists q. split; [exact Hq|]. split; [exact Hr|].
  intros cvt. rewrite Hc. apply keep18_mod.
Qed.

(** X8.  For every gain error of magnitude at most 4096 the conversion
    of line 199 is defined: [fval] is finite, the rounded value lies
    within [-2^30, 2^30], and on every target
    [ComputeMultCoefADC1410] returns trunc(fval + 1/2) modulo 2^18. *)
Theorem mult_coef_defined_for_bounded_gain_error gainError fHighGain g :
  SF2Q gainError = Some g -> (- (4096 # 1) <= g)%Q -> (g <= 4096 # 1)%Q ->
  exists q,
    SF2Q (mult_fval gainError fHighGain) = Some q /\
    - 2 ^ 30 <= Qtrunc (q + (1 # 2)) <= 2 ^ 30 /\
    forall cvt,
      ComputeMultCoefADC1410 cvt gainError fHighGain
        = Qtrunc (q + (1 # 2)) mod 2 ^ 18.
Proof.
  intros Hg Hlo Hhi. apply mult_coef_bounded.
  apply (abs_le_pow2_of_Q gainError g 12 Hg); [lia|exact Hlo|exact Hhi].
Qed.

Lemma mult_coef_defined_for_bounded_gain_error_witness :
  exists q,
    SF2Q (mult_fval (float_of_int (-4096)) true) = Some q /\
    - 2 ^ 30 <= Qtrunc (q + (1 # 2)) <= 2 ^ 30 /\
    forall cvt,
      ComputeMultCoefADC1410 cvt (float_of_int (-4096)) true
        = Qtrunc (q + (1 # 2)) mod 2 ^ 18.
Proof.
  apply (mult_coef_defined_for_bounded_gain_error (float_of_int (-4096)) true
           (-8388608 # 2048)).
  - vm_compute. reflexivity.
  - vm_compute. intro H; discriminate H.
  - vm_compute. intro H; discriminate H.
Defined.

(** X9.  For every offset error of magnitude at most 8192, in both gain
    ranges, the conversion of line 231 is defined: [fval] is finite,
    the rounded value lies within [-2^30, 2^30], and on every target
    [ComputeAddCoefADC1410] returns trunc(fval + 1/2) modulo 2^18. *)
Theorem add_coef_defined_for_bounded_offset_error offsetError fHighGain o :
  SF2Q offsetError = Some o -> (- (8192 # 1) <= o)%Q -> (o <= 8192 # 1)%Q ->
  exists q,
    SF2Q (add_fval offsetError fHighGain) = Some q /\
    - 2 ^ 30 <= Qtrunc (q + (1 # 2)) <= 2 ^ 30 /\
    forall cvt,
      ComputeAddCoefADC1410 cvt offsetError fHighGain
        = Qtrunc (q + (1 # 2)) mod 2 ^ 18.
Proof.
  intros Ho Hlo Hhi. apply add_coef_bounded.
  apply (abs_le_pow2_of_Q offsetError o 13 Ho); [lia|exact Hlo|exact Hhi].
Qed.

Lemma add_coef_defined_for_bounded_offset_error_witness :
  exists q,
    SF2Q (add_fval (float_of_int 8192) true) = Some q /\
    - 2 ^ 30 <= Qtrunc (q + (1 # 2)) <= 2 ^ 30 /\
    forall cvt,
      ComputeAddCoefADC1410 cvt (float_of_int 8192) true
        = Qtrunc (q + (1 # 2)) mod 2 ^ 18.
Proof.
  apply (add_coef_defined_for_bounded_offset_error (float_of_int 8192) true
           (8388608 # 1024)).
  - vm_compute. reflexivity.
  - vm_compute. intro H; discriminate H.
  - vm_compute. intro H; discriminate H.
Defined.

(** X10.  When the 8 calibration values of every region that is read
    are finite and of magnitude at most 4096, the whole run of
    [FDisplayZmodADCCal], result, output and bus reads, is the same on
    every target. *)
Theorem report_independent_of_target
    cvt1 cvt2 read fact user size strf fmtf fd slave w :
  (forall addr i j k,
     addr = fact \/ addr = user ->
     fst (fst (read fd slave addr size)) = true ->
     (i < 2)%nat -> (j < 2)%nat -> (k < 2)%nat ->
     exists g,
       SF2Q (cal (snd (fst (read fd slave addr size))) i j k) = Some g /\
       (- (4096 # 1) <= g)%Q /\ (g <= 4096 # 1)%Q) ->
  FDisplayZmodADCCal cvt1 read fact user size strf fmtf fd slave w =
  FDisplayZmodADCCal cvt2 read fact user size strf fmtf fd slave w.
Proof.
  intros Hb.
  assert (Hcoef : forall addr, addr = fact \/ addr = user ->
            fst (fst (read fd slave addr size)) = true ->
            coef_lines cvt1 (snd (fst (read fd slave addr size))) =
            coef_lines cvt2 (snd (fst (read fd slave addr size)))).
  { intros addr Ha Hok.
    set (a := snd (fst (read fd slave addr size))).
    assert (Hm : forall i j h, (i < 2)%nat -> (j < 2)%nat ->
              ComputeMultCoefADC1410 cvt1 (cal a i j 0%nat) h =
              ComputeMultCoefADC1410 cvt2 (cal a i j 0%nat) h).
    { intros i j h Hi Hj.
      destruct (Hb addr i j 0%nat Ha Hok Hi Hj ltac:(lia)) as (g & Hg & Hlo & Hhi).
      fold a in Hg.
      destruct (mult_coef_bounded (cal a i j 0%nat) h) as (q & _ & _ & Hc).
      { apply (abs_le_pow2_of_Q _ g 12 Hg); [lia|exact Hlo|exact Hhi]. }
      rewrite !Hc. reflexivity. }
    assert (Hadd : forall i j h, (i < 2)%nat -> (j < 2)%nat ->
              ComputeAddCoefADC1410 cvt1 (cal a i j 1%nat) h =
              ComputeAddCoefADC1410 cvt2 (cal a i j 1%nat) h).
    { intros i j h Hi Hj.
      destruct (Hb addr i j 1%nat Ha Hok Hi Hj ltac:(lia)) as (g & Hg & Hlo & Hhi).
      fold a in Hg.
      destruct (add_coef_bounded (cal a i j 1%nat) h) as (q & _ & _ & Hc).
      { apply (abs_le_pow2_mono _ 12); [lia|].
        apply (abs_le_pow2_of_Q _ g 12 Hg); [lia|exact Hlo|exact Hhi]. }
      rewrite !Hc. reflexivity. }
    unfold coef_lines.
    rewrite !(Hm 0%nat 0%nat), !(Hm 0%nat 1%nat), !(Hm 1%nat 0%nat),
      !(Hm 1%nat 1%nat), !(Hadd 0%nat 0%nat), !(Hadd 0%nat 1%nat),
      !(Hadd 1%nat 0%nat), !(Hadd 1%nat 1%nat) by lia.
    reflexivity. }
  pose proof (Hcoef fact (or_introl eq_refl)) as Hf.
  pose proof (Hcoef user (or_intror eq_refl)) as Hu.
  destruct (read fd slave fact size) as [[ok1 a1] c1] eqn:E1.
  destruct (read fd slave user size) as [[ok2 a2] c2] eqn:E2.
  cbn [fst snd] in Hf, Hu.
  destruct ok1.
  - specialize (Hf eq_refl). destruct ok2.
    + specialize (Hu eq_refl).
      rewrite !(run_succeeds _ read fact user size strf fmtf fd slave w
                  a1 c1 a2 c2 E1 E2).
      unfold region_lines. rewrite Hf, Hu. reflexivity.
    + rewrite !(run_user_fails _ read fact user size strf fmtf fd slave w
                  a1 c1 a2 c2 E1 E2).
      unfold region_lines. rewrite Hf. reflexivity.
  - rewrite !(run_factory_fails _ read fact user size strf fmtf fd slave w
                a1 c1 E1).
    reflexivity.
Qed.

Lemma report_independent_of_target_witness :
  FDisplayZmodADCCal cvt_x86 (Sample.read_const (float_dyadic 3 (-2)))
    Sample.factAddr Sample.userAddr Sample.size Sample.strftime Sample.fmt_f
    3 0x30 Sample.w0 =
  FDisplayZmodADCCal cvt_arm (Sample.read_const (float_dyadic 3 (-2)))
    Sample.factAddr Sample.userAddr Sample.size Sample.strftime Sample.fmt_f
    3 0x30 Sample.w0.
Proof.
  apply report_independent_of_target.
  intros addr i j k _ _ _ _ _. exists (12582912 # 16777216)%Q.
  split; [reflexivity|]. split; intro H; discriminate H.
Defined.


(* ================================================================== *)
(** ** The additive path in the high-gain range                       *)
(* ================================================================== *)


Lemma Zdigits2_53 mw : 2 ^ 52 <= Zpos mw < 2 ^ 53 -> Zdigits2 (Zpos mw) = 53.
Proof.
  intros H.
  pose proof (Zdigits2_le_of_lt (Zpos mw) 53 ltac:(lia) ltac:(lia) ltac:(lia)).
  pose proof (Zdigits2_lt (Zpos mw) ltac:(lia)) as Hlt.
  pose proof (Zdigits2_pos mw).
  destruct (Z_le_gt_dec (Zdigits2 (Zpos mw)) 52) as [Hle|]; [|lia].
  assert (2 ^ Zdigits2 (Zpos mw) <= 2 ^ 52) by (apply pow2_le; lia). lia.
Qed.

Lemma xorb_false_right s : xorb s false = s.
Proof. destruct s; reflexivity. Qed.

(** Multiplying a [double] by a power of two is exact. *)
Lemma dmul_pow2 s mw ew ej :
  2 ^ 52 <= Zpos mw < 2 ^ 53 -> -1074 <= ew + ej + 52 <= 971 ->
  dmul (S754_finite s mw ew) (S754_finite false 4503599627370496 ej) =
  S754_finite s mw (ew + ej + 52).
Proof.
  intros Hmw He. unfold dmul, SFmul. rewrite xorb_false_right.
  assert (Hd : Zdigits2 (Zpos (mw * 4503599627370496)) = 105).
  { rewrite Pos2Z.inj_mul. change (Zpos 4503599627370496) with (2 ^ 52).
    rewrite Zdigits2_mul_pow2 by lia. rewrite Zdigits2_53 by assumption.
    reflexivity. }
  assert (Hfe : fexp 53 1024 (Zdigits2 (Zpos (mw * 4503599627370496)) + (ew + ej))
                = ew + ej + 52).
  { rewrite Hd. unfold fexp. rewrite emin64. lia. }
  rewrite (binary_round_aux_exact 53 1024 s _ (ew + ej) (Zpos mw)).
  - rewrite Hfe. unfold SFbuild.
    replace (ew + ej + 52 <=? 1024 - 53) with true
      by (symmetry; apply Z.leb_le; lia).
    reflexivity.
  - rewrite Hfe. lia.
  - lia.
  - rewrite Hfe. replace (ew + ej + 52 - (ew + ej)) with 52 by lia.
    rewrite Pos2Z.inj_mul. reflexivity.
Qed.

(** Dividing a [double] by the literal 1.0 is exact. *)
Lemma ddiv_one s mw ew :
  2 ^ 52 <= Zpos mw < 2 ^ 53 -> -1073 <= ew <= 971 ->
  ddiv (S754_finite s mw ew) ADC1410_IDEAL_RANGE_ADC_HIGH = S754_finite s mw ew.
Proof.
  intros Hmw He.
  change ADC1410_IDEAL_RANGE_ADC_HIGH
    with (S754_finite false 4503599627370496 (-52)).
  unfold ddiv, SFdiv, SFdiv_core_binary. rewrite xorb_false_right.
  rewrite Zdigits2_53 by assumption.
  change (Zdigits2 (Zpos 4503599627370496)) with 53.
  assert (He' : Z.min (fexp 53 1024 (53 + ew - (53 + -52))) (ew - -52) = ew - 1).
  { unfold fexp. rewrite emin64. lia. }
  rewrite He'. replace (ew - -52 - (ew - 1)) with 53 by lia.
  assert (Hdiv : Z.div_eucl (Z.shiftl (Zpos mw) 53) (Zpos 4503599627370496)
                 = (Zpos (xO mw), 0)).
  { rewrite (surjective_pairing (Z.div_eucl _ _)).
    change (fst (Z.div_eucl ?a ?b)) with (a / b).
    change (snd (Z.div_eucl ?a ?b)) with (a mod b).
    rewrite Z.shiftl_mul_pow2 by lia.
    change (2 ^ 53) with (2 * 4503599627370496).
    rewrite Z.mul_assoc, Z.div_mul, Z.mod_mul by lia.
    f_equal. lia. }
  rewrite Hdiv. rewrite new_location_0.
  assert (Hd : Zdigits2 (Zpos (xO mw)) = 54).
  { replace (Zpos (xO mw)) with (Zpos mw * 2 ^ 1) by (change (2 ^ 1) with 2; lia).
    rewrite Zdigits2_mul_pow2 by lia. rewrite Zdigits2_53 by assumption.
    reflexivity. }
  assert (Hfe : fexp 53 1024 (Zdigits2 (Zpos (xO mw)) + (ew - 1)) = ew).
  { rewrite Hd. unfold fexp. rewrite emin64. lia. }
  rewrite (binary_round_aux_exact 53 1024 s _ (ew - 1) (Zpos mw)).
  - rewrite Hfe. unfold SFbuild.
    replace (ew <=? 1024 - 53) with true by (symmetry; apply Z.leb_le; lia).
    reflexivity.
  - rewrite Hfe. lia.
  - lia.
  - rewrite Hfe. replace (ew - (ew - 1)) with 1 by lia.
    change (2 ^ 1) with 2. lia.
Qed.

(** *** Values as rational numbers *)

Lemma Qtrunc_comp x y : (x == y)%Q -> Qtrunc x = Qtrunc y.
Proof.
  unfold Qeq, Qtrunc. intros H. apply quot_cross; lia.
Qed.

(** The value of a finite number, scaled to an integer. *)
Lemma SF2Q_scaled s m e t :
  0 <= t -> 0 <= e + t ->
  exists q,
    SF2Q (S754_finite s m e) = Some q /\
    (q * inject_Z (2 ^ t) == inject_Z (cond_Zopp s (Zpos m * 2 ^ (e + t))))%Q.
Proof.
  intros Ht Het. unfold SF2Q. eexists; split; [reflexivity|].
  pose proof (pow2_gt0 t Ht) as Hpt.
  destruct (0 <=? e) eqn:E.
  - apply Z.leb_le in E.
    unfold Qeq, Qmult, inject_Z. cbn [Qnum Qden].
    rewrite pow2_split by lia.
    destruct s; unfold cond_Zopp; lia.
  - apply Z.leb_gt in E. pose proof (pow2_gt0 (- e) ltac:(lia)) as Hpe.
    unfold Qeq, Qmult, inject_Z. cbn [Qnum Qden].
    rewrite Pos2Z.inj_mul, Z2Pos.id by assumption.
    assert (H2 : 2 ^ t = 2 ^ (e + t) * 2 ^ (- e))
      by (rewrite <- pow2_split by lia; f_equal; lia).
    rewrite H2.
    destruct s; unfold cond_Zopp; lia.
Qed.

Lemma valid_binary32_bounds s m e :
  valid_binary 24 128 (S754_finite s m e) = true ->
  Zpos m < 2 ^ 24 /\ -149 <= e <= 104.
Proof.
  unfold valid_binary, bounded, canonical_mantissa.
  intros H. apply andb_true_iff in H. destruct H as [Hc Hb].
  apply Z.eqb_eq in Hc. apply Z.leb_le in Hb.
  change (Zpos (digits2_pos m)) with (Zdigits2 (Zpos m)) in Hc.
  unfold fexp in Hc. rewrite emin32 in Hc.
  pose proof (Zdigits2_lt (Zpos m) ltac:(lia)) as Hlt.
  pose proof (Zdigits2_pos m).
  assert (2 ^ Zdigits2 (Zpos m) <= 2 ^ 24) by (apply pow2_le; lia).
  lia.
Qed.

(** Line 230 in the high-gain range: the division by 1.0, the product
    with 2^17 and the narrowing are all exact. *)
Lemma add_fval_high_finite s m e :
  Zpos m < 2 ^ 24 -> -149 <= e <= 104 -> Zpos m <= 2 ^ (13 - e) ->
  exists a fe,
    add_fval (S754_finite s m e) true = S754_finite s a fe /\
    -149 <= fe /\
    Zpos a * 2 ^ (fe + 200) = Zpos m * 2 ^ (e + 217).
Proof.
  intros Hm He Hb.
  destruct (double_of_float_finite s m e Hm He) as (mw & ew & Hw & Hew & Hmw & Hbw).
  unfold add_fval. rewrite Hw.
  rewrite ddiv_one by (try assumption; lia).
  change (double_of_float (float_of_int (Z.shiftl 1 17)))
    with (S754_finite false 4503599627370496 (-35)).
  rewrite dmul_pow2 by (try assumption; lia).
  replace (ew + -35 + 52) with (ew + 17) by lia.
  unfold float_of_double.
  pose proof (pow2_gt0 (e - ew) ltac:(lia)) as Hpw.
  (* the exponents *)
  assert (H13 : 0 <= 13 - e) by (apply (Bnd.pow2_pos_exp (Zpos m)); lia).
  assert (Hew39 : ew <= -39).
  { destruct (Z_le_gt_dec ew (-39)) as [|Hgt]; [assumption|exfalso].
    assert (Zpos mw <= 2 ^ (13 - e) * 2 ^ (e - ew)) by nia.
    rewrite <- pow2_split in H by lia.
    assert (2 ^ (13 - e + (e - ew)) <= 2 ^ 51) by (apply pow2_le; lia).
    change (2 ^ 52) with (2 * 2 ^ 51) in Hbw.
    pose proof (pow2_gt0 51 ltac:(lia)). lia. }
  assert (Hsh29 : 29 <= e - ew).
  { destruct (Z_le_gt_dec 29 (e - ew)) as [|Hgt]; [assumption|exfalso].
    assert (2 ^ (e - ew) <= 2 ^ 28) by (apply pow2_le; lia).
    change (2 ^ 52) with (2 ^ 24 * 2 ^ 28) in Hbw.
    pose proof (pow2_gt0 28 ltac:(lia)). nia. }
  pose proof (Zdigits2_53 mw Hbw) as Hd.
  set (fe := fexp 24 128 (Zdigits2 (Zpos mw) + (ew + 17))).
  assert (Hfe : fe = Z.max (ew + 46) (-149))
    by (unfold fe, fexp; rewrite Hd, emin32; lia).
  set (j := e - ew - (fe - (ew + 17))).
  assert (Hj : 0 <= j) by (unfold j; lia).
  pose proof (pow2_gt0 j Hj) as Hpj.
  assert (Ha : 0 < Zpos m * 2 ^ j) by nia.
  rewrite (binary_round_exact_down 24 128 s mw (ew + 17) (Zpos m * 2 ^ j)).
  - fold fe.
    destruct (Zpos m * 2 ^ j) as [|a|a] eqn:Ea; try lia.
    exists a, fe. unfold SFbuild.
    replace (fe <=? 128 - 24) with true by (symmetry; apply Z.leb_le; lia).
    split; [reflexivity|]. split; [lia|].
    rewrite <- Ea, <- Z.mul_assoc, <- pow2_split by lia.
    do 2 f_equal. unfold j. lia.
  - fold fe. lia.
  - exact Ha.
  - fold fe. rewrite Hmw, <- Z.mul_assoc, <- pow2_split by lia.
    do 2 f_equal. unfold j. lia.
Qed.

Lemma add_fval_high_value x o :
  valid_binary 24 128 x = true -> SF2Q x = Some o ->
  (- (8192 # 1) <= o)%Q -> (o <= 8192 # 1)%Q ->
  exists q,
    SF2Q (add_fval x true) = Some q /\ (q == o * inject_Z (2 ^ 17))%Q.
Proof.
  intros Hv Ho Hlo Hhi.
  pose proof (abs_le_pow2_of_Q x o 13 Ho ltac:(lia) Hlo Hhi) as Hb.
  destruct x as [s|s| |s m e]; try discriminate.
  - apply Some_inj in Ho. subst o.
    exists 0%Q. split; [destruct s; reflexivity|reflexivity].
  - destruct (valid_binary32_bounds s m e Hv) as [Hm He].
    simpl in Hb.
    destruct (add_fval_high_finite s m e Hm He Hb) as (a & fe & -> & Hfe & Hval).
    destruct (SF2Q_scaled s a fe 200 ltac:(lia) ltac:(lia)) as (q & Hq & Hqv).
    destruct (SF2Q_scaled s m e 217 ltac:(lia) ltac:(lia)) as (o' & Ho' & Hov).
    rewrite Ho in Ho'. apply Some_inj in Ho'. subst o'.
    exists q. split; [exact Hq|].
    apply (Qmult_inj_r _ _ (inject_Z (2 ^ 200))); [intro H; discriminate H|].
    rewrite Hqv.
    assert (Hs : cond_Zopp s (Zpos a * 2 ^ (fe + 200))
                 = cond_Zopp s (Zpos m * 2 ^ (e + 217)))
      by (rewrite Hval; reflexivity).
    rewrite Hs, <- Hov.
    change 217 with (17 + 200). rewrite pow2_split by lia.
    rewrite inject_Z_mult. ring.
Qed.

(** X11.  In the high-gain range the additive path makes no rounding
    error before the rounding step: for a binary32 offset error [o] of
    magnitude at most 8192, [ComputeAddCoefADC1410] returns
    trunc(o * 2^17 + 1/2) modulo 2^18, computed on the exact rational
    value, on every target. *)
Theorem add_coef_high_gain_exact offsetError o :
  valid_binary 24 128 offsetError = true ->
  SF2Q offsetError = Some o ->
  (- (8192 # 1) <= o)%Q -> (o <= 8192 # 1)%Q ->
  forall cvt,
    ComputeAddCoefADC1410 cvt offsetError true
      = Qtrunc (o * inject_Z (2 ^ 17) + (1 # 2)) mod 2 ^ 18.
Proof.
  intros Hv Ho Hlo Hhi cvt.
  destruct (add_fval_high_value offsetError o Hv Ho Hlo Hhi) as (q & Hq & Hqo).
  destruct (add_coef_bounded offsetError true) as (q' & Hq' & _ & Hc).
  { apply (abs_le_pow2_of_Q offsetError o 13 Ho); [lia|exact Hlo|exact Hhi]. }
  rewrite Hq in Hq'. apply Some_inj in Hq'. subst q'.
  rewrite Hc. f_equal. apply Qtrunc_comp. rewrite Hqo. reflexivity.
Qed.

Lemma add_coef_high_gain_exact_witness :
  ComputeAddCoefADC1410 cvt_x86 (float_dyadic 3 (-2)) true
    = Qtrunc ((12582912 # 16777216) * inject_Z (2 ^ 17) + (1 # 2)) mod 2 ^ 18.
Proof.
  apply (add_coef_high_gain_exact (float_dyadic 3 (-2)) (12582912 # 16777216)).
  - vm_compute. reflexivity.
  - vm_compute. reflexivity.
  - vm_compute. intro H; discriminate H.
  - vm_compute. intro H; discriminate H.
Defined.

Lemma Qtrunc_int_half k :
  Qtrunc (inject_Z k + (1 # 2)) = if k <? 0 then k + 1 else k.
Proof.
  unfold Qtrunc, Qplus, inject_Z. cbn [Qnum Qden].
  change (Zpos (1 * 2)) with 2.
  destruct (k <? 0) eqn:E; [apply Z.ltb_lt in E|apply Z.ltb_ge in E];
    Z.quot_rem_to_equations; lia.
Qed.

(** X12.  High gain, offsets on the register grid: when the offset
    error is exactly k / 2^17 for an integer k, the function returns k
    modulo 2^18 for k >= 0 and k + 1 modulo 2^18 for k < 0. *)
Theorem add_coef_high_gain_on_grid offsetError o k :
  valid_binary 24 128 offsetError = true ->
  SF2Q offsetError = Some o ->
  (o * inject_Z (2 ^ 17) == inject_Z k)%Q ->
  - 2 ^ 30 <= k <= 2 ^ 30 ->
  forall cvt,
    ComputeAddCoefADC1410 cvt offsetError true
      = (if k <? 0 then k + 1 else k) mod 2 ^ 18.
Proof.
  intros Hv Ho Hk Hr cvt.
  assert (Hz : (0 < inject_Z (2 ^ 17))%Q) by reflexivity.
  assert (Hlo : (- (8192 # 1) <= o)%Q).
  { apply (Qmult_le_r _ _ (inject_Z (2 ^ 17)) Hz). rewrite Hk.
    change (- (8192 # 1) * inject_Z (2 ^ 17))%Q with (inject_Z (- 2 ^ 30)).
    rewrite <- Zle_Qle. lia. }
  assert (Hhi : (o <= 8192 # 1)%Q).
  { apply (Qmult_le_r _ _ (inject_Z (2 ^ 17)) Hz). rewrite Hk.
    change ((8192 # 1) * inject_Z (2 ^ 17))%Q with (inject_Z (2 ^ 30)).
    rewrite <- Zle_Qle. lia. }
  destruct (add_fval_high_value offsetError o Hv Ho Hlo Hhi) as (q & Hq & Hqo).
  destruct (add_coef_bounded offsetError true) as (q' & Hq' & _ & Hc).
  { apply (abs_le_pow2_of_Q offsetError o 13 Ho); [lia|exact Hlo|exact Hhi]. }
  rewrite Hq in Hq'. apply Some_inj in Hq'. subst q'.
  rewrite Hc. f_equal. rewrite <- Qtrunc_int_half.
  apply Qtrunc_comp. rewrite Hqo, Hk. reflexivity.
Qed.

Lemma add_coef_high_gain_on_grid_witness :
  ComputeAddCoefADC1410 cvt_x86 (float_dyadic (-3) (-17)) true
    = (if -3 <? 0 then -3 + 1 else -3) mod 2 ^ 18.
Proof.
  apply (add_coef_high_gain_on_grid (float_dyadic (-3) (-17))
           (-12582912 # 549755813888) (-3)).
  - vm_compute. reflexivity.
  - vm_compute. reflexivity.
  - vm_compute. reflexivity.
  - vm_compute. split; intro H; discriminate H.
Defined.

(** X17.  In the high-gain range the rounded offset is monotone: of two
    binary32 offset errors of magnitude at most 8192, the larger one
    never gets the smaller rounded value (before the 18-bit mask), on
    every target. *)
Theorem add_high_gain_monotone ca1 ca2 o1 o2 :
  valid_binary 24 128 ca1 = true -> valid_binary 24 128 ca2 = true ->
  SF2Q ca1 = Some o1 -> SF2Q ca2 = Some o2 ->
  (- (8192 # 1) <= o1)%Q -> (o1 <= o2)%Q -> (o2 <= 8192 # 1)%Q ->
  forall cvt,
    round_ival cvt (add_fval ca1 true) <= round_ival cvt (add_fval ca2 true).
Proof.
  intros Hv1 Hv2 Ho1 Ho2 Hlo Hle Hhi cvt.
  assert (Hhi1 : (o1 <= 8192 # 1)%Q) by lra.
  assert (Hlo2 : (- (8192 # 1) <= o2)%Q) by lra.
  destruct (add_fval_high_value ca1 o1 Hv1 Ho1 Hlo Hhi1) as (q1 & Hq1 & Hqo1).
  destruct (add_fval_high_value ca2 o2 Hv2 Ho2 Hlo2 Hhi) as (q2 & Hq2 & Hqo2).
  assert (Hb1 : abs_le_pow2 (add_fval ca1 true) 30).
  { apply add_fval_abs_le.
    apply (abs_le_pow2_of_Q ca1 o1 13 Ho1); [lia|exact Hlo|exact Hhi1]. }
  assert (Hb2 : abs_le_pow2 (add_fval ca2 true) 30).
  { apply add_fval_abs_le.
    apply (abs_le_pow2_of_Q ca2 o2 13 Ho2); [lia|exact Hlo2|exact Hhi]. }
  unfold add_fval in *.
  destruct (round_ival_bounded _ Hb1) as (q1' & Hq1' & _ & Hr1).
  destruct (round_ival_bounded _ Hb2) as (q2' & Hq2' & _ & Hr2).
  rewrite Hq1 in Hq1'. apply Some_inj in Hq1'. subst q1'.
  rewrite Hq2 in Hq2'. apply Some_inj in Hq2'. subst q2'.
  rewrite Hr1, Hr2. apply Qtrunc_le.
  change (inject_Z (2 ^ 17)) with 131072%Q in Hqo1, Hqo2. lra.
Qed.

Lemma add_high_gain_monotone_witness :
  round_ival cvt_x86 (add_fval (float_dyadic (-3) (-17)) true)
    <= round_ival cvt_x86 (add_fval (float_dyadic 3 (-2)) true).
Proof.
  apply (add_high_gain_monotone (float_dyadic (-3) (-17)) (float_dyadic 3 (-2))
           (-12582912 # 549755813888) (12582912 # 16777216)).
  - vm_compute. reflexivity.
  - vm_compute. reflexivity.
  - vm_compute. reflexivity.
  - vm_compute. reflexivity.
  - vm_compute. intro H; discriminate H.
  - vm_compute. intro H; discriminate H.
  - vm_compute. intro H; discriminate H.
Defined.

(** X13.  A NaN or an infinite calibration value reaches the conversion
    of lines 199 and 231 as it is: both functions return the low 18 bits
    of whatever the target's conversion delivers for that NaN or
    infinity. *)
Theorem nonfinite_values_reach_the_conversion cvt fHighGain :
  ComputeMultCoefADC1410 cvt S754_nan fHighGain
    = keep18 (int32_of_bits (cvt S754_nan)) /\
  ComputeAddCoefADC1410 cvt S754_nan fHighGain
    = keep18 (int32_of_bits (cvt S754_nan)) /\
  (forall s,
     ComputeMultCoefADC1410 cvt (S754_infinity s) fHighGain
       = keep18 (int32_of_bits (cvt (S754_infinity s))) /\
     ComputeAddCoefADC1410 cvt (S754_infinity s) fHighGain
       = keep18 (int32_of_bits (cvt (S754_infinity s)))).
Proof.
  split; [destruct fHighGain; reflexivity|].
  split; [destruct fHighGain; reflexivity|].
  intros s. destruct s, fHighGain; split; reflexivity.
Qed.

(* ================================================================== *)
(** ** Rounding errors: the code against the formula over the rationals *)
(* ================================================================== *)

(** *** Closeness of rational numbers through a common scale *)

Lemma Qeps_scaled t T :
  0 <= t <= T ->
  ((1 # Z.to_pos (2 ^ t)) * inject_Z (2 ^ T) == inject_Z (2 ^ (T - t)))%Q.
Proof.
  intros H. pose proof (pow2_gt0 t ltac:(lia)) as Hp.
  unfold Qeq, Qmult, inject_Z. cbn [Qnum Qden].
  rewrite Pos2Z.inj_mul, Z2Pos.id by assumption.
  replace T with ((T - t) + t) at 1 by lia. rewrite pow2_split by lia. lia.
Qed.

Lemma Q_close_of_scaled x y A B T t :
  0 <= t <= T ->
  (x * inject_Z (2 ^ T) == inject_Z A)%Q ->
  (y * inject_Z (2 ^ T) == inject_Z B)%Q ->
  - 2 ^ (T - t) <= A - B <= 2 ^ (T - t) ->
  (y - (1 # Z.to_pos (2 ^ t)) <= x)%Q /\ (x <= y + (1 # Z.to_pos (2 ^ t)))%Q.
Proof.
  intros Ht Hx Hy Hd.
  assert (HP : (0 < inject_Z (2 ^ T))%Q).
  { rewrite <- (Zlt_Qlt 0). apply pow2_gt0; lia. }
  pose proof (Qeps_scaled t T Ht) as He.
  split; apply (Qmult_le_r _ _ _ HP).
  - setoid_replace ((y - (1 # Z.to_pos (2 ^ t))) * inject_Z (2 ^ T))%Q
      with (inject_Z (B - 2 ^ (T - t)))
      by (unfold Z.sub at 1; rewrite inject_Z_plus, inject_Z_opp, <- Hy, <- He; ring).
    rewrite Hx. rewrite <- Zle_Qle. lia.
  - setoid_replace ((y + (1 # Z.to_pos (2 ^ t))) * inject_Z (2 ^ T))%Q
      with (inject_Z (B + 2 ^ (T - t)))
      by (rewrite inject_Z_plus, <- Hy, <- He; ring).
    rewrite Hx. rewrite <- Zle_Qle. lia.
Qed.

Lemma Q_eq_of_scaled x y A T :
  0 <= T ->
  (x * inject_Z (2 ^ T) == inject_Z A)%Q ->
  (y * inject_Z (2 ^ T) == inject_Z A)%Q ->
  (x == y)%Q.
Proof.
  intros HT Hx Hy.
  apply (Qmult_inj_r _ _ (inject_Z (2 ^ T))).
  - intros H. pose proof (pow2_gt0 T HT) as Hp.
    unfold Qeq, inject_Z in H. cbn [Qnum Qden] in H. lia.
  - rewrite Hx, Hy. reflexivity.
Qed.

Module Err.

Section Format.

Variables prec emax : Z.
Hypothesis prec_gt_0 : 0 < prec.

Local Abbreviation fexp := (SpecFloat.fexp prec emax).
Local Abbreviation emin := (SpecFloat.emin prec emax).

(** Rounding a mantissa at exponent [e], with the location of the
    number above it: the result lies between the mantissa truncated to
    the exponent [b] of the format and the next one, in units of
    [2^b]. *)
Lemma binary_round_aux_encl s m e l :
  0 <= m ->
  exists m3 e3,
    binary_round_aux prec emax s m e l = SFbuild prec emax s m3 e3 /\
    Z.max (fexp (Zdigits2 m + e)) e <= e3
      <= Z.max (fexp (Zdigits2 m + e)) e + 1 /\
    m / 2 ^ (Z.max (fexp (Zdigits2 m + e)) e - e)
      <= m3 * 2 ^ (e3 - Z.max (fexp (Zdigits2 m + e)) e)
      <= m / 2 ^ (Z.max (fexp (Zdigits2 m + e)) e - e) + 1.
Proof.
  intros Hm0. rewrite binary_round_aux_eq.
  set (dM := Zdigits2 m) in *.
  assert (HdM : 0 <= dM) by (apply Zdigits2_nonneg; assumption).
  assert (HM : m < 2 ^ dM) by (apply Zdigits2_lt; lia).
  set (u := fexp (dM + e)) in *.
  assert (Humin : emin <= u) by apply fexp_ge_emin.
  assert (Huge : dM + e - prec <= u) by (apply fexp_ge; assumption).
  set (b := Z.max u e).
  (* the first shift and the rounding *)
  assert (Hstep1 : exists m2,
    round_nearest_even (shr_m (fst (shr_fexp prec emax m e l)))
      (loc_of_shr_record (fst (shr_fexp prec emax m e l))) = m2 /\
    snd (shr_fexp prec emax m e l) = b /\
    m / 2 ^ (b - e) <= m2 <= m / 2 ^ (b - e) + 1 /\
    m / 2 ^ (b - e) < 2 ^ prec).
  { destruct (shr_fexp_any prec emax m e l Hm0) as [Hno Hsh]. fold dM u in Hno, Hsh.
    destruct (Z_le_gt_dec u e) as [Hle|Hgt].
    - rewrite (Hno Hle). cbn [fst snd].
      destruct (loc_roundtrip m l) as [-> ->].
      eexists. split; [reflexivity|].
      replace b with e by (unfold b; lia). split; [reflexivity|].
      replace (e - e) with 0 by lia. rewrite Z.pow_0_r, Z.div_1_r.
      split; [apply rne_bounds|].
      assert (2 ^ dM <= 2 ^ prec) by (apply pow2_le; lia). lia.
    - destruct (Hsh ltac:(lia)) as (He1 & Hm1 & _).
      eexists. split; [reflexivity|].
      replace b with u by (unfold b; lia). split; [exact He1|].
      rewrite Hm1. split; [apply rne_bounds|].
      destruct (Z_le_gt_dec (u - e) dM) as [Hc|Hc].
      + assert (m / 2 ^ (u - e) < 2 ^ (dM - (u - e))) by (apply div_pow2_lt; lia).
        assert (2 ^ (dM - (u - e)) <= 2 ^ prec) by (apply pow2_le; lia). lia.
      + rewrite (div_pow2_small m dM (u - e)) by lia. apply pow2_gt0; lia. }
  destruct Hstep1 as (m2 & -> & -> & Hm2 & Hm1p).
  assert (Hb : emin <= b) by (unfold b; lia).
  assert (Hpb : 0 < 2 ^ (b - e)) by (apply pow2_gt0; unfold b; lia).
  assert (Hm10 : 0 <= m / 2 ^ (b - e)) by (apply Z.div_pos; lia).
  destruct (shr_fexp_any prec emax m2 b loc_Exact ltac:(lia)) as [Hno Hsh].
  set (e3f := fexp (Zdigits2 m2 + b)) in *.
  destruct (Z_le_gt_dec e3f b) as [Hle|Hgt].
  - rewrite (Hno Hle). cbn [fst snd shr_record_of_loc shr_m].
    exists m2, b. split; [reflexivity|]. split; [lia|].
    replace (b - b) with 0 by lia. rewrite Z.pow_0_r. lia.
  - (* a second shift: the rounded mantissa is 2^prec *)
    destruct (Hsh ltac:(lia)) as (He3 & Hm3 & _).
    assert (Hm2eq : m2 = 2 ^ prec).
    { destruct (Z_lt_ge_dec m2 (2 ^ prec)) as [Hc|Hc]; [exfalso|lia].
      pose proof (Zdigits2_le_of_lt m2 prec ltac:(lia) ltac:(lia) Hc).
      unfold e3f, SpecFloat.fexp in Hgt. fold emin in Hgt. lia. }
    assert (Hd2 : Zdigits2 m2 = prec + 1).
    { rewrite Hm2eq.
      replace (2 ^ prec) with (1 * 2 ^ prec) by lia.
      rewrite (Zdigits2_mul_pow2 1 prec) by lia.
      change (Zdigits2 1) with 1. lia. }
    assert (He3f : e3f = b + 1).
    { unfold e3f. rewrite Hd2. unfold SpecFloat.fexp. fold emin. lia. }
    rewrite He3, Hm3. exists (m2 / 2 ^ (e3f - b)), e3f.
    split; [reflexivity|]. split; [lia|].
    rewrite He3f. replace (b + 1 - b) with 1 by lia. change (2 ^ 1) with 2.
    assert (Hdiv : m2 / 2 * 2 = m2).
    { rewrite Hm2eq. replace prec with ((prec - 1) + 1) at 1 by lia.
      rewrite pow2_split by lia. change (2 ^ 1) with 2.
      rewrite Z.div_mul by lia.
      replace prec with ((prec - 1) + 1) at 2 by lia.
      rewrite pow2_split by lia. reflexivity. }
    lia.
Qed.

Hypothesis emax_prec : 1 <= emax - prec.

(** The value of what rounding builds, scaled to an integer. *)
Lemma SFbuild_scaled s m3 e3 T :
  0 <= m3 -> (0 < m3 -> e3 <= emax - prec) -> 0 <= T -> 0 <= e3 + T ->
  exists q,
    SF2Q (SFbuild prec emax s m3 e3) = Some q /\
    (q * inject_Z (2 ^ T) == inject_Z (cond_Zopp s (m3 * 2 ^ (e3 + T))))%Q.
Proof.
  intros Hm He HT HeT. unfold SFbuild.
  destruct m3 as [|p|p]; try lia.
  - exists 0%Q. split; [reflexivity|]. destruct s; reflexivity.
  - replace (e3 <=? emax - prec) with true
      by (symmetry; apply Z.leb_le; apply He; lia).
    apply SF2Q_scaled; assumption.
Qed.

(** [binary_round_aux] on an exact mantissa: the value moves by at most
    [2^-t]. *)
Lemma binary_round_aux_Q s m e k t q :
  Zpos m <= 2 ^ (k - e) -> emin <= k <= emax - prec ->
  0 <= t -> emin <= - t -> k + 1 - prec <= - t ->
  SF2Q (S754_finite s m e) = Some q ->
  exists qr,
    SF2Q (binary_round_aux prec emax s (Zpos m) e loc_Exact) = Some qr /\
    (q - (1 # Z.to_pos (2 ^ t)) <= qr)%Q /\ (qr <= q + (1 # Z.to_pos (2 ^ t)))%Q.
Proof.
  intros Hb Hk Ht Hemin Hkt Hq.
  assert (Hke : 0 <= k - e) by (apply (pow2_pos_exp (Zpos m)); lia).
  set (u := fexp (Zdigits2 (Zpos m) + e)).
  assert (Hu : u <= - t).
  { pose proof (Zdigits2_le_pow2 (Zpos m) (k - e) ltac:(lia) Hb).
    unfold u, SpecFloat.fexp. fold emin. lia. }
  destruct (Z_le_gt_dec u e) as [Hle|Hgt].
  - (* nothing is shifted out *)
    rewrite (binary_round_aux_fits prec emax s m e Hle). unfold SFbuild.
    replace (e <=? emax - prec) with true by (symmetry; apply Z.leb_le; lia).
    exists q. split; [exact Hq|].
    assert (0 < 1 # Z.to_pos (2 ^ t))%Q by reflexivity. split; lra.
  - destruct (binary_round_aux_encl s (Zpos m) e loc_Exact ltac:(lia))
      as (m3 & e3 & -> & He3 & Henc).
    fold u in He3, Henc. rewrite (Z.max_l u e) in He3, Henc by lia.
    set (T := - e).
    pose proof (pow2_gt0 (u - e) ltac:(lia)) as HP.
    assert (Hm30 : 0 <= m3).
    { pose proof (pow2_gt0 (e3 - u) ltac:(lia)).
      assert (0 <= Zpos m / 2 ^ (u - e)) by (apply Z.div_pos; lia). nia. }
    destruct (SFbuild_scaled s m3 e3 T Hm30 ltac:(lia) ltac:(unfold T; lia)
                ltac:(unfold T; lia)) as (qr & Hqr & Hqrv).
    destruct (SF2Q_scaled s m e T ltac:(unfold T; lia) ltac:(unfold T; lia))
      as (q' & Hq' & Hqv).
    rewrite Hq in Hq'. apply Some_inj in Hq'. subst q'.
    exists qr. split; [exact Hqr|].
    apply (Q_close_of_scaled qr q _ _ T t ltac:(unfold T; lia) Hqrv Hqv).
    replace (e + T) with 0 by (unfold T; lia). rewrite Z.pow_0_r, Z.mul_1_r.
    replace (e3 + T) with ((e3 - u) + (u - e)) by (unfold T; lia).
    rewrite pow2_split by lia.
    assert (2 ^ (u - e) <= 2 ^ (T - t)) by (apply pow2_le; unfold T; lia).
    pose proof (Z.mul_div_le (Zpos m) (2 ^ (u - e)) HP).
    pose proof (Z.mul_succ_div_gt (Zpos m) (2 ^ (u - e)) HP).
    set (f := Zpos m / 2 ^ (u - e)) in *.
    set (P := 2 ^ (u - e)) in *.
    set (M3 := m3 * 2 ^ (e3 - u)) in *.
    rewrite Z.mul_assoc. fold M3.
    destruct s; unfold cond_Zopp; nia.
Qed.

(** [binary_round]: the same, after the alignment. *)
Lemma binary_round_Q s m e k t q :
  Zpos m <= 2 ^ (k - e) -> emin <= k <= emax - prec ->
  0 <= t -> emin <= - t -> k + 1 - prec <= - t ->
  SF2Q (S754_finite s m e) = Some q ->
  exists qr,
    SF2Q (binary_round prec emax s m e) = Some qr /\
    (q - (1 # Z.to_pos (2 ^ t)) <= qr)%Q /\ (qr <= q + (1 # Z.to_pos (2 ^ t)))%Q.
Proof.
  intros Hb Hk Ht Hemin Hkt Hq.
  assert (Hke : 0 <= k - e) by (apply (pow2_pos_exp (Zpos m)); lia).
  set (fe := fexp (Zdigits2 (Zpos m) + e)).
  destruct (Z_le_gt_dec fe e) as [Hle|Hgt].
  - rewrite (binary_round_exact_up prec emax s m e Hle). fold fe.
    set (T := Z.max t (- fe)).
    pose proof (pow2_gt0 (e - fe) ltac:(lia)) as HP.
    destruct (SFbuild_scaled s (Zpos m * 2 ^ (e - fe)) fe T ltac:(lia)
                ltac:(lia) ltac:(unfold T; lia) ltac:(unfold T; lia))
      as (qr & Hqr & Hqrv).
    destruct (SF2Q_scaled s m e T ltac:(unfold T; lia) ltac:(unfold T; lia))
      as (q' & Hq' & Hqv).
    rewrite Hq in Hq'. apply Some_inj in Hq'. subst q'.
    exists qr. split; [exact Hqr|].
    assert (Heq : (qr == q)%Q).
    { apply (Q_eq_of_scaled qr q _ T ltac:(unfold T; lia) Hqrv).
      rewrite Hqv. rewrite <- Z.mul_assoc, <- pow2_split by (unfold T; lia).
      replace (e - fe + (fe + T)) with (e + T) by lia. reflexivity. }
    assert (0 < 1 # Z.to_pos (2 ^ t))%Q by reflexivity. split; lra.
  - unfold binary_round.
    change (Zpos (digits2_pos m)) with (Zdigits2 (Zpos m)). fold fe.
    rewrite shl_align_gt by lia.
    now apply (binary_round_aux_Q s m e k t q).
Qed.

Lemma binary_normalize_Q S e k t X T :
  Z.abs S <= 2 ^ (k - e) -> emin <= k <= emax - prec ->
  0 <= t -> emin <= - t -> k + 1 - prec <= - t ->
  0 <= T -> 0 <= e + T ->
  (X * inject_Z (2 ^ T) == inject_Z (S * 2 ^ (e + T)))%Q ->
  exists qr,
    SF2Q (binary_normalize prec emax S e false) = Some qr /\
    (X - (1 # Z.to_pos (2 ^ t)) <= qr)%Q /\ (qr <= X + (1 # Z.to_pos (2 ^ t)))%Q.
Proof.
  intros Hb Hk Ht Hemin Hkt HT HeT HX.
  assert (Heps : (0 < 1 # Z.to_pos (2 ^ t))%Q) by reflexivity.
  destruct S as [|p|p]; unfold binary_normalize.
  - exists 0%Q. split; [reflexivity|].
    assert (X == 0)%Q.
    { apply (Q_eq_of_scaled X 0 0 T HT); [rewrite HX|]; reflexivity. }
    split; lra.
  - destruct (SF2Q_scaled false p e T HT HeT) as (q & Hq & Hqv).
    assert (Heq : (q == X)%Q) by (apply (Q_eq_of_scaled q X _ T HT Hqv HX)).
    destruct (binary_round_Q false p e k t q ltac:(lia) Hk Ht Hemin Hkt Hq)
      as (qr & Hqr & Hlo & Hhi).
    exists qr. split; [exact Hqr|]. split; lra.
  - destruct (SF2Q_scaled true p e T HT HeT) as (q & Hq & Hqv).
    assert (Heq : (q == X)%Q).
    { apply (Q_eq_of_scaled q X _ T HT Hqv). rewrite HX.
      unfold cond_Zopp. replace (Zneg p * 2 ^ (e + T)) with (- (Zpos p * 2 ^ (e + T))) by lia.
      reflexivity. }
    destruct (binary_round_Q true p e k t q ltac:(lia) Hk Ht Hemin Hkt Hq)
      as (qr & Hqr & Hlo & Hhi).
    exists qr. split; [exact Hqr|]. split; lra.
Qed.

Lemma cond_Zopp_mul sx sy a b :
  cond_Zopp (xorb sx sy) (a * b) = cond_Zopp sx a * cond_Zopp sy b.
Proof. destruct sx, sy; unfold cond_Zopp; simpl; lia. Qed.

(** The product: within [2^-t] of the product of the values. *)
Lemma SFmul_Q x y kx ky t qx qy :
  abs_le_pow2 x kx -> abs_le_pow2 y ky ->
  SF2Q x = Some qx -> SF2Q y = Some qy ->
  emin <= kx + ky <= emax - prec ->
  0 <= t -> emin <= - t -> kx + ky + 1 - prec <= - t ->
  exists qr,
    SF2Q (SFmul prec emax x y) = Some qr /\
    (qx * qy - (1 # Z.to_pos (2 ^ t)) <= qr)%Q /\
    (qr <= qx * qy + (1 # Z.to_pos (2 ^ t)))%Q.
Proof.
  intros Hx Hy Hqx Hqy Hk Ht Hemin Hkt.
  assert (Heps : (0 < 1 # Z.to_pos (2 ^ t))%Q) by reflexivity.
  destruct x as [sx|sx| |sx mx ex], y as [sy|sy| |sy my ey];
    simpl in Hx, Hy; try contradiction.
  - apply Some_inj in Hqx. subst qx. exists 0%Q. split; [reflexivity|]. split; lra.
  - apply Some_inj in Hqx. subst qx. exists 0%Q. split; [reflexivity|]. split; lra.
  - apply Some_inj in Hqy. subst qy. exists 0%Q. split; [reflexivity|]. split; lra.
  - unfold SFmul.
    assert (Hkx : 0 <= kx - ex) by (apply (pow2_pos_exp (Zpos mx)); lia).
    assert (Hky : 0 <= ky - ey) by (apply (pow2_pos_exp (Zpos my)); lia).
    set (T1 := Z.max 0 (- ex)). set (T2 := Z.max 0 (- ey)).
    destruct (SF2Q_scaled sx mx ex T1 ltac:(unfold T1; lia) ltac:(unfold T1; lia))
      as (qx' & Hqx' & Hxv).
    rewrite Hqx in Hqx'. apply Some_inj in Hqx'. subst qx'.
    destruct (SF2Q_scaled sy my ey T2 ltac:(unfold T2; lia) ltac:(unfold T2; lia))
      as (qy' & Hqy' & Hyv).
    rewrite Hqy in Hqy'. apply Some_inj in Hqy'. subst qy'.
    destruct (SF2Q_scaled (xorb sx sy) (mx * my) (ex + ey) (T1 + T2)
                ltac:(unfold T1, T2; lia) ltac:(unfold T1, T2; lia))
      as (q0 & Hq0 & H0v).
    assert (Heq : (q0 == qx * qy)%Q).
    { apply (Q_eq_of_scaled q0 (qx * qy) _ (T1 + T2) ltac:(unfold T1, T2; lia) H0v).
      rewrite Pos2Z.inj_mul.
      replace (ex + ey + (T1 + T2)) with ((ex + T1) + (ey + T2)) by lia.
      rewrite (pow2_split (ex + T1)) by (unfold T1, T2; lia).
      replace (Zpos mx * Zpos my * (2 ^ (ex + T1) * 2 ^ (ey + T2)))
        with ((Zpos mx * 2 ^ (ex + T1)) * (Zpos my * 2 ^ (ey + T2))) by ring.
      rewrite cond_Zopp_mul, inject_Z_mult, <- Hxv, <- Hyv.
      rewrite (pow2_split T1) by (unfold T1, T2; lia).
      rewrite inject_Z_mult. ring. }
    destruct (binary_round_aux_Q (xorb sx sy) (mx * my) (ex + ey) (kx + ky) t q0)
      as (qr & Hqr & Hlo & Hhi); try assumption.
    { rewrite Pos2Z.inj_mul.
      replace (kx + ky - (ex + ey)) with ((kx - ex) + (ky - ey)) by lia.
      rewrite pow2_split by lia. apply Z.mul_le_mono_nonneg; lia. }
    exists qr. split; [exact Hqr|]. split; lra.
Qed.

(** The sum: within [2^-t] of the sum of the values. *)
Lemma SFadd_Q x y k t qx qy :
  abs_le_pow2 x k -> abs_le_pow2 y k ->
  SF2Q x = Some qx -> SF2Q y = Some qy ->
  emin <= k + 1 <= emax - prec ->
  0 <= t -> emin <= - t -> k + 2 - prec <= - t ->
  exists qr,
    SF2Q (SFadd prec emax x y) = Some qr /\
    (qx + qy - (1 # Z.to_pos (2 ^ t)) <= qr)%Q /\
    (qr <= qx + qy + (1 # Z.to_pos (2 ^ t)))%Q.
Proof.
  intros Hx Hy Hqx Hqy Hk Ht Hemin Hkt.
  assert (Heps : (0 < 1 # Z.to_pos (2 ^ t))%Q) by reflexivity.
  destruct x as [sx|sx| |sx mx ex], y as [sy|sy| |sy my ey];
    simpl in Hx, Hy; try contradiction.
  - apply Some_inj in Hqx. apply Some_inj in Hqy. subst qx qy.
    exists 0%Q. split; [destruct sx, sy; reflexivity|]. split; lra.
  - apply Some_inj in Hqx. subst qx.
    exists qy. split; [exact Hqy|]. split; lra.
  - apply Some_inj in Hqy. subst qy.
    exists qx. split; [exact Hqx|]. split; lra.
  - unfold SFadd.
    set (ez := Z.min ex ey).
    destruct (shl_align_le mx ex ez ltac:(lia)) as [_ ->].
    destruct (shl_align_le my ey ez ltac:(lia)) as [_ ->].
    assert (Hkx : 0 <= k - ex) by (apply (pow2_pos_exp (Zpos mx)); lia).
    assert (Hky : 0 <= k - ey) by (apply (pow2_pos_exp (Zpos my)); lia).
    set (T := Z.max 0 (- ez)).
    destruct (SF2Q_scaled sx mx ex T ltac:(unfold T; lia) ltac:(unfold T; lia))
      as (qx' & Hqx' & Hxv).
    rewrite Hqx in Hqx'. apply Some_inj in Hqx'. subst qx'.
    destruct (SF2Q_scaled sy my ey T ltac:(unfold T; lia) ltac:(unfold T; lia))
      as (qy' & Hqy' & Hyv).
    rewrite Hqy in Hqy'. apply Some_inj in Hqy'. subst qy'.
    pose proof (pow2_gt0 (ex - ez) ltac:(lia)) as Hpx.
    pose proof (pow2_gt0 (ey - ez) ltac:(lia)) as Hpy.
    apply (binary_normalize_Q _ ez (k + 1) t (qx + qy)%Q T); try assumption;
      try lia.
    + assert (Hx' : Zpos mx * 2 ^ (ex - ez) <= 2 ^ (k - ez)).
      { replace (k - ez) with ((k - ex) + (ex - ez)) by lia.
        rewrite pow2_split by lia. nia. }
      assert (Hy' : Zpos my * 2 ^ (ey - ez) <= 2 ^ (k - ez)).
      { replace (k - ez) with ((k - ey) + (ey - ez)) by lia.
        rewrite pow2_split by lia. nia. }
      replace (k + 1 - ez) with ((k - ez) + 1) by lia.
      rewrite pow2_split by lia. change (2 ^ 1) with 2.
      set (A := Zpos mx * 2 ^ (ex - ez)) in *.
      set (B := Zpos my * 2 ^ (ey - ez)) in *.
      assert (0 < A) by (unfold A; nia).
      assert (0 < B) by (unfold B; nia).
      clearbody A B.
      destruct sx, sy; unfold cond_Zopp; lia.
    + rewrite Qmult_plus_distr_l, Hxv, Hyv, <- inject_Z_plus.
      replace (ex + T) with ((ex - ez) + (ez + T)) by lia.
      replace (ey + T) with ((ey - ez) + (ez + T)) by lia.
      rewrite (pow2_split (ex - ez) (ez + T)), (pow2_split (ey - ez) (ez + T))
        by (unfold T; lia).
      apply inject_Z_injective.
      destruct sx, sy; unfold cond_Zopp; ring.
Qed.

(** The scaling argument of the quotient, on integers. *)
Lemma quotient_close sx mx my m3 ex ey e' e3 b t Tq Ty (qr qx qy : Q) :
  0 < my -> 0 <= ex - ey - e' ->
  e' <= b -> b <= e3 -> b <= - t -> 0 <= t -> t <= Tq ->
  0 <= e' + Tq -> 0 <= ex + Tq -> 0 <= Ty -> 0 <= ey + Ty ->
  (m3 * 2 ^ (e3 - b) - 1) * 2 ^ (b - e') * my <= mx * 2 ^ (ex - ey - e') ->
  mx * 2 ^ (ex - ey - e') <= (m3 * 2 ^ (e3 - b) + 1) * 2 ^ (b - e') * my ->
  (qr * inject_Z (2 ^ Tq) == inject_Z (cond_Zopp sx (m3 * 2 ^ (e3 + Tq))))%Q ->
  (qx * inject_Z (2 ^ Tq) == inject_Z (cond_Zopp sx (mx * 2 ^ (ex + Tq))))%Q ->
  (qy * inject_Z (2 ^ Ty) == inject_Z (cond_Zopp false (my * 2 ^ (ey + Ty))))%Q ->
  (qx - (1 # Z.to_pos (2 ^ t)) * qy <= qr * qy)%Q /\
  (qr * qy <= qx + (1 # Z.to_pos (2 ^ t)) * qy)%Q.
Proof.
  intros Hmy Hs Hb1 Hb2 Hbt Ht HtT HeT HxT HTy HyT Hlow Hupp Hqrv Hxv Hyv.
  cbn [cond_Zopp] in Hyv.
  set (R := m3 * 2 ^ (e3 - b)) in *.
  set (P := 2 ^ (b - e')) in *.
  set (m' := mx * 2 ^ (ex - ey - e')) in *.
  set (K1 := 2 ^ (e' + Tq)). set (K2 := 2 ^ (ey + Ty)).
  assert (HP : 0 < P) by (apply pow2_gt0; lia).
  assert (HK1 : 0 < K1) by (apply pow2_gt0; lia).
  assert (HK2 : 0 < K2) by (apply pow2_gt0; lia).
  assert (Hr3 : m3 * 2 ^ (e3 + Tq) = R * P * K1).
  { unfold R, P, K1.
    replace (e3 + Tq) with ((e3 - b) + ((b - e') + (e' + Tq))) by lia.
    rewrite !pow2_split by lia. ring. }
  assert (Hrx : mx * 2 ^ (ex + Tq) * 2 ^ Ty = m' * K1 * K2).
  { unfold m', K1, K2.
    assert (H1 : 2 ^ (ex + Tq) * 2 ^ Ty
                 = 2 ^ (ex - ey - e') * 2 ^ (e' + Tq) * 2 ^ (ey + Ty)).
    { rewrite <- !pow2_split by lia. f_equal. lia. }
    rewrite <- Z.mul_assoc, H1. ring. }
  assert (Hre : P * K1 <= 2 ^ (Tq - t)).
  { unfold P, K1. rewrite <- pow2_split by lia. apply pow2_le. lia. }
  pose proof (Qeps_scaled t Tq ltac:(lia)) as He.
  assert (HpTq : (0 < inject_Z (2 ^ Tq))%Q)
    by (rewrite <- (Zlt_Qlt 0); apply pow2_gt0; lia).
  assert (HpTy : (0 < inject_Z (2 ^ Ty))%Q)
    by (rewrite <- (Zlt_Qlt 0); apply pow2_gt0; lia).
  assert (HKK : (0 < inject_Z (2 ^ Tq) * inject_Z (2 ^ Ty))%Q)
    by (apply Qmult_lt_0_compat; assumption).
  assert (Hlhs : (qr * qy * (inject_Z (2 ^ Tq) * inject_Z (2 ^ Ty))
                  == inject_Z (cond_Zopp sx (R * P * my) * K1 * K2))%Q).
  { setoid_replace (qr * qy * (inject_Z (2 ^ Tq) * inject_Z (2 ^ Ty)))%Q
      with ((qr * inject_Z (2 ^ Tq)) * (qy * inject_Z (2 ^ Ty)))%Q by ring.
    rewrite Hqrv, Hyv, <- inject_Z_mult. rewrite Hr3. fold K2.
    apply inject_Z_injective. destruct sx; unfold cond_Zopp; ring. }
  assert (Hx2 : (qx * (inject_Z (2 ^ Tq) * inject_Z (2 ^ Ty))
                 == inject_Z (cond_Zopp sx m' * K1 * K2))%Q).
  { rewrite Qmult_assoc, Hxv, <- inject_Z_mult.
    apply inject_Z_injective.
    destruct sx; unfold cond_Zopp; [rewrite Z.mul_opp_l|]; rewrite Hrx; ring. }
  assert (Heq2 : ((1 # Z.to_pos (2 ^ t)) * qy
                    * (inject_Z (2 ^ Tq) * inject_Z (2 ^ Ty))
                  == inject_Z (2 ^ (Tq - t) * (my * K2)))%Q).
  { setoid_replace ((1 # Z.to_pos (2 ^ t)) * qy
                      * (inject_Z (2 ^ Tq) * inject_Z (2 ^ Ty)))%Q
      with (((1 # Z.to_pos (2 ^ t)) * inject_Z (2 ^ Tq))
              * (qy * inject_Z (2 ^ Ty)))%Q by ring.
    rewrite He, Hyv, <- inject_Z_mult. fold K2. reflexivity. }
  assert (Hmain : P * my * K1 * K2 <= 2 ^ (Tq - t) * (my * K2)).
  { replace (P * my * K1 * K2) with (P * K1 * (my * K2)) by ring.
    apply Z.mul_le_mono_nonneg_r; [apply Z.mul_nonneg_nonneg; lia|exact Hre]. }
  assert (HKp : 0 <= K1 * K2) by (apply Z.mul_nonneg_nonneg; lia).
  assert (Hl' : (R - 1) * P * my * (K1 * K2) <= m' * (K1 * K2))
    by (apply Z.mul_le_mono_nonneg_r; assumption).
  assert (Hu' : m' * (K1 * K2) <= (R + 1) * P * my * (K1 * K2))
    by (apply Z.mul_le_mono_nonneg_r; assumption).
  split; apply (Qmult_le_r _ _ _ HKK).
  - setoid_replace ((qx - (1 # Z.to_pos (2 ^ t)) * qy)
                      * (inject_Z (2 ^ Tq) * inject_Z (2 ^ Ty)))%Q
      with (qx * (inject_Z (2 ^ Tq) * inject_Z (2 ^ Ty))
            - (1 # Z.to_pos (2 ^ t)) * qy
                * (inject_Z (2 ^ Tq) * inject_Z (2 ^ Ty)))%Q by ring.
    rewrite Hx2, Heq2, Hlhs.
    unfold Qminus. rewrite <- inject_Z_opp, <- inject_Z_plus, <- Zle_Qle.
    clear - Hl' Hu' Hmain. destruct sx; unfold cond_Zopp; lia.
  - setoid_replace ((qx + (1 # Z.to_pos (2 ^ t)) * qy)
                      * (inject_Z (2 ^ Tq) * inject_Z (2 ^ Ty)))%Q
      with (qx * (inject_Z (2 ^ Tq) * inject_Z (2 ^ Ty))
            + (1 # Z.to_pos (2 ^ t)) * qy
                * (inject_Z (2 ^ Tq) * inject_Z (2 ^ Ty)))%Q by ring.
    rewrite Hx2, Heq2, Hlhs.
    rewrite <- inject_Z_plus, <- Zle_Qle.
    clear - Hl' Hu' Hmain. destruct sx; unfold cond_Zopp; lia.
Qed.

(** The quotient by a positive number: within [2^-t] of the quotient
    of the values, stated without division: |qr * qy - qx| <= 2^-t * qy. *)
Lemma SFdiv_Q x my ey k c t qx qy :
  abs_le_pow2 x k -> 0 <= c - ey -> 2 ^ (c - ey) <= Zpos my ->
  SF2Q x = Some qx -> SF2Q (S754_finite false my ey) = Some qy ->
  emin <= k - c <= emax - prec ->
  0 <= t -> emin <= - t -> k - c + 1 - prec <= - t ->
  exists qr,
    SF2Q (SFdiv prec emax x (S754_finite false my ey)) = Some qr /\
    (qx - (1 # Z.to_pos (2 ^ t)) * qy <= qr * qy)%Q /\
    (qr * qy <= qx + (1 # Z.to_pos (2 ^ t)) * qy)%Q.
Proof.
  intros Hx Hc Hy Hqx Hqy Hk Ht Hemin Hkt.
  assert (Heps : (0 < 1 # Z.to_pos (2 ^ t))%Q) by reflexivity.
  set (Ty := Z.max 0 (- ey)).
  destruct (SF2Q_scaled false my ey Ty ltac:(unfold Ty; lia) ltac:(unfold Ty; lia))
    as (qy' & Hqy' & Hyv).
  rewrite Hqy in Hqy'. apply Some_inj in Hqy'. subst qy'.
  cbn [cond_Zopp] in Hyv.
  assert (HpTy : (0 < inject_Z (2 ^ Ty))%Q).
  { rewrite <- (Zlt_Qlt 0). apply pow2_gt0; unfold Ty; lia. }
  assert (Hqy0 : (0 < qy)%Q).
  { apply (Qmult_lt_r _ _ _ HpTy). rewrite Hyv, Qmult_0_l.
    rewrite <- (Zlt_Qlt 0).
    pose proof (pow2_gt0 (ey + Ty) ltac:(unfold Ty; lia)). nia. }
  destruct x as [sx|sx| |sx mx ex]; simpl in Hx; try contradiction.
  - apply Some_inj in Hqx. subst qx.
    exists 0%Q. split; [reflexivity|].
    assert (0 <= (1 # Z.to_pos (2 ^ t)) * qy)%Q by (apply Qmult_le_0_compat; lra).
    split; lra.
  - unfold SFdiv, SFdiv_core_binary. rewrite xorb_false_right.
    set (d1 := Zdigits2 (Zpos mx)). set (d2 := Zdigits2 (Zpos my)).
    set (e' := Z.min (fexp (d1 + ex - (d2 + ey))) (ex - ey)).
    set (s := ex - ey - e').
    assert (Hs : 0 <= s) by (unfold s, e'; lia).
    assert (Hsdef : s = ex - ey - e') by reflexivity.
    clearbody s.
    assert (Hkx : 0 <= k - ex) by (apply (pow2_pos_exp (Zpos mx)); lia).
    assert (Hd1 : d1 <= k - ex + 1) by (apply Zdigits2_le_pow2; lia).
    assert (Hd2 : c - ey < d2).
    { pose proof (Zdigits2_lt (Zpos my) ltac:(lia)) as Hlt. fold d2 in Hlt.
      pose proof (Zdigits2_pos my) as Hd2p. fold d2 in Hd2p.
      apply (Z.pow_lt_mono_r_iff 2); lia. }
    assert (He' : e' <= - t) by (unfold e', SpecFloat.fexp; fold emin; lia).
    assert (He'' : e' <= k - c) by (unfold e', SpecFloat.fexp; fold emin; lia).
    set (m' := match s with Z0 => Zpos mx | Zpos _ => Z.shiftl (Zpos mx) s
                          | Zneg _ => 0 end).
    assert (Hm' : m' = Zpos mx * 2 ^ s).
    { unfold m'. destruct s as [|p|p]; try lia.
      apply Z.shiftl_mul_pow2. lia. }
    pose proof (Z_div_mod m' (Zpos my) ltac:(lia)) as Hdm.
    destruct (Z.div_eucl m' (Zpos my)) as [q r]. destruct Hdm as [Heq Hr].
    pose proof (pow2_gt0 s Hs) as Hps.
    assert (Hq0 : 0 <= q) by nia.
    (* the quotient is bounded *)
    assert (Hqb : q <= 2 ^ (k - c - e')).
    { pose proof (pow2_gt0 (k - c - e') ltac:(lia)) as HpB.
      pose proof (pow2_gt0 (c - ey) Hc) as HpA.
      assert (Hmb : m' <= 2 ^ (k - c - e') * 2 ^ (c - ey)).
      { rewrite <- pow2_split by lia. rewrite Hm'.
        replace (k - c - e' + (c - ey)) with ((k - ex) + s) by lia.
        rewrite pow2_split by lia.
        apply Z.mul_le_mono_nonneg_r; lia. }
      assert (Hmy : 2 ^ (k - c - e') * 2 ^ (c - ey) <= 2 ^ (k - c - e') * Zpos my)
        by (apply Z.mul_le_mono_nonneg_l; lia).
      assert (Hqm : q * Zpos my <= 2 ^ (k - c - e') * Zpos my) by lia.
      apply (Z.mul_le_mono_pos_r _ _ (Zpos my)); lia. }
    set (b := Z.max (fexp (Zdigits2 q + e')) e').
    assert (Hbt : b <= - t).
    { assert (fexp (Zdigits2 q + e') <= - t); [|unfold b; lia].
      destruct (Z.eq_dec q 0) as [->|Hqnz].
      - cbn [Zdigits2]. unfold SpecFloat.fexp. fold emin. lia.
      - pose proof (Zdigits2_le_pow2 q (k - c - e') ltac:(lia) Hqb).
        unfold SpecFloat.fexp. fold emin. lia. }
    destruct (binary_round_aux_encl sx q e' (new_location (Zpos my) r) Hq0)
      as (m3 & e3 & -> & He3 & Henc).
    fold b in He3, Henc.
    pose proof (pow2_gt0 (b - e') ltac:(unfold b; lia)) as HP.
    pose proof (pow2_gt0 (e3 - b) ltac:(lia)) as HP3.
    assert (HF0 : 0 <= q / 2 ^ (b - e')) by (apply Z.div_pos; lia).
    assert (Hm30 : 0 <= m3).
    { destruct (Z_lt_ge_dec m3 0) as [Hn|]; [exfalso|lia].
      assert (m3 * 2 ^ (e3 - b) < 0) by (apply Z.mul_neg_pos; lia). lia. }
    set (Tq := Z.max t (Z.max (- e') (- ex))).
    assert (HTq0 : 0 <= Tq) by (unfold Tq; clear - Ht; lia).
    assert (HTq3 : 0 <= e3 + Tq).
    { assert (e' <= b) by (unfold b; clear; lia).
      assert (0 <= e' + Tq) by (unfold Tq; clear; lia).
      clear - H H0 He3. lia. }
    assert (HTqx : 0 <= ex + Tq) by (unfold Tq; clear; lia).
    assert (Hfin : 0 < m3 -> e3 <= emax - prec)
      by (clear - He3 Hbt Ht emax_prec; lia).
    destruct (SFbuild_scaled sx m3 e3 Tq Hm30 Hfin HTq0 HTq3) as (qr & Hqr & Hqrv).
    destruct (SF2Q_scaled sx mx ex Tq HTq0 HTqx) as (qx' & Hqx' & Hxv).
    rewrite Hqx in Hqx'. apply Some_inj in Hqx'. subst qx'.
    exists qr. split; [exact Hqr|].
    (* integers: |R P my - m'| <= P my *)
    set (F := q / 2 ^ (b - e')) in *.
    set (P := 2 ^ (b - e')) in *.
    set (R := m3 * 2 ^ (e3 - b)) in *.
    pose proof (Z.mul_div_le q P HP) as HFl. fold F in HFl.
    pose proof (Z.mul_succ_div_gt q P HP) as HFu. fold F in HFu.
    assert (Hlow : (R - 1) * P * Zpos my <= m').
    { assert (H1 : (R - 1) * P <= F * P) by (apply Z.mul_le_mono_nonneg_r; lia).
      assert (H2 : (R - 1) * P <= q) by (clear - H1 HFl; lia).
      assert (H3 : (R - 1) * P * Zpos my <= q * Zpos my)
        by (apply Z.mul_le_mono_nonneg_r; lia).
      clear - H3 Heq Hr. lia. }
    assert (Hupp : m' <= (R + 1) * P * Zpos my).
    { assert (H1 : (F + 1) * P <= (R + 1) * P) by (apply Z.mul_le_mono_nonneg_r; lia).
      assert (H2 : q + 1 <= (R + 1) * P) by (clear - H1 HFu; lia).
      assert (H3 : (q + 1) * Zpos my <= (R + 1) * P * Zpos my)
        by (apply Z.mul_le_mono_nonneg_r; lia).
      clear - H3 Heq Hr. lia. }
    rewrite Hm', Hsdef in Hlow, Hupp.
    assert (Hs' : 0 <= ex - ey - e') by (clear - Hs Hsdef; lia).
    assert (Hb1 : e' <= b) by (unfold b; clear; lia).
    assert (Hb2 : b <= e3) by (clear - He3; lia).
    assert (HT1 : t <= Tq) by (unfold Tq; clear; lia).
    assert (HT2 : 0 <= e' + Tq) by (unfold Tq; clear; lia).
    assert (HT3 : 0 <= ex + Tq) by (unfold Tq; clear; lia).
    assert (HT4 : 0 <= Ty) by (unfold Ty; clear; lia).
    assert (HT5 : 0 <= ey + Ty) by (unfold Ty; clear; lia).
    exact (quotient_close sx (Zpos mx) (Zpos my) m3 ex ey e' e3 b t Tq Ty qr qx qy
             eq_refl Hs' Hb1 Hb2 Hbt Ht HT1 HT2 HT3 HT4 HT5 Hlow Hupp
             Hqrv Hxv Hyv).
Qed.

End Format.

End Err.

(** *** The conversions between the two formats *)

Lemma double_of_float_Q x k t q :
  abs_le_pow2 x k -> SF2Q x = Some q ->
  -1074 <= k <= 971 -> 0 <= t <= 1074 -> k + 1 - 53 <= - t ->
  exists qr,
    SF2Q (double_of_float x) = Some qr /\
    (q - (1 # Z.to_pos (2 ^ t)) <= qr)%Q /\ (qr <= q + (1 # Z.to_pos (2 ^ t)))%Q.
Proof.
  intros Hx Hq Hk Ht Hkt.
  assert (Heps : (0 < 1 # Z.to_pos (2 ^ t))%Q) by reflexivity.
  destruct x as [s|s| |s m e]; simpl in Hx; try contradiction.
  - exists q. split; [exact Hq|]. split; lra.
  - unfold double_of_float.
    apply (Err.binary_round_Q 53 1024 ltac:(lia) ltac:(lia) s m e k t q);
      try assumption; try lia; rewrite emin64; lia.
Qed.

Lemma float_of_double_Q x k t q :
  abs_le_pow2 x k -> SF2Q x = Some q ->
  -149 <= k <= 104 -> 0 <= t <= 149 -> k + 1 - 24 <= - t ->
  exists qr,
    SF2Q (float_of_double x) = Some qr /\
    (q - (1 # Z.to_pos (2 ^ t)) <= qr)%Q /\ (qr <= q + (1 # Z.to_pos (2 ^ t)))%Q.
Proof.
  intros Hx Hq Hk Ht Hkt.
  assert (Heps : (0 < 1 # Z.to_pos (2 ^ t))%Q) by reflexivity.
  destruct x as [s|s| |s m e]; simpl in Hx; try contradiction.
  - exists q. split; [exact Hq|]. split; lra.
  - unfold float_of_double.
    apply (Err.binary_round_Q 24 128 ltac:(lia) ltac:(lia) s m e k t q);
      try assumption; try lia; rewrite emin32; lia.
Qed.

(** *** Line 198 against the formula over the rationals *)

Lemma one_abs_le0 : abs_le_pow2 (float_of_int 1) 0.
Proof. vm_compute; intro H; discriminate H. Qed.

Lemma scale16_value :
  SF2Q (double_of_float (float_of_int (Z.shiftl 1 16)))
    = Some (4503599627370496 # 68719476736).
Proof. vm_compute. reflexivity. Qed.

Lemma ratio_value (fHighGain : bool) :
  SF2Q (if fHighGain
        then ddiv ADC1410_REAL_RANGE_ADC_HIGH ADC1410_IDEAL_RANGE_ADC_HIGH
        else ddiv ADC1410_REAL_RANGE_ADC_LOW ADC1410_IDEAL_RANGE_ADC_LOW)
  = Some (if fHighGain then 4890909195324359 # 4503599627370496
          else 4728779608739021 # 4503599627370496).
Proof. destruct fHighGain; vm_compute; reflexivity. Qed.

Lemma mult_fval_close cg fHighGain g :
  SF2Q cg = Some g -> (- (1) <= g)%Q -> (g <= 1)%Q ->
  exists q,
    SF2Q (mult_fval cg fHighGain) = Some q /\
    ((if fHighGain then 1086 # 1000 else 2625 # 2500) * (1 + g) * 65536
       - (1 # 16) <= q)%Q /\
    (q <= (if fHighGain then 1086 # 1000 else 2625 # 2500) * (1 + g) * 65536
            + (1 # 16))%Q.
Proof.
  intros Hg Hlo Hhi.
  assert (Hcg : abs_le_pow2 cg 0)
    by (apply (abs_le_pow2_of_Q cg g 0 Hg); [lia|exact Hlo|exact Hhi]).
  (* 1 + cg *)
  destruct (Err.SFadd_Q 24 128 ltac:(lia) ltac:(lia) (float_of_int 1) cg 0 22
              (8388608 # 8388608) g one_abs_le0 Hcg eq_refl Hg
              ltac:(rewrite emin32; lia) ltac:(lia) ltac:(rewrite emin32; lia)
              ltac:(lia))
    as (q1 & Hq1 & Hq1lo & Hq1hi).
  pose proof (SFadd_abs_le 24 128 ltac:(lia) (float_of_int 1) cg 0 one_abs_le0 Hcg
                ltac:(rewrite emin32; lia)) as Hb1.
  fold (fadd (float_of_int 1) cg) in Hq1, Hb1.
  change (0 + 1) with 1 in Hb1.
  (* widened *)
  destruct (double_of_float_Q _ 1 51 q1 Hb1 Hq1 ltac:(lia) ltac:(lia) ltac:(lia))
    as (q2 & Hq2 & Hq2lo & Hq2hi).
  pose proof (double_of_float_abs_le _ 1 ltac:(lia) Hb1) as Hb2.
  (* times the ratio *)
  destruct (Err.SFmul_Q 53 1024 ltac:(lia) ltac:(lia) _ _ 1 1 50 _ q2
              (ratio_abs_le fHighGain) Hb2 (ratio_value fHighGain) Hq2
              ltac:(rewrite emin64; lia) ltac:(lia) ltac:(rewrite emin64; lia)
              ltac:(lia))
    as (q3 & Hq3 & Hq3lo & Hq3hi).
  pose proof (SFmul_abs_le 53 1024 ltac:(lia) _ _ 1 1 (ratio_abs_le fHighGain) Hb2
                ltac:(rewrite emin64; lia)) as Hb3.
  change (1 + 1) with 2 in Hb3.
  (* times 2^16 *)
  destruct (Err.SFmul_Q 53 1024 ltac:(lia) ltac:(lia) _ _ 2 16 34 q3 _
              Hb3 scale16_abs_le Hq3 scale16_value
              ltac:(rewrite emin64; lia) ltac:(lia) ltac:(rewrite emin64; lia)
              ltac:(lia))
    as (q4 & Hq4 & Hq4lo & Hq4hi).
  pose proof (SFmul_abs_le 53 1024 ltac:(lia) _ _ 2 16 Hb3 scale16_abs_le
                ltac:(rewrite emin64; lia)) as Hb4.
  change (2 + 16) with 18 in Hb4.
  (* narrowed *)
  destruct (float_of_double_Q _ 18 5 q4 Hb4 Hq4 ltac:(lia) ltac:(lia) ltac:(lia))
    as (q & Hq & Hqlo & Hqhi).
  exists q. split; [exact Hq|].
  change (Z.to_pos (2 ^ 22)) with 4194304%positive in *.
  change (Z.to_pos (2 ^ 51)) with 2251799813685248%positive in *.
  change (Z.to_pos (2 ^ 50)) with 1125899906842624%positive in *.
  change (Z.to_pos (2 ^ 34)) with 17179869184%positive in *.
  change (Z.to_pos (2 ^ 5)) with 32%positive in *.
  destruct fHighGain; split; lra.
Qed.

(** X14.  Accuracy of the multiplicative coefficient.  For a gain error
    [g] in [-1, 1], with E = Ratio * (1 + g) * 2^16 over the rationals
    (Ratio = 1.086/1.0 or 26.25/25.0), the value assigned to [fval] is
    within 1/16 of E, and on every target the function returns an
    integer between floor(E + 7/16) and floor(E + 9/16): E rounded to
    nearest, except possibly when E is within 1/16 of a half-integer,
    and never more than 1 away from it. *)
Theorem mult_coef_accuracy (gainError : spec_float) (fHighGain : bool) (g : Q) :
  SF2Q gainError = Some g -> (- (1) <= g)%Q -> (g <= 1)%Q ->
  let E := ((if fHighGain then (1086 # 1000) / 1 else (2625 # 100) / 25)
            * (1 + g) * 65536)%Q in
  exists q,
    SF2Q (mult_fval gainError fHighGain) = Some q /\
    (E - (1 # 16) <= q)%Q /\ (q <= E + (1 # 16))%Q /\
    forall cvt,
      Qfloor (E + (7 # 16))
        <= ComputeMultCoefADC1410 cvt gainError fHighGain
        <= Qfloor (E + (9 # 16)).
Proof.
  intros Hg Hlo Hhi E.
  destruct (mult_fval_close gainError fHighGain g Hg Hlo Hhi) as (q & Hq & Hqlo & Hqhi).
  assert (HE : (E == (if fHighGain then 1086 # 1000 else 2625 # 2500)
                     * (1 + g) * 65536)%Q)
    by (unfold E; destruct fHighGain; reflexivity).
  exists q. split; [exact Hq|].
  split; [rewrite HE; exact Hqlo|]. split; [rewrite HE; exact Hqhi|].
  intros cvt.
  assert (HE0 : (0 <= E)%Q) by (rewrite HE; destruct fHighGain; lra).
  assert (HE1 : (E <= 142345)%Q) by (rewrite HE; destruct fHighGain; lra).
  assert (Hlo' : (E + (7 # 16) <= q + (1 # 2))%Q) by (rewrite HE; lra).
  assert (Hhi' : (q + (1 # 2) <= E + (9 # 16))%Q) by (rewrite HE; lra).
  assert (Hpos : (0 <= q + (1 # 2))%Q) by lra.
  pose proof (Qfloor_resp_le _ _ Hlo') as Hf1.
  pose proof (Qfloor_resp_le _ _ Hhi') as Hf2.
  assert (Hf0 : 0 <= Qfloor (E + (7 # 16))).
  { change 0 with (Qfloor 0). apply Qfloor_resp_le. lra. }
  assert (Hf3 : Qfloor (E + (9 # 16)) <= 142345).
  { change 142345 with (Qfloor (142345 + (9 # 16))). apply Qfloor_resp_le. lra. }
  rewrite <- (Qtrunc_nonneg _ Hpos) in Hf1, Hf2.
  unfold ComputeMultCoefADC1410; cbv zeta. unfold mult_fval in *.
  rewrite (round_ival_exact cvt _ q Hq)
    by (unfold INT32_MIN, INT32_MAX; change (2 ^ 31) with 2147483648; lia).
  rewrite keep18_mod, Z.mod_small by (change (2 ^ 18) with 262144; lia).
  lia.
Qed.

Lemma mult_coef_accuracy_witness :
  exists q,
    SF2Q (mult_fval (float_dyadic 95 (-24)) true) = Some q /\
    ((1086 # 1000) / 1 * (1 + (12451840 # 2199023255552)) * 65536 - (1 # 16)
       <= q)%Q /\
    (q <= (1086 # 1000) / 1 * (1 + (12451840 # 2199023255552)) * 65536
            + (1 # 16))%Q /\
    forall cvt,
      Qfloor ((1086 # 1000) / 1 * (1 + (12451840 # 2199023255552)) * 65536
              + (7 # 16))
        <= ComputeMultCoefADC1410 cvt (float_dyadic 95 (-24)) true
        <= Qfloor ((1086 # 1000) / 1 * (1 + (12451840 # 2199023255552)) * 65536
                   + (9 # 16)).
Proof.
  apply (mult_coef_accuracy (float_dyadic 95 (-24)) true
           (12451840 # 2199023255552)).
  - vm_compute. reflexivity.
  - vm_compute. intro H; discriminate H.
  - vm_compute. intro H; discriminate H.
Defined.

(** *** Line 230 in the low-gain range against the formula over the
    rationals *)

Lemma scale17_value :
  SF2Q (double_of_float (float_of_int (Z.shiftl 1 17)))
    = Some (4503599627370496 # 34359738368).
Proof. vm_compute. reflexivity. Qed.

Lemma ideal_low_value :
  SF2Q (S754_finite false 7036874417766400 (-48))
    = Some (7036874417766400 # 281474976710656).
Proof. vm_compute. reflexivity. Qed.

Lemma low_formula o : (o / 25 * 131072 == o * (131072 # 25))%Q.
Proof. field. Qed.

Lemma add_fval_low_close ca o :
  SF2Q ca = Some o -> (- (32) <= o)%Q -> (o <= 32)%Q ->
  exists q,
    SF2Q (add_fval ca false) = Some q /\
    (o / 25 * 131072 - (1 # 16) <= q)%Q /\
    (q <= o / 25 * 131072 + (1 # 16))%Q.
Proof.
  intros Ho Hlo Hhi.
  assert (Hca : abs_le_pow2 ca 5)
    by (apply (abs_le_pow2_of_Q ca o 5 Ho); [lia|exact Hlo|exact Hhi]).
  (* widened *)
  destruct (double_of_float_Q _ 5 47 o Hca Ho ltac:(lia) ltac:(lia) ltac:(lia))
    as (q1 & Hq1 & Hq1lo & Hq1hi).
  pose proof (double_of_float_abs_le _ 5 ltac:(lia) Hca) as Hb1.
  (* divided by 25.0 *)
  destruct (Err.SFdiv_Q 53 1024 ltac:(lia) ltac:(lia) _ 7036874417766400 (-48)
              5 4 51 q1 _ Hb1 ltac:(lia) ltac:(vm_compute; intro H; discriminate H)
              Hq1 ideal_low_value
              ltac:(rewrite emin64; lia) ltac:(lia) ltac:(rewrite emin64; lia)
              ltac:(lia))
    as (q2 & Hq2 & Hq2lo & Hq2hi).
  pose proof (SFdiv_abs_le 53 1024 ltac:(lia) _ false 7036874417766400 (-48) 5 4
                Hb1 ltac:(lia) ltac:(vm_compute; intro H; discriminate H)
                ltac:(rewrite emin64; lia)) as Hb2.
  change (5 - 4) with 1 in Hb2.
  (* times 2^17 *)
  destruct (Err.SFmul_Q 53 1024 ltac:(lia) ltac:(lia) _ _ 1 17 34 q2 _
              Hb2 scale17_abs_le Hq2 scale17_value
              ltac:(rewrite emin64; lia) ltac:(lia) ltac:(rewrite emin64; lia)
              ltac:(lia))
    as (q3 & Hq3 & Hq3lo & Hq3hi).
  pose proof (SFmul_abs_le 53 1024 ltac:(lia) _ _ 1 17 Hb2 scale17_abs_le
                ltac:(rewrite emin64; lia)) as Hb3.
  change (1 + 17) with 18 in Hb3.
  (* narrowed *)
  destruct (float_of_double_Q _ 18 5 q3 Hb3 Hq3 ltac:(lia) ltac:(lia) ltac:(lia))
    as (q & Hq & Hqlo & Hqhi).
  exists q.
  split; [exact Hq|].
  change (Z.to_pos (2 ^ 47)) with 140737488355328%positive in *.
  change (Z.to_pos (2 ^ 51)) with 2251799813685248%positive in *.
  change (Z.to_pos (2 ^ 34)) with 17179869184%positive in *.
  change (Z.to_pos (2 ^ 5)) with 32%positive in *.
  rewrite low_formula. split; lra.
Qed.

(** X15.  Accuracy of the additive coefficient in the low-gain range.
    For an offset error [o] in [-32, 32], with E = o / 25 * 2^17 over
    the rationals, the value assigned to [fval] is within 1/16 of E, and
    on every target the rounded value lies between trunc(E + 7/16) and
    trunc(E + 9/16); the function returns it modulo 2^18. *)
Theorem add_coef_low_gain_accuracy (offsetError : spec_float) (o : Q) :
  SF2Q offsetError = Some o -> (- (32) <= o)%Q -> (o <= 32)%Q ->
  let E := (o / 25 * 131072)%Q in
  exists q,
    SF2Q (add_fval offsetError false) = Some q /\
    (E - (1 # 16) <= q)%Q /\ (q <= E + (1 # 16))%Q /\
    forall cvt,
      Qtrunc (E + (7 # 16))
        <= round_ival cvt (add_fval offsetError false)
        <= Qtrunc (E + (9 # 16)) /\
      ComputeAddCoefADC1410 cvt offsetError false
        = round_ival cvt (add_fval offsetError false) mod 2 ^ 18.
Proof.
  intros Ho Hlo Hhi E.
  destruct (add_fval_low_close offsetError o Ho Hlo Hhi) as (q & Hq & Hqlo & Hqhi).
  exists q. split; [exact Hq|]. split; [exact Hqlo|]. split; [exact Hqhi|].
  intros cvt.
  assert (HE : (E == o * (131072 # 25))%Q) by (unfold E; apply low_formula).
  fold E in Hqlo, Hqhi.
  assert (Hlo' : (E + (7 # 16) <= q + (1 # 2))%Q) by lra.
  assert (Hhi' : (q + (1 # 2) <= E + (9 # 16))%Q) by lra.
  pose proof (Qtrunc_le _ _ Hlo') as Ht1.
  pose proof (Qtrunc_le _ _ Hhi') as Ht2.
  assert (Ht0 : Qtrunc (- (200000)) <= Qtrunc (E + (7 # 16)))
    by (apply Qtrunc_le; lra).
  assert (Ht3 : Qtrunc (E + (9 # 16)) <= Qtrunc 200000)
    by (apply Qtrunc_le; lra).
  change (Qtrunc (- (200000))) with (-200000) in Ht0.
  change (Qtrunc 200000) with 200000 in Ht3.
  assert (Hr : round_ival cvt (add_fval offsetError false) = Qtrunc (q + (1 # 2))).
  { unfold add_fval in *. apply round_ival_exact; [exact Hq|].
    unfold INT32_MIN, INT32_MAX. change (2 ^ 31) with 2147483648. lia. }
  split; [rewrite Hr; lia|].
  unfold ComputeAddCoefADC1410; cbv zeta. apply keep18_mod.
Qed.

Lemma add_coef_low_gain_accuracy_witness :
  exists q,
    SF2Q (add_fval (float_of_int (-1)) false) = Some q /\
    ((-8388608 # 8388608) / 25 * 131072 - (1 # 16) <= q)%Q /\
    (q <= (-8388608 # 8388608) / 25 * 131072 + (1 # 16))%Q /\
    forall cvt,
      Qtrunc ((-8388608 # 8388608) / 25 * 131072 + (7 # 16))
        <= round_ival cvt (add_fval (float_of_int (-1)) false)
        <= Qtrunc ((-8388608 # 8388608) / 25 * 131072 + (9 # 16)) /\
      ComputeAddCoefADC1410 cvt (float_of_int (-1)) false
        = round_ival cvt (add_fval (float_of_int (-1)) false) mod 2 ^ 18.
Proof.
  apply (add_coef_low_gain_accuracy (float_of_int (-1)) (-8388608 # 8388608)).
  - vm_compute. reflexivity.
  - vm_compute. intro H; discriminate H.
  - vm_compute. intro H; discriminate H.
Defined.

(** X16.  For a gain error [g] in [-1, 4/5] the multiplicative
    coefficient is a plain non-negative number below 2^17: bit 17, the
    sign bit of the 18-bit encoding, is clear, on every target. *)
Theorem mult_coef_sign_bit_clear (gainError : spec_float) (fHighGain : bool) (g : Q) :
  SF2Q gainError = Some g -> (- (1) <= g)%Q -> (g <= 4 # 5)%Q ->
  forall cvt,
    0 <= ComputeMultCoefADC1410 cvt gainError fHighGain < 2 ^ 17 /\
    Z.testbit (ComputeMultCoefADC1410 cvt gainError fHighGain) 17 = false.
Proof.
  intros Hg Hlo Hhi cvt.
  destruct (mult_fval_close gainError fHighGain g Hg Hlo ltac:(lra))
    as (q & Hq & Hqlo & Hqhi).
  assert (Hpos : (0 <= q + (1 # 2))%Q) by (destruct fHighGain; lra).
  assert (Hup : (q + (1 # 2) <= 128111)%Q) by (destruct fHighGain; lra).
  pose proof (Qfloor_resp_le _ _ Hpos) as Hf0.
  pose proof (Qfloor_resp_le _ _ Hup) as Hf1.
  change (Qfloor 0) with 0 in Hf0. change (Qfloor 128111) with 128111 in Hf1.
  rewrite <- (Qtrunc_nonneg _ Hpos) in Hf0, Hf1.
  unfold ComputeMultCoefADC1410; cbv zeta. unfold mult_fval in *.
  rewrite (round_ival_exact cvt _ q Hq)
    by (unfold INT32_MIN, INT32_MAX; change (2 ^ 31) with 2147483648; lia).
  change (2 ^ 17) with 131072.
  destruct (keep18_signed (Qtrunc (q + (1 # 2)))) as [Hbit Hval];
    [change (2 ^ 17) with 131072; lia|].
  rewrite Hbit in Hval |- *.
  replace (Qtrunc (q + (1 # 2)) <? 0) with false in *
    by (symmetry; apply Z.ltb_ge; lia).
  split; [lia|reflexivity].
Qed.

Lemma mult_coef_sign_bit_clear_witness :
  0 <= ComputeMultCoefADC1410 cvt_x86 (float_dyadic 1 (-4)) true < 2 ^ 17 /\
  Z.testbit (ComputeMultCoefADC1410 cvt_x86 (float_dyadic 1 (-4)) true) 17 = false.
Proof.
  apply (mult_coef_sign_bit_clear (float_dyadic 1 (-4)) true (8388608 # 134217728)).
  - vm_compute. reflexivity.
  - vm_compute. intro H; discriminate H.
  - vm_compute. intro H; discriminate H.
Defined.

(* ================================================================== *)
(** ** Rounding a number below a power of two                          *)
(* ================================================================== *)

Module Fine.

Section Format.

Variables prec emax : Z.
Hypothesis prec_gt_0 : 0 < prec.
Hypothesis emax_prec : 1 <= emax - prec.

Local Abbreviation fexp := (SpecFloat.fexp prec emax).
Local Abbreviation emin := (SpecFloat.emin prec emax).

(** The exponent of the format for a mantissa strictly below
    [2^(k - e)]. *)
Lemma fexp_le_of_lt m e k t :
  Zpos m < 2 ^ (k - e) -> emin <= - t -> k - prec <= - t ->
  0 <= k - e /\ fexp (Zdigits2 (Zpos m) + e) <= - t.
Proof.
  intros Hb Hemin Hkt.
  assert (Hke : 0 <= k - e).
  { destruct (Z_le_gt_dec 0 (k - e)) as [|Hn]; [assumption|exfalso].
    rewrite Z.pow_neg_r in Hb by lia. lia. }
  split; [exact Hke|].
  pose proof (Zdigits2_le_of_lt (Zpos m) (k - e) ltac:(lia) Hke Hb).
  unfold SpecFloat.fexp. lia.
Qed.

(** [binary_round_aux] on an exact mantissa strictly below [2^(k - e)]:
    the value moves by at most [2^-t], for [t] up to [prec - k]. *)
Lemma binary_round_aux_Q_lt s m e k t q :
  Zpos m < 2 ^ (k - e) -> emin <= k <= emax - prec ->
  0 <= t -> emin <= - t -> k - prec <= - t ->
  SF2Q (S754_finite s m e) = Some q ->
  exists qr,
    SF2Q (binary_round_aux prec emax s (Zpos m) e loc_Exact) = Some qr /\
    (q - (1 # Z.to_pos (2 ^ t)) <= qr)%Q /\ (qr <= q + (1 # Z.to_pos (2 ^ t)))%Q.
Proof.
  intros Hb Hk Ht Hemin Hkt Hq.
  destruct (fexp_le_of_lt m e k t Hb Hemin Hkt) as [Hke Hu].
  set (u := fexp (Zdigits2 (Zpos m) + e)) in *.
  destruct (Z_le_gt_dec u e) as [Hle|Hgt].
  - rewrite (binary_round_aux_fits prec emax s m e Hle). unfold SFbuild.
    replace (e <=? emax - prec) with true by (symmetry; apply Z.leb_le; lia).
    exists q. split; [exact Hq|].
    assert (0 < 1 # Z.to_pos (2 ^ t))%Q by reflexivity. split; lra.
  - destruct (Err.binary_round_aux_encl prec emax prec_gt_0 s (Zpos m) e loc_Exact
                ltac:(lia)) as (m3 & e3 & -> & He3 & Henc).
    fold u in He3, Henc. rewrite (Z.max_l u e) in He3, Henc by lia.
    set (T := - e).
    pose proof (pow2_gt0 (u - e) ltac:(lia)) as HP.
    assert (Hm30 : 0 <= m3).
    { pose proof (pow2_gt0 (e3 - u) ltac:(lia)).
      assert (0 <= Zpos m / 2 ^ (u - e)) by (apply Z.div_pos; lia). nia. }
    destruct (Err.SFbuild_scaled prec emax s m3 e3 T Hm30 ltac:(lia)
                ltac:(unfold T; lia) ltac:(unfold T; lia)) as (qr & Hqr & Hqrv).
    destruct (SF2Q_scaled s m e T ltac:(unfold T; lia) ltac:(unfold T; lia))
      as (q' & Hq' & Hqv).
    rewrite Hq in Hq'. apply Some_inj in Hq'. subst q'.
    exists qr. split; [exact Hqr|].
    apply (Q_close_of_scaled qr q _ _ T t ltac:(unfold T; lia) Hqrv Hqv).
    replace (e + T) with 0 by (unfold T; lia). rewrite Z.pow_0_r, Z.mul_1_r.
    replace (e3 + T) with ((e3 - u) + (u - e)) by (unfold T; lia).
    rewrite pow2_split by lia.
    assert (2 ^ (u - e) <= 2 ^ (T - t)) by (apply pow2_le; unfold T; lia).
    pose proof (Z.mul_div_le (Zpos m) (2 ^ (u - e)) HP).
    pose proof (Z.mul_succ_div_gt (Zpos m) (2 ^ (u - e)) HP).
    set (f := Zpos m / 2 ^ (u - e)) in *.
    set (P := 2 ^ (u - e)) in *.
    set (M3 := m3 * 2 ^ (e3 - u)) in *.
    rewrite Z.mul_assoc. fold M3.
    clear - Henc H H0 H1 HP.
    destruct s; unfold cond_Zopp; nia.
Qed.

(** [binary_round]: the same, after the alignment. *)
Lemma binary_round_Q_lt s m e k t q :
  Zpos m < 2 ^ (k - e) -> emin <= k <= emax - prec ->
  0 <= t -> emin <= - t -> k - prec <= - t ->
  SF2Q (S754_finite s m e) = Some q ->
  exists qr,
    SF2Q (binary_round prec emax s m e) = Some qr /\
    (q - (1 # Z.to_pos (2 ^ t)) <= qr)%Q /\ (qr <= q + (1 # Z.to_pos (2 ^ t)))%Q.
Proof.
  intros Hb Hk Ht Hemin Hkt Hq.
  destruct (fexp_le_of_lt m e k t Hb Hemin Hkt) as [Hke Hu].
  set (fe := fexp (Zdigits2 (Zpos m) + e)) in *.
  destruct (Z_le_gt_dec fe e) as [Hle|Hgt].
  - rewrite (binary_round_exact_up prec emax s m e Hle). fold fe.
    set (T := Z.max t (- fe)).
    pose proof (pow2_gt0 (e - fe) ltac:(lia)) as HP.
    destruct (Err.SFbuild_scaled prec emax s (Zpos m * 2 ^ (e - fe)) fe T ltac:(lia)
                ltac:(lia) ltac:(unfold T; lia) ltac:(unfold T; lia))
      as (qr & Hqr & Hqrv).
    destruct (SF2Q_scaled s m e T ltac:(unfold T; lia) ltac:(unfold T; lia))
      as (q' & Hq' & Hqv).
    rewrite Hq in Hq'. apply Some_inj in Hq'. subst q'.
    exists qr. split; [exact Hqr|].
    assert (Heq : (qr == q)%Q).
    { apply (Q_eq_of_scaled qr q _ T ltac:(unfold T; lia) Hqrv).
      rewrite Hqv. rewrite <- Z.mul_assoc, <- pow2_split by (unfold T; lia).
      replace (e - fe + (fe + T)) with (e + T) by lia. reflexivity. }
    assert (0 < 1 # Z.to_pos (2 ^ t))%Q by reflexivity. split; lra.
  - unfold binary_round.
    change (Zpos (digits2_pos m)) with (Zdigits2 (Zpos m)). fold fe.
    rewrite shl_align_gt by lia.
    now apply (binary_round_aux_Q_lt s m e k t q).
Qed.

End Format.

End Fine.

(* ================================================================== *)
(** ** Ties on the multiplicative path                                 *)
(* ================================================================== *)

Lemma mult_fval_product cg fHighGain :
  mult_fval cg fHighGain = float_of_double (mult_product cg fHighGain).
Proof. reflexivity. Qed.

(** Narrowing a [double] that is exactly X + 1/2 for an X below 2^23:
    the value has at most 24 significant bits, so the [float] holds
    it. *)
Lemma float_of_double_half_exact x p X :
  SF2Q x = Some p -> 0 <= X < 2 ^ 23 -> (p == inject_Z X + (1 # 2))%Q ->
  exists q, SF2Q (float_of_double x) = Some q /\ (q == p)%Q.
Proof.
  intros Hp HX Heq.
  destruct x as [s|s| |s m e]; try discriminate.
  - apply Some_inj in Hp; subst p. exfalso.
    unfold Qeq, Qplus, inject_Z in Heq; cbn in Heq. lia.
  - assert (Hval : s = false /\ e < 0 /\ Zpos m = (2 * X + 1) * 2 ^ (- e - 1)).
    { pose proof Hp as Hq. unfold SF2Q in Hq. apply Some_inj in Hq. subst p.
      destruct (0 <=? e) eqn:E0.
      - cbv [Qeq Qplus inject_Z Qnum Qden] in Heq.
        destruct s; unfold cond_Zopp in Heq; lia.
      - apply Z.leb_gt in E0.
        pose proof (pow2_gt0 (- e) ltac:(lia)) as Hpe.
        cbv [Qeq Qplus inject_Z Qnum Qden] in Heq.
        rewrite Z2Pos.id in Heq by assumption.
        assert (H2 : 2 ^ (- e) = 2 * 2 ^ (- e - 1)).
        { replace (- e) with (1 + (- e - 1)) at 1 by lia.
          rewrite pow2_split by lia. reflexivity. }
        pose proof (pow2_gt0 (- e - 1) ltac:(lia)) as Hpe1.
        destruct s; unfold cond_Zopp in Heq; [nia|].
        repeat split; lia. }
    destruct Hval as (-> & He0 & Hm).
    assert (HN : exists n, 2 * X + 1 = Zpos n)
      by (destruct (2 * X + 1) as [|n|n] eqn:E; try lia; now exists n).
    destruct HN as (n & HN). rewrite HN in Hm.
    assert (Hn24 : Zpos n < 2 ^ 24)
      by (rewrite <- HN; change (2 ^ 24) with (2 * 2 ^ 23); lia).
    pose proof (Zdigits2_le_of_lt (Zpos n) 24 ltac:(lia) ltac:(lia) Hn24) as Hdn.
    pose proof (Zdigits2_pos n) as Hdn0.
    assert (Hd : Zdigits2 (Zpos m) = Zdigits2 (Zpos n) + (- e - 1))
      by (rewrite Hm; apply Zdigits2_mul_pow2; lia).
    unfold float_of_double.
    set (fe := fexp 24 128 (Zdigits2 (Zpos m) + e)).
    assert (Hfe : fe = Zdigits2 (Zpos n) - 25)
      by (unfold fe, fexp; rewrite emin32, Hd; lia).
    destruct (SF2Q_scaled false m e (- e) ltac:(lia) ltac:(lia))
      as (p' & Hp' & Hpv).
    rewrite Hp in Hp'. apply Some_inj in Hp'. subst p'.
    replace (e + - e) with 0 in Hpv by lia.
    rewrite Z.pow_0_r, Z.mul_1_r in Hpv. cbn [cond_Zopp] in Hpv.
    destruct (Z_le_gt_dec fe e) as [Hle|Hgt].
    + rewrite (binary_round_exact_up 24 128 false m e Hle). fold fe.
      pose proof (pow2_gt0 (e - fe) ltac:(lia)) as HP.
      destruct (Err.SFbuild_scaled 24 128 false
                  (Zpos m * 2 ^ (e - fe)) fe (- fe)
                  ltac:(lia) ltac:(lia) ltac:(lia) ltac:(lia))
        as (q & Hq & Hqv).
      exists q. split; [exact Hq|].
      replace (fe + - fe) with 0 in Hqv by lia.
      rewrite Z.pow_0_r, Z.mul_1_r in Hqv. cbn [cond_Zopp] in Hqv.
      apply (Q_eq_of_scaled q p (Zpos m * 2 ^ (e - fe)) (- fe) ltac:(lia) Hqv).
      replace (- fe) with (- e + (e - fe)) by lia.
      rewrite pow2_split by lia. rewrite inject_Z_mult, Qmult_assoc, Hpv.
      rewrite <- inject_Z_mult. reflexivity.
    + pose proof (pow2_gt0 (- 1 - fe) ltac:(lia)) as HP.
      rewrite (binary_round_exact_down 24 128 false m e
                 (Zpos n * 2 ^ (- 1 - fe))).
      * fold fe.
        destruct (Err.SFbuild_scaled 24 128 false
                    (Zpos n * 2 ^ (- 1 - fe)) fe (- e)
                    ltac:(lia) ltac:(lia) ltac:(lia) ltac:(lia))
          as (q & Hq & Hqv).
        exists q. split; [exact Hq|].
        cbn [cond_Zopp] in Hqv.
        apply (Q_eq_of_scaled q p (Zpos m) (- e) ltac:(lia)); [|exact Hpv].
        rewrite Hqv. rewrite <- Z.mul_assoc, <- pow2_split by lia.
        replace (-1 - fe + (fe + - e)) with (- e - 1) by lia.
        rewrite Hm. reflexivity.
      * fold fe. lia.
      * lia.
      * fold fe. rewrite <- Z.mul_assoc, <- pow2_split by lia.
        replace (-1 - fe + (fe - e)) with (- e - 1) by lia. exact Hm.
Qed.

(** *** A tie of the narrowing itself

    Shifting out the low bits of [(2 X + 1) * 2^(n - 1)]: the mantissa
    left is X and the location is the midpoint. *)
Lemma shr_midpoint X n :
  0 <= X ->
  Pos.iter shr_1
    (Build_shr_record ((2 * X + 1) * 2 ^ (Zpos n - 1)) false false) n
  = Build_shr_record X true false.
Proof.
  intros HX.
  assert (Hlast : shr_1 (Build_shr_record (2 * X + 1) false false)
                  = Build_shr_record X true false).
  { rewrite shr_1_nonneg by lia. f_equal.
    - Z.div_mod_to_equations; lia.
    - rewrite Z.add_comm, Z.odd_add_mul_2. reflexivity. }
  destruct (Pos.eq_dec n 1) as [->|Hn].
  - change (Zpos 1 - 1) with 0. rewrite Z.pow_0_r, Z.mul_1_r.
    unfold Pos.iter. exact Hlast.
  - destruct (Pos.succ_pred_or n) as [|Hs]; [contradiction|].
    rewrite <- Hs. rewrite Pos.iter_succ.
    replace (Zpos (Pos.succ (Pos.pred n)) - 1) with (Zpos (Pos.pred n)) by lia.
    pose proof (pow2_gt0 (Zpos (Pos.pred n)) ltac:(lia)) as Hp.
    destruct (iter_shr_1 ((2 * X + 1) * 2 ^ Zpos (Pos.pred n)) false false
                ltac:(nia) (Pos.pred n)) as [Hm Hrs].
    destruct (Hrs ltac:(apply Z.mod_mul; lia) eq_refl eq_refl) as [Hr Hs'].
    destruct (Pos.iter shr_1 _ (Pos.pred n)) as [m1 r1 s1].
    cbn [shr_m shr_r shr_s] in Hm, Hr, Hs'. subst r1 s1.
    rewrite Z.div_mul in Hm by lia. subst m1. exact Hlast.
Qed.

(** Narrowing a [double] that is exactly X + 1/2 for an X in
    [2^23, 2^24): the binary32 numbers there are the integers, the
    value is the midpoint of X and X + 1, and the [float] is the even
    one of the two. *)
Lemma float_of_double_half_even x p X :
  SF2Q x = Some p -> 2 ^ 23 <= X < 2 ^ 24 -> (p == inject_Z X + (1 # 2))%Q ->
  SF2Q (float_of_double x) = Some (inject_Z (if Z.even X then X else X + 1)).
Proof.
  intros Hp HX Heq.
  change (2 ^ 23) with 8388608 in HX. change (2 ^ 24) with 16777216 in HX.
  destruct x as [s|s| |s m e]; try discriminate.
  - apply Some_inj in Hp; subst p. exfalso.
    unfold Qeq, Qplus, inject_Z in Heq; cbn in Heq. lia.
  - assert (Hval : s = false /\ e < 0 /\ Zpos m = (2 * X + 1) * 2 ^ (- e - 1)).
    { pose proof Hp as Hq. unfold SF2Q in Hq. apply Some_inj in Hq. subst p.
      destruct (0 <=? e) eqn:E0.
      - cbv [Qeq Qplus inject_Z Qnum Qden] in Heq.
        destruct s; unfold cond_Zopp in Heq; lia.
      - apply Z.leb_gt in E0.
        pose proof (pow2_gt0 (- e) ltac:(lia)) as Hpe.
        cbv [Qeq Qplus inject_Z Qnum Qden] in Heq.
        rewrite Z2Pos.id in Heq by assumption.
        assert (H2 : 2 ^ (- e) = 2 * 2 ^ (- e - 1)).
        { replace (- e) with (1 + (- e - 1)) at 1 by lia.
          rewrite pow2_split by lia. reflexivity. }
        pose proof (pow2_gt0 (- e - 1) ltac:(lia)) as Hpe1.
        destruct s; unfold cond_Zopp in Heq; [nia|].
        repeat split; lia. }
    destruct Hval as (-> & He0 & Hm).
    assert (HN : exists n, 2 * X + 1 = Zpos n)
      by (destruct (2 * X + 1) as [|n|n] eqn:E; try lia; now exists n).
    destruct HN as (n & HN).
    assert (Hdn : Zdigits2 (Zpos n) = 25).
    { pose proof (Zdigits2_le_of_lt (Zpos n) 25 ltac:(lia) ltac:(lia)
                    ltac:(change (2 ^ 25) with 33554432; lia)) as Hle.
      pose proof (Zdigits2_lt (Zpos n) ltac:(lia)) as Hlt.
      pose proof (Zdigits2_pos n) as Hpos.
      destruct (Z_le_gt_dec 25 (Zdigits2 (Zpos n))) as [|Hc]; [lia|exfalso].
      assert (2 ^ Zdigits2 (Zpos n) <= 2 ^ 24) by (apply pow2_le; lia).
      change (2 ^ 24) with 16777216 in *. lia. }
    assert (Hd : Zdigits2 (Zpos m) + e = 24).
    { rewrite Hm, HN, Zdigits2_mul_pow2 by lia. lia. }
    assert (Hfe : fexp 24 128 (Zdigits2 (Zpos m) + e) = 0)
      by (rewrite Hd; reflexivity).
    unfold float_of_double, binary_round.
    change (Zpos (digits2_pos m)) with (Zdigits2 (Zpos m)).
    rewrite Hfe, shl_align_gt by lia.
    rewrite binary_round_aux_eq.
    (* the first shift, by - e bits *)
    assert (Hsh : shr_fexp 24 128 (Zpos m) e loc_Exact
                  = (Build_shr_record X true false, 0)).
    { unfold shr_fexp, shr. rewrite Hfe.
      destruct (0 - e) as [|k|k] eqn:Ek; try lia.
      cbn [shr_record_of_loc]. rewrite iter_pos_eq.
      replace (e + Zpos k) with 0 by lia. f_equal.
      rewrite Hm. replace (- e - 1) with (Zpos k - 1) by lia.
      apply shr_midpoint. lia. }
    rewrite Hsh. cbn [fst snd shr_m loc_of_shr_record round_nearest_even].
    set (Y := if Z.even X then X else X + 1).
    assert (HY : 8388608 <= Y <= 16777216) by (unfold Y; destruct (Z.even X); lia).
    destruct (Z_lt_ge_dec Y 16777216) as [Hlt|Hge].
    + (* the rounded mantissa fits *)
      assert (HdY : Zdigits2 Y <= 24)
        by (apply Zdigits2_le_of_lt; [lia|lia|change (2 ^ 24) with 16777216; lia]).
      rewrite (shr_fexp_noshift 24 128 Y 0)
        by (unfold fexp; rewrite emin32; lia).
      cbn [fst snd shr_m]. unfold SFbuild.
      destruct Y as [|y|y] eqn:EY; try lia.
      cbn [Z.leb Z.compare]. change (0 <=? 128 - 24) with true. cbn iota.
      unfold SF2Q. change (0 <=? 0) with true. cbn iota.
      cbn [cond_Zopp]. rewrite Z.pow_0_r, Z.mul_1_r. reflexivity.
    + (* X = 2^24 - 1: the rounded mantissa is 2^24 *)
      assert (HY24 : Y = 16777216) by lia. rewrite HY24.
      vm_compute. reflexivity.
Qed.




(* ================================================================== *)
(** ** The additive path on negative offsets                           *)
(* ================================================================== *)

Lemma add_fval_product ca fHighGain :
  add_fval ca fHighGain = float_of_double (add_product ca fHighGain).
Proof. reflexivity. Qed.

(** Floor and ceiling between consecutive integers. *)
Lemma Qceiling_bounds x :
  (inject_Z (Qceiling x) - 1 < x)%Q /\ (x <= inject_Z (Qceiling x))%Q.
Proof.
  pose proof (Qle_ceiling x) as H1. pose proof (Qceiling_lt x) as H2.
  unfold Z.sub in H2. rewrite inject_Z_plus, inject_Z_opp in H2.
  change (inject_Z 1) with 1%Q in H2. split; lra.
Qed.

Lemma Qfloor_bounds x :
  (inject_Z (Qfloor x) <= x)%Q /\ (x < inject_Z (Qfloor x) + 1)%Q.
Proof.
  pose proof (Qfloor_le x) as H1. pose proof (Qlt_floor x) as H2.
  rewrite inject_Z_plus in H2. change (inject_Z 1) with 1%Q in H2.
  split; lra.
Qed.

(** Truncation of a number of magnitude below one. *)
Lemma Qtrunc_small x : (- (1) < x)%Q -> (x < 1)%Q -> Qtrunc x = 0.
Proof.
  intros Hlo Hhi.
  destruct (Qlt_le_dec x 0) as [Hn|Hp].
  - rewrite Qtrunc_neg by assumption.
    destruct (Qceiling_bounds x) as [H1 H2].
    assert (Ha : (inject_Z (Qceiling x) < inject_Z 1)%Q)
      by (change (inject_Z 1) with 1%Q; lra).
    assert (Hb : (inject_Z (-1) < inject_Z (Qceiling x))%Q)
      by (change (inject_Z (-1)) with (- (1))%Q; lra).
    rewrite <- Zlt_Qlt in Ha, Hb. lia.
  - rewrite Qtrunc_nonneg by assumption.
    destruct (Qfloor_bounds x) as [H1 H2].
    assert (Ha : (inject_Z (Qfloor x) < inject_Z 1)%Q)
      by (change (inject_Z 1) with 1%Q; lra).
    assert (Hb : (inject_Z (-1) < inject_Z (Qfloor x))%Q)
      by (change (inject_Z (-1)) with (- (1))%Q; lra).
    rewrite <- Zlt_Qlt in Ha, Hb. lia.
Qed.

(** The ceiling of a number between two consecutive integers. *)
Lemma Qceiling_unique x c :
  (inject_Z c - 1 < x)%Q -> (x <= inject_Z c)%Q -> Qceiling x = c.
Proof.
  intros Hlo Hhi.
  destruct (Qceiling_bounds x) as [H1 H2].
  assert (Ha : (inject_Z (c - 1) < inject_Z (Qceiling x))%Q).
  { unfold Z.sub. rewrite inject_Z_plus, inject_Z_opp.
    change (inject_Z 1) with 1%Q. lra. }
  assert (Hb : (inject_Z (Qceiling x - 1) < inject_Z c)%Q).
  { unfold Z.sub. rewrite inject_Z_plus, inject_Z_opp.
    change (inject_Z 1) with 1%Q. lra. }
  rewrite <- Zlt_Qlt in Ha, Hb. lia.
Qed.

(** Adding one half and truncating, against rounding half away from
    zero: from -1/2 downward the code is one above. *)
Lemma trunc_half_vs_half_away q :
  (q <= - (1 # 2))%Q -> Qtrunc (q + (1 # 2)) = roundHalfAwayFromZero q + 1.
Proof.
  intros Hq. unfold roundHalfAwayFromZero.
  assert (Hb : Qle_bool 0 q = false).
  { destruct (Qle_bool 0 q) eqn:E; [|reflexivity].
    apply Qle_bool_iff in E. exfalso. lra. }
  rewrite Hb.
  destruct (Qceiling_bounds (q - (1 # 2))) as [H1 H2].
  assert (Hc : Qceiling (q + (1 # 2)) = Qceiling (q - (1 # 2)) + 1).
  { apply Qceiling_unique; rewrite inject_Z_plus;
      change (inject_Z 1) with 1%Q; lra. }
  destruct (Qlt_le_dec (q + (1 # 2)) 0) as [Hn|Hp].
  - rewrite Qtrunc_neg by assumption. exact Hc.
  - rewrite <- Hc.
    assert (H0 : (q + (1 # 2) == 0)%Q) by lra.
    rewrite (Qtrunc_comp _ _ H0). change (Qtrunc 0) with 0.
    symmetry. apply Qceiling_unique; change (inject_Z 0) with 0%Q; lra.
Qed.

(** *** Comparisons through a common scale *)

Lemma scaled_split x T j :
  0 <= j <= T ->
  (x * inject_Z (2 ^ T) == x * inject_Z (2 ^ j) * inject_Z (2 ^ (T - j)))%Q.
Proof.
  intros H. replace T with (j + (T - j)) at 1 by lia.
  rewrite pow2_split by lia. rewrite inject_Z_mult. ring.
Qed.

Lemma scaled_gt_of_Q x A T j c :
  0 <= j <= T ->
  (x * inject_Z (2 ^ T) == inject_Z A)%Q ->
  (inject_Z c < x * inject_Z (2 ^ j))%Q ->
  c * 2 ^ (T - j) < A.
Proof.
  intros H Hx Hc.
  assert (HP : (0 < inject_Z (2 ^ (T - j)))%Q)
    by (rewrite <- (Zlt_Qlt 0); apply pow2_gt0; lia).
  rewrite (scaled_split x T j H) in Hx.
  apply (Qmult_lt_r _ _ _ HP) in Hc.
  rewrite Hx, <- inject_Z_mult, <- Zlt_Qlt in Hc. exact Hc.
Qed.

Lemma Q_ge_of_scaled x A T j c :
  0 <= j <= T ->
  (x * inject_Z (2 ^ T) == inject_Z A)%Q ->
  c * 2 ^ (T - j) <= A ->
  (inject_Z c <= x * inject_Z (2 ^ j))%Q.
Proof.
  intros H Hx Hc.
  assert (HP : (0 < inject_Z (2 ^ (T - j)))%Q)
    by (rewrite <- (Zlt_Qlt 0); apply pow2_gt0; lia).
  rewrite (scaled_split x T j H) in Hx.
  apply (Qmult_le_r _ _ _ HP).
  rewrite Hx, <- inject_Z_mult, <- Zle_Qle. exact Hc.
Qed.

(** *** The low-gain range just above -1.5

    A binary32 offset whose scaled value o / 25 * 2^17 is above -3/2 is
    above it by at least 2^-18 / 25: the largest such offset in
    magnitude is 9830399 * 2^-35. *)
Lemma low_gain_gap ca o :
  valid_binary 24 128 ca = true -> SF2Q ca = Some o ->
  (- (3 # 2) < o * (131072 # 25))%Q ->
  (- (3 # 2) + (1 # 6553600) <= o * (131072 # 25))%Q.
Proof.
  intros Hv Ho Hlo.
  destruct ca as [s|s| |s m e]; try discriminate.
  - apply Some_inj in Ho. subst o. lra.
  - destruct (valid_binary32_bounds s m e Hv) as [Hm He].
    set (T := Z.max 35 (- e)).
    destruct (SF2Q_scaled s m e T ltac:(unfold T; lia) ltac:(unfold T; lia))
      as (o' & Ho' & Hov).
    rewrite Ho in Ho'. apply Some_inj in Ho'. subst o'.
    assert (H18 : (inject_Z (-75) < o * inject_Z (2 ^ 18))%Q).
    { change (inject_Z (-75)) with (- (75))%Q.
      change (inject_Z (2 ^ 18)) with 262144%Q. lra. }
    pose proof (scaled_gt_of_Q o _ T 18 (-75) ltac:(unfold T; lia) Hov H18) as Hi.
    assert (H35 : (inject_Z (-9830399) <= o * inject_Z (2 ^ 35))%Q).
    { apply (Q_ge_of_scaled o _ T 35 (-9830399) ltac:(unfold T; lia) Hov).
      pose proof (pow2_gt0 (e + T) ltac:(unfold T; lia)) as Hp1.
      pose proof (pow2_gt0 (T - 35) ltac:(unfold T; lia)) as Hp2.
      destruct s; unfold cond_Zopp in *; [|nia].
      destruct (Z_le_gt_dec (-35) e) as [Hc|Hc].
      - assert (HT : T = 35) by (unfold T; lia).
        rewrite HT in *. change (35 - 18) with 17 in Hi.
        change (35 - 35) with 0. change (2 ^ 17) with 131072 in Hi.
        change (2 ^ 0) with 1. lia.
      - assert (HT : T = - e) by (unfold T; lia).
        rewrite HT in *. replace (e + - e) with 0 by lia.
        rewrite Z.pow_0_r, Z.mul_1_r.
        assert (2 ^ 1 <= 2 ^ (- e - 35)) by (apply pow2_le; lia).
        change (2 ^ 1) with 2 in *. change (2 ^ 24) with 16777216 in Hm. nia. }
    change (inject_Z (-9830399)) with (- (9830399))%Q in H35.
    change (inject_Z (2 ^ 35)) with 34359738368%Q in H35. lra.
Qed.

(** A number of magnitude below 2^k, on its mantissa. *)
Lemma mantissa_lt_of_Q s m e q k :
  SF2Q (S754_finite s m e) = Some q -> 0 <= k ->
  (- inject_Z (2 ^ k) < q)%Q -> (q < inject_Z (2 ^ k))%Q ->
  Zpos m < 2 ^ (k - e).
Proof.
  intros Hq Hk Hlo Hhi.
  unfold SF2Q in Hq. apply Some_inj in Hq. subst q.
  pose proof (pow2_gt0 k Hk) as Hpk.
  destruct (0 <=? e) eqn:E.
  - apply Z.leb_le in E. pose proof (pow2_gt0 e E) as Hpe.
    cbv [Qlt Qopp inject_Z Qnum Qden] in Hlo, Hhi.
    assert (Hm : Zpos m * 2 ^ e < 2 ^ k)
      by (destruct s; unfold cond_Zopp in *; lia).
    destruct (Z_le_gt_dec e k) as [Hek|Hek].
    + replace k with ((k - e) + e) in Hm by lia.
      rewrite pow2_split in Hm by lia. nia.
    + exfalso. assert (2 ^ k < 2 ^ e) by (apply pow2_lt; lia). nia.
  - apply Z.leb_gt in E. pose proof (pow2_gt0 (- e) ltac:(lia)) as Hpe.
    cbv [Qlt Qopp inject_Z Qnum Qden] in Hlo, Hhi.
    rewrite Z2Pos.id in Hlo, Hhi by assumption.
    replace (k - e) with (k + - e) by lia. rewrite pow2_split by lia.
    destruct s; unfold cond_Zopp in *; lia.
Qed.

(** Line 230 in the low-gain range, before the narrowing: the three
    [double] operations stay within 2^-32 of o / 25 * 2^17. *)
Lemma add_product_low_close ca o :
  SF2Q ca = Some o -> (- (32) <= o)%Q -> (o <= 32)%Q ->
  exists q3,
    SF2Q (add_product ca false) = Some q3 /\
    (o * (131072 # 25) - (1 # 4294967296) <= q3)%Q /\
    (q3 <= o * (131072 # 25) + (1 # 4294967296))%Q.
Proof.
  intros Ho Hlo Hhi.
  assert (Hca : abs_le_pow2 ca 5)
    by (apply (abs_le_pow2_of_Q ca o 5 Ho); [lia|exact Hlo|exact Hhi]).
  destruct (double_of_float_Q _ 5 47 o Hca Ho ltac:(lia) ltac:(lia) ltac:(lia))
    as (q1 & Hq1 & Hq1lo & Hq1hi).
  pose proof (double_of_float_abs_le _ 5 ltac:(lia) Hca) as Hb1.
  destruct (Err.SFdiv_Q 53 1024 ltac:(lia) ltac:(lia) _ 7036874417766400 (-48)
              5 4 51 q1 _ Hb1 ltac:(lia) ltac:(vm_compute; intro H; discriminate H)
              Hq1 ideal_low_value
              ltac:(rewrite emin64; lia) ltac:(lia) ltac:(rewrite emin64; lia)
              ltac:(lia))
    as (q2 & Hq2 & Hq2lo & Hq2hi).
  pose proof (SFdiv_abs_le 53 1024 ltac:(lia) _ false 7036874417766400 (-48) 5 4
                Hb1 ltac:(lia) ltac:(vm_compute; intro H; discriminate H)
                ltac:(rewrite emin64; lia)) as Hb2.
  change (5 - 4) with 1 in Hb2.
  destruct (Err.SFmul_Q 53 1024 ltac:(lia) ltac:(lia) _ _ 1 17 34 q2 _
              Hb2 scale17_abs_le Hq2 scale17_value
              ltac:(rewrite emin64; lia) ltac:(lia) ltac:(rewrite emin64; lia)
              ltac:(lia))
    as (q3 & Hq3 & Hq3lo & Hq3hi).
  exists q3. split; [exact Hq3|].
  change (Z.to_pos (2 ^ 47)) with 140737488355328%positive in *.
  change (Z.to_pos (2 ^ 51)) with 2251799813685248%positive in *.
  change (Z.to_pos (2 ^ 34)) with 17179869184%positive in *.
  split; lra.
Qed.

(** The narrowing of a [double] of magnitude below 2: the [float] is
    within 2^-23 of it. *)
Lemma float_of_double_below_two x q :
  SF2Q x = Some q -> (- (2) < q)%Q -> (q < 2)%Q ->
  exists qr,
    SF2Q (float_of_double x) = Some qr /\
    (q - (1 # 8388608) <= qr)%Q /\ (qr <= q + (1 # 8388608))%Q.
Proof.
  intros Hq Hlo Hhi.
  destruct x as [s|s| |s m e]; try discriminate.
  - exists q. split; [exact Hq|]. split; lra.
  - assert (Hm : Zpos m < 2 ^ (1 - e)).
    { apply (mantissa_lt_of_Q s m e q 1 Hq); [lia| |];
        change (inject_Z (2 ^ 1)) with 2%Q; assumption. }
    unfold float_of_double.
    destruct (Fine.binary_round_Q_lt 24 128 ltac:(lia) ltac:(lia) s m e 1 23 q Hm
                ltac:(rewrite emin32; lia) ltac:(lia) ltac:(rewrite emin32; lia)
                ltac:(lia) Hq) as (qr & Hqr & H1 & H2).
    exists qr. split; [exact Hqr|].
    change (Z.to_pos (2 ^ 23)) with 8388608%positive in *. split; assumption.
Qed.

(** Line 230 in the low-gain range for a scaled value in (-3/2, 0): the
    value assigned to [fval] is still above -3/2. *)
Lemma add_fval_low_above ca o :
  valid_binary 24 128 ca = true -> SF2Q ca = Some o ->
  (- (3 # 2) < o / 25 * 131072)%Q -> (o / 25 * 131072 < 0)%Q ->
  exists q,
    SF2Q (add_fval ca false) = Some q /\ (- (3 # 2) < q)%Q /\ (q < 1 # 2)%Q.
Proof.
  intros Hv Ho Hlo Hhi. rewrite low_formula in Hlo, Hhi.
  pose proof (low_gain_gap ca o Hv Ho Hlo) as Hgap.
  destruct (add_product_low_close ca o Ho ltac:(lra) ltac:(lra))
    as (q3 & Hq3 & Hq3lo & Hq3hi).
  destruct (float_of_double_below_two _ q3 Hq3 ltac:(lra) ltac:(lra))
    as (q & Hq & Hq1 & Hq2).
  exists q. rewrite add_fval_product. split; [exact Hq|]. split; lra.
Qed.

(** C6.  The additive path on a negative offset error [o], a binary32
    number, with E = o / IdealRange * 2^17 over the rationals
    (IdealRange 1.0 for high gain, 25.0 for low gain).  The rounding is
    the one of the multiplicative path: whenever the value [q] assigned
    to [fval] is finite and trunc(q + 1/2) fits [int32_t], the rounded
    value is trunc(q + 1/2), returned modulo 2^18.  That is not
    rounding half away from zero: for every [q <= -1/2] the code is one
    above.  For [o >= -8192] the conversion is defined, and [q] is E
    itself in the high-gain range and within 1/16 of E in the low-gain
    range for [o >= -32].  In particular, for every offset error whose
    E lies strictly between -3/2 and 0 the function returns 0, not
    0x3FFFF, the 18-bit encoding of -1. *)
Theorem add_negative_offsets_truncated cvt offsetError (fHighGain : bool) o :
  valid_binary 24 128 offsetError = true ->
  SF2Q offsetError = Some o -> (o < 0)%Q ->
  let E := (o / (if fHighGain then 1 else 25) * 131072)%Q in
  (forall q,
     SF2Q (add_fval offsetError fHighGain) = Some q ->
     INT32_MIN <= Qtrunc (q + (1 # 2)) <= INT32_MAX ->
     round_ival cvt (add_fval offsetError fHighGain) = Qtrunc (q + (1 # 2)) /\
     ComputeAddCoefADC1410 cvt offsetError fHighGain
       = Qtrunc (q + (1 # 2)) mod 2 ^ 18 /\
     ((q <= - (1 # 2))%Q ->
      Qtrunc (q + (1 # 2)) = roundHalfAwayFromZero q + 1)) /\
  ((- (8192) <= o)%Q ->
   exists q,
     SF2Q (add_fval offsetError fHighGain) = Some q /\
     INT32_MIN <= Qtrunc (q + (1 # 2)) <= INT32_MAX /\
     (fHighGain = true -> (q == E)%Q) /\
     ((- (32) <= o)%Q -> (E - (1 # 16) <= q)%Q /\ (q <= E + (1 # 16))%Q)) /\
  ((- (3 # 2) < E)%Q ->
   round_ival cvt (add_fval offsetError fHighGain) = 0 /\
   ComputeAddCoefADC1410 cvt offsetError fHighGain = 0 /\
   ComputeAddCoefADC1410 cvt offsetError fHighGain <> keep18 (-1)).
Proof.
  intros Hv Ho Hneg E.
  (* the rule *)
  assert (Hrule : forall q,
            SF2Q (add_fval offsetError fHighGain) = Some q ->
            INT32_MIN <= Qtrunc (q + (1 # 2)) <= INT32_MAX ->
            round_ival cvt (add_fval offsetError fHighGain) = Qtrunc (q + (1 # 2)) /\
            ComputeAddCoefADC1410 cvt offsetError fHighGain
              = Qtrunc (q + (1 # 2)) mod 2 ^ 18).
  { intros q Hq Hr.
    assert (H : round_ival cvt (add_fval offsetError fHighGain)
                = Qtrunc (q + (1 # 2))).
    { rewrite add_fval_product in Hq |- *.
      exact (round_ival_exact cvt _ q Hq Hr). }
    split; [exact H|].
    unfold ComputeAddCoefADC1410; cbv zeta. rewrite H. apply keep18_mod. }
  (* the value of fval for an offset down to -8192 *)
  assert (Hval : (- (8192) <= o)%Q ->
            exists q,
              SF2Q (add_fval offsetError fHighGain) = Some q /\
              INT32_MIN <= Qtrunc (q + (1 # 2)) <= INT32_MAX /\
              (fHighGain = true -> (q == E)%Q) /\
              ((- (32) <= o)%Q ->
               (E - (1 # 16) <= q)%Q /\ (q <= E + (1 # 16))%Q)).
  { intros Hlo.
    assert (Hb : abs_le_pow2 offsetError 13).
    { apply (abs_le_pow2_of_Q offsetError o 13 Ho); [lia| |];
        change (inject_Z (2 ^ 13)) with 8192%Q; lra. }
    pose proof (add_fval_abs_le offsetError fHighGain Hb) as Hf.
    rewrite add_fval_product in Hf.
    destruct (round_ival_bounded _ Hf) as (q & Hq & Hr & _).
    rewrite <- add_fval_product in Hq.
    assert (Hhigh : fHighGain = true -> (q == E)%Q).
    { intros ->.
      destruct (add_fval_high_value offsetError o Hv Ho) as (q' & Hq' & Hqo);
        [lra|lra|].
      rewrite Hq in Hq'. apply Some_inj in Hq'. subst q'.
      rewrite Hqo. unfold E. change (inject_Z (2 ^ 17)) with 131072%Q. field. }
    exists q. split; [exact Hq|].
    split.
    { unfold INT32_MIN, INT32_MAX.
      change (2 ^ 30) with 1073741824 in Hr. change (2 ^ 31) with 2147483648.
      lia. }
    split; [exact Hhigh|].
    intros Ho32. destruct fHighGain.
    - rewrite (Hhigh eq_refl). split; lra.
    - destruct (add_fval_low_close offsetError o Ho Ho32 ltac:(lra))
        as (q' & Hq' & H1 & H2).
      rewrite Hq in Hq'. apply Some_inj in Hq'. subst q'.
      unfold E. split; assumption. }
  split.
  { intros q Hq Hr. destruct (Hrule q Hq Hr) as [H1 H2].
    split; [exact H1|]. split; [exact H2|]. apply trunc_half_vs_half_away. }
  split; [exact Hval|].
  (* E in (-3/2, 0) *)
  intros HE.
  assert (HE0 : (E < 0)%Q).
  { unfold E. destruct fHighGain; [|rewrite low_formula; lra].
    assert (o / 1 * 131072 == o * 131072)%Q by field. lra. }
  assert (Hlo : (- (8192) <= o)%Q).
  { unfold E in HE. destruct fHighGain; [|rewrite low_formula in HE; lra].
    assert (o / 1 * 131072 == o * 131072)%Q by field. lra. }
  destruct (Hval Hlo) as (q & Hq & Hr & Hhigh & _).
  assert (Hwin : (- (3 # 2) < q)%Q /\ (q < 1 # 2)%Q).
  { destruct fHighGain.
    - rewrite (Hhigh eq_refl). split; lra.
    - destruct (add_fval_low_above offsetError o Hv Ho HE HE0)
        as (q' & Hq' & H1 & H2).
      rewrite Hq in Hq'. apply Some_inj in Hq'. subst q'.
      split; assumption. }
  destruct Hwin as [H1 H2].
  destruct (Hrule q Hq Hr) as [Hc Hcoef].
  assert (Hz : Qtrunc (q + (1 # 2)) = 0) by (apply Qtrunc_small; lra).
  rewrite Hcoef, Hc, Hz.
  split; [reflexivity|]. split; [reflexivity|].
  intro H; discriminate H.
Qed.

Lemma add_negative_offsets_truncated_witness :
  ((- (3 # 2) < (-9830399 # 34359738368) / 25 * 131072)%Q /\
   round_ival cvt_x86 (add_fval (float_dyadic (-9830399) (-35)) false) = 0 /\
   ComputeAddCoefADC1410 cvt_x86 (float_dyadic (-9830399) (-35)) false = 0 /\
   roundHalfAwayFromZero ((-9830399 # 34359738368) / 25 * 131072) = -1) /\
  (SF2Q (add_fval (float_of_int (-1)) false) = Some (-10737418 # 2048) /\
   round_ival cvt_x86 (add_fval (float_of_int (-1)) false)
     = roundHalfAwayFromZero (-10737418 # 2048) + 1 /\
   ComputeAddCoefADC1410 cvt_x86 (float_of_int (-1)) false
     = (roundHalfAwayFromZero (-10737418 # 2048) + 1) mod 2 ^ 18).
Proof.
  split.
  - destruct (add_negative_offsets_truncated cvt_x86
                (float_dyadic (-9830399) (-35)) false (-9830399 # 34359738368))
      as (_ & _ & Hz).
    + vm_compute. reflexivity.
    + vm_compute. reflexivity.
    + reflexivity.
    + destruct (Hz eq_refl) as (Hr & Hc & _).
      split; [reflexivity|]. split; [exact Hr|]. split; [exact Hc|].
      reflexivity.
  - destruct (add_negative_offsets_truncated cvt_x86
                (float_of_int (-1)) false (-8388608 # 8388608))
      as (Hrule & _ & _).
    + vm_compute. reflexivity.
    + vm_compute. reflexivity.
    + reflexivity.
    + assert (Hq : SF2Q (add_fval (float_of_int (-1)) false)
                   = Some (-10737418 # 2048)) by (vm_compute; reflexivity).
      destruct (Hrule (-10737418 # 2048)%Q Hq) as (Hr & Hc & Hm).
      * vm_compute. split; intro H; discriminate H.
      * split; [exact Hq|].
        rewrite Hc, Hr, Hm; [split; reflexivity|].
        vm_compute. intro H; discriminate H.
Defined.

(* ================================================================== *)
(** ** The coefficient functions as calls                              *)
(* ================================================================== *)

(** C9.  A call of either coefficient function, run statement by
    statement in a world and on a stack frame whose automatic variables
    hold arbitrary values at entry.  Two calls with the same arguments
    return the same value, whatever the two worlds (the flag
    [dpmutilfVerbose], the output, the bus) and the two stacks hold;
    the call leaves the world as it found it; and the value is the one
    of [ComputeMultCoefADC1410], of [ComputeAddCoefADC1410].  The
    conversion of lines 199 and 231 is the one of the target the
    program runs on; for a gain error of magnitude at most 4096 and an
    offset error of magnitude at most 8192, where C defines it, two
    calls agree across targets as well. *)
Theorem coef_calls_pure cvt x fHighGain (w1 w2 : world)
    (junk1 junk2 : Call.frame) :
  (fst (Call.call (Call.ComputeMultCoefADC1410_body cvt x fHighGain) junk1 w1)
     = fst (Call.call (Call.ComputeMultCoefADC1410_body cvt x fHighGain) junk2 w2) /\
   snd (Call.call (Call.ComputeMultCoefADC1410_body cvt x fHighGain) junk1 w1)
     = w1 /\
   fst (Call.call (Call.ComputeMultCoefADC1410_body cvt x fHighGain) junk1 w1)
     = ComputeMultCoefADC1410 cvt x fHighGain /\
   (abs_le_pow2 x 12 ->
    forall cvt',
      fst (Call.call (Call.ComputeMultCoefADC1410_body cvt' x fHighGain) junk2 w2)
        = fst (Call.call (Call.ComputeMultCoefADC1410_body cvt x fHighGain)
                 junk1 w1))) /\
  (fst (Call.call (Call.ComputeAddCoefADC1410_body cvt x fHighGain) junk1 w1)
     = fst (Call.call (Call.ComputeAddCoefADC1410_body cvt x fHighGain) junk2 w2) /\
   snd (Call.call (Call.ComputeAddCoefADC1410_body cvt x fHighGain) junk1 w1)
     = w1 /\
   fst (Call.call (Call.ComputeAddCoefADC1410_body cvt x fHighGain) junk1 w1)
     = ComputeAddCoefADC1410 cvt x fHighGain /\
   (abs_le_pow2 x 13 ->
    forall cvt',
      fst (Call.call (Call.ComputeAddCoefADC1410_body cvt' x fHighGain) junk2 w2)
        = fst (Call.call (Call.ComputeAddCoefADC1410_body cvt x fHighGain)
                 junk1 w1))).
Proof.
  assert (Hm : forall c j w,
            Call.call (Call.ComputeMultCoefADC1410_body c x fHighGain) j w
            = (ComputeMultCoefADC1410 c x fHighGain, w)).
  { intros c [f i] w. reflexivity. }
  assert (Ha : forall c j w,
            Call.call (Call.ComputeAddCoefADC1410_body c x fHighGain) j w
            = (ComputeAddCoefADC1410 c x fHighGain, w)).
  { intros c [f i] w. reflexivity. }
  rewrite !Hm, !Ha. cbn [fst snd].
  split; (split; [reflexivity|]; split; [reflexivity|]; split; [reflexivity|]).
  - intros Hx cvt'. rewrite Hm. cbn [fst].
    destruct (mult_coef_bounded x fHighGain Hx) as (q & _ & _ & Hc).
    rewrite !Hc. reflexivity.
  - intros Hx cvt'. rewrite Ha. cbn [fst].
    destruct (add_coef_bounded x fHighGain Hx) as (q & _ & _ & Hc).
    rewrite !Hc. reflexivity.
Qed.
